(** * Inquiry-processing pipeline: Store, Queue, Poller and Orchestrator

    A shallow embedding of the TypeScript sources
    [database.ts], [message-queue.ts], [cron-gmail-poller.ts],
    [playwright-responder] (second half of [scrape.ts]), [error-notifier.ts],
    the Telegram notifier and the server's [processMessage], followed by the
    properties of the pipeline proved about them.

    Conventions.
    - A JavaScript string is a [string]: a sequence of code units.  The
      model only has the code units below 256, read as Latin-1.
    - A function that can throw returns a [Result]; [Throw e] carries the
      [Error] object.
    - Mutable singletons ([db], [messageQueue], [playwrightResponder]) are
      fields of one [World] record that every operation threads.
    - The results of the external collaborators (mail provider, portal page,
      text-generation endpoint) are inputs of the step that consumes them. *)

From Stdlib Require Import List String Ascii Bool Arith ZArith Lia.
Import ListNotations.
Open Scope string_scope.
Open Scope list_scope.
Open Scope nat_scope.

(* ===================================================================== *)
(** ** JavaScript values used by the sources *)
(* ===================================================================== *)

Module Js.

(** [Error] objects; only [message] is ever read by the sources. *)
Record Error := mkError { message : string }.

Inductive Result (A : Type) : Type :=
| Ok (a : A)
| Throw (e : Error).
Arguments Ok {A} a.
Arguments Throw {A} e.

(** A JavaScript number: a finite value is the exact ratio [num/den] of two
    integers (every finite double is one); besides these there are the two
    infinities and NaN. *)
Inductive Number :=
| Ratio (num : Z) (den : positive)
| Infinity
| MinusInfinity
| NaN.

(** The number of a natural number. *)
Definition of_nat (n : nat) : Number := Ratio (Z.of_nat n) 1.

(** [k >= m] for a count [k] (a natural number) and a number [m];
    every comparison with NaN is false. *)
Definition at_least (k : nat) (m : Number) : bool :=
  match m with
  | Ratio num den => (num <=? Z.of_nat k * Z.pos den)%Z
  | Infinity => false
  | MinusInfinity => true
  | NaN => false
  end.

(** [k > m] *)
Definition exceeds (k : nat) (m : Number) : bool :=
  match m with
  | Ratio num den => (num <? Z.of_nat k * Z.pos den)%Z
  | Infinity => false
  | MinusInfinity => true
  | NaN => false
  end.

(** [s.includes(sub)] *)
Fixpoint includes (s sub : string) : bool :=
  if String.prefix sub s then true
  else match s with
       | EmptyString => false
       | String _ s' => includes s' sub
       end.

(** Truthiness of a string: [''] is falsy. *)
Definition truthy (s : string) : bool :=
  match s with EmptyString => false | _ => true end.

(** [o || d] for an optional string [o] and a string default [d]. *)
Definition or_default (o : option string) (d : string) : string :=
  match o with
  | Some s => if truthy s then s else d
  | None => d
  end.

(** [o || null] for an optional string. *)
Definition or_null (o : option string) : option string :=
  match o with
  | Some s => if truthy s then Some s else None
  | None => None
  end.

(** Line terminators among the modelled code units (LF, CR): the regular
    expression atom [.] matches every other code unit. *)
Definition is_line_terminator (c : ascii) : bool :=
  let n := nat_of_ascii c in ((n =? 10) || (n =? 13))%nat.

(** White space and line terminators stripped by [trim()]:
    TAB, LF, VT, FF, CR, SP and NBSP. *)
Definition is_white_space (c : ascii) : bool :=
  let n := nat_of_ascii c in
  (((9 <=? n) && (n <=? 13)) || (n =? 32) || (n =? 160))%nat.

Fixpoint trimStart (s : string) : string :=
  match s with
  | EmptyString => EmptyString
  | String c r => if is_white_space c then trimStart r else s
  end.

Fixpoint trimEnd (s : string) : string :=
  match s with
  | EmptyString => EmptyString
  | String c r =>
      match trimEnd r with
      | EmptyString => if is_white_space c then EmptyString else String c EmptyString
      | r' => String c r'
      end
  end.

(** [s.trim()] *)
Definition trim (s : string) : string := trimEnd (trimStart s).

(** [s.toLowerCase()] on Latin-1 code units: A-Z and the accented capitals
    0xC0-0xDE (without the multiplication sign 0xD7) move up by 32. *)
Definition lower_char (c : ascii) : ascii :=
  let n := nat_of_ascii c in
  if (((65 <=? n) && (n <=? 90))
      || ((192 <=? n) && (n <=? 222) && negb (n =? 215)))%nat
  then ascii_of_nat (n + 32) else c.

Fixpoint toLowerCase (s : string) : string :=
  match s with
  | EmptyString => EmptyString
  | String c r => String (lower_char c) (toLowerCase r)
  end.

(** [s.substring(n)] *)
Fixpoint drop (n : nat) (s : string) : string :=
  match n, s with
  | O, _ => s
  | S n', String _ r => drop n' r
  | S _, EmptyString => EmptyString
  end.

(** The lazy group [(.+?)] followed by the stop character, or by the end
    of the input when [at_end] is set: the shortest non-empty run of
    non-terminator code units after which the continuation matches.
    [acc] is the run consumed so far. *)
Fixpoint lazy_group (stop : ascii) (at_end : bool) (acc s : string) : option string :=
  match s with
  | EmptyString => if at_end && truthy acc then Some acc else None
  | String c r =>
      if truthy acc && Ascii.eqb c stop then Some acc
      else if is_line_terminator c then None
      else lazy_group stop at_end (acc ++ String c EmptyString)%string r
  end.

(** [s.match(/LIT(.+?)(?:STOP|$)/)] when [at_end], and
    [s.match(/LIT(.+?)STOP/)] otherwise: capture group 1 of the leftmost
    match, [None] when the expression does not match. *)
Fixpoint match_group (lit : string) (stop : ascii) (at_end : bool) (s : string)
  : option string :=
  match (if String.prefix lit s
         then lazy_group stop at_end EmptyString (drop (String.length lit) s)
         else None) with
  | Some g => Some g
  | None =>
      match s with
      | EmptyString => None
      | String _ r => match_group lit stop at_end r
      end
  end.

End Js.

Import Js.

(* ===================================================================== *)
(** ** Subject-line classification ([cron-gmail-poller.ts], [categorizeEmail]) *)
(* ===================================================================== *)

Module Categorize.

Inductive EmailType := NEW_INQUIRY | REPLY | UNKNOWN.

Record Categorized := mkCategorized {
  type : EmailType;
  tenantName : option string;
  tenantEmail : option string
}.

Definition categorizeEmail (subject from : string) : Categorized :=
  let '(ty, name) :=
    if includes subject "Booking Inquiry from" then
      (NEW_INQUIRY,
       option_map trim (match_group "Booking Inquiry from " "["%char true subject))
    else if includes subject "Property Owner Message" then
      (NEW_INQUIRY,
       option_map trim (match_group "Property Owner Message from " "["%char true subject))
    else if includes subject "New reply from"
            || includes subject "reply from"
            || includes subject "Re:" then
      (REPLY, None)
    else (UNKNOWN, None) in
  mkCategorized ty name (match_group "<" ">"%char false from).

(** The three reply markers tested by the last branch. *)
Definition has_reply_marker (subject : string) : bool :=
  includes subject "New reply from"
  || includes subject "reply from"
  || includes subject "Re:".

(** The two inquiry patterns tested by the first two branches. *)
Definition has_inquiry_pattern (subject : string) : bool :=
  includes subject "Booking Inquiry from"
  || includes subject "Property Owner Message".

End Categorize.

(* ===================================================================== *)
(** ** The Store ([database.ts]) *)
(* ===================================================================== *)

Module Database.

Inductive Status := pending | processing | sent | failed.

(** Value of [CURRENT_TIMESTAMP] / [new Date()], read from the caller. *)
Definition Timestamp := nat.

(** [interface Message]; the optional fields are options. *)
Record Message := mkMessage {
  id : option nat;
  gmail_message_id : string;
  tenant_name : string;
  tenant_email : option string;
  tenant_message : string;
  our_response : option string;
  status : Status;
  created_at : option Timestamp;
  processed_at : option Timestamp;
  error : option string;
  ff_conversation_url : option string
}.

(** The [messages] table of [initializeSchema]: its rows in rowid order and
    the AUTOINCREMENT counter.  The column constraints that the TypeScript
    types do not already give are enforced by [insertMessage]:
    [gmail_message_id TEXT UNIQUE NOT NULL]. *)
Record SqlJsDatabase := mkTable {
  rows : list Message;
  last_rowid : nat
}.

(** [class MessageDatabase]: [db] is [null] until [initialize] has run
    and after [close]. *)
Record MessageDatabase := mkDb { db : option SqlJsDatabase }.

Definition has_gmail_id (gmailMessageId : string) (r : Message) : bool :=
  (gmail_message_id r =? gmailMessageId)%string.

(** [insertMessage]: the INSERT fails on the UNIQUE column, which makes
    [db.run] throw; otherwise the row gets the next rowid, the column
    defaults ([created_at]) and NULL for the columns not listed. *)
Definition insertMessage (d : MessageDatabase) (now : Timestamp) (message : Message)
  : MessageDatabase * Result nat :=
  match db d with
  | None => (d, Throw (mkError "Database not initialized"))
  | Some t =>
      if existsb (has_gmail_id (gmail_message_id message)) (rows t)
      then (d, Throw (mkError "UNIQUE constraint failed: messages.gmail_message_id"))
      else
        let rowid := S (last_rowid t) in
        let row := {| id := Some rowid;
                      gmail_message_id := gmail_message_id message;
                      tenant_name := tenant_name message;
                      tenant_email := or_null (tenant_email message);
                      tenant_message := tenant_message message;
                      our_response := None;
                      status := status message;
                      created_at := Some now;
                      processed_at := None;
                      error := None;
                      ff_conversation_url := or_null (ff_conversation_url message) |} in
        (mkDb (Some (mkTable (rows t ++ [row]) rowid)), Ok rowid)
  end.

(** [messageExists]: [SELECT COUNT( * ) ... WHERE gmail_message_id = ?] is
    positive. *)
Definition messageExists (d : MessageDatabase) (gmailMessageId : string) : bool :=
  match db d with
  | None => false
  | Some t => 0 <? List.length (filter (has_gmail_id gmailMessageId) (rows t))
  end.

(** [UPDATE messages SET ... WHERE gmail_message_id = ?] *)
Definition update_where (gmailMessageId : string) (f : Message -> Message)
           (t : SqlJsDatabase) : SqlJsDatabase :=
  mkTable (map (fun r => if has_gmail_id gmailMessageId r then f r else r) (rows t))
          (last_rowid t).

Definition updateStatus (d : MessageDatabase) (now : Timestamp)
           (gmailMessageId : string) (st : Status) (err : option string)
  : MessageDatabase :=
  match db d with
  | None => d
  | Some t =>
      mkDb (Some (update_where gmailMessageId
        (fun r => {| id := id r;
                     gmail_message_id := gmail_message_id r;
                     tenant_name := tenant_name r;
                     tenant_email := tenant_email r;
                     tenant_message := tenant_message r;
                     our_response := our_response r;
                     status := st;
                     created_at := created_at r;
                     processed_at := Some now;
                     error := or_null err;
                     ff_conversation_url := ff_conversation_url r |}) t))
  end.

Definition updateResponse (d : MessageDatabase)
           (gmailMessageId : string) (response : string) : MessageDatabase :=
  match db d with
  | None => d
  | Some t =>
      mkDb (Some (update_where gmailMessageId
        (fun r => {| id := id r;
                     gmail_message_id := gmail_message_id r;
                     tenant_name := tenant_name r;
                     tenant_email := tenant_email r;
                     tenant_message := tenant_message r;
                     our_response := Some response;
                     status := status r;
                     created_at := created_at r;
                     processed_at := processed_at r;
                     error := error r;
                     ff_conversation_url := ff_conversation_url r |}) t))
  end.

(** [getMessageByGmailId]: the first row of the SELECT. *)
Definition getMessageByGmailId (d : MessageDatabase) (gmailMessageId : string)
  : option Message :=
  match db d with
  | None => None
  | Some t => find (has_gmail_id gmailMessageId) (rows t)
  end.

(** All rows, [[]] while the database is not open. *)
Definition all_rows (d : MessageDatabase) : list Message :=
  match db d with
  | None => []
  | Some t => rows t
  end.

(** The rows carrying a given [gmail_message_id]. *)
Definition rows_with (d : MessageDatabase) (gmailMessageId : string) : list Message :=
  filter (has_gmail_id gmailMessageId) (all_rows d).

(** A database that [initialize] has just created: the empty table. *)
Definition fresh : MessageDatabase := mkDb (Some (mkTable [] 0)).

(** A run of [insertMessage] calls, the results in call order. *)
Fixpoint insertAll (d : MessageDatabase) (calls : list (Timestamp * Message))
  : MessageDatabase * list (Result nat) :=
  match calls with
  | [] => (d, [])
  | (now, m) :: rest =>
      let '(d1, r) := insertMessage d now m in
      let '(d2, rs) := insertAll d1 rest in
      (d2, r :: rs)
  end.

End Database.

(* ===================================================================== *)
(** ** The Queue ([message-queue.ts]) *)
(* ===================================================================== *)

Module Queue.

Record QueuedMessage := mkQueued {
  gmailMessageId : string;
  tenantName : string;
  tenantEmail : option string;
  tenantMessage : string;
  retryCount : nat;
  addedAt : nat
}.

(** [Omit<QueuedMessage, 'retryCount' | 'addedAt'>] *)
Record NewMessage := mkNew {
  new_gmailMessageId : string;
  new_tenantName : string;
  new_tenantEmail : option string;
  new_tenantMessage : string
}.

(** The events of the [EventEmitter], in emission order. *)
Inductive Event :=
| EvMessageAdded (m : QueuedMessage)
| EvProcessMessage (m : QueuedMessage)
| EvMessageCompleted (m : QueuedMessage)
| EvMessageFailed (m : QueuedMessage) (e : Error).

(** [class MessageQueue].  The retry bound is whatever number the
    constructor is given.  A retry count starts at 0 in [enqueue] and only
    changes by [retryCount++], so it is a natural number. *)
Record MessageQueue := mkQueue {
  queue : list QueuedMessage;
  processing : bool;
  maxRetries : Number
}.

(** [new MessageQueue(maxRetries)] *)
Definition create (maxRetries : Number) : MessageQueue := mkQueue [] false maxRetries.

(** The exported singleton, [new MessageQueue()], with the default bound. *)
Definition messageQueue : MessageQueue := create (of_nat 3).

Definition has_id (gmailMessageId : string) (m : QueuedMessage) : bool :=
  (Queue.gmailMessageId m =? gmailMessageId)%string.

(** [Array.prototype.findIndex]; [None] stands for [-1]. *)
Fixpoint findIndex (p : QueuedMessage -> bool) (l : list QueuedMessage) : option nat :=
  match l with
  | [] => None
  | x :: r => if p x then Some 0
              else match findIndex p r with
                   | Some i => Some (S i)
                   | None => None
                   end
  end.

(** [Array.prototype.splice(index, 1)] *)
Fixpoint splice1 (index : nat) (l : list QueuedMessage) : list QueuedMessage :=
  match index, l with
  | _, [] => []
  | O, _ :: r => r
  | S i, x :: r => x :: splice1 i r
  end.

(** [processNext]: the head is peeked, not removed, and handed over with
    the [processMessage] event.  The listener registered by the server
    wraps an async call and attaches [.catch], so [emit] returns normally
    and the [catch] clause of [processNext] is not entered. *)
Definition processNext (q : MessageQueue) : MessageQueue * list Event :=
  match queue q with
  | [] => (mkQueue (queue q) false (maxRetries q), [])
  | message :: _ => (mkQueue (queue q) true (maxRetries q), [EvProcessMessage message])
  end.

Definition enqueue (q : MessageQueue) (now : nat) (message : NewMessage)
  : MessageQueue * list Event :=
  let queuedMessage :=
    {| gmailMessageId := new_gmailMessageId message;
       tenantName := new_tenantName message;
       tenantEmail := new_tenantEmail message;
       tenantMessage := new_tenantMessage message;
       retryCount := 0;
       addedAt := now |} in
  let q1 := mkQueue (queue q ++ [queuedMessage]) (processing q) (maxRetries q) in
  if negb (processing q1)
  then let '(q2, evs) := processNext q1 in (q2, EvMessageAdded queuedMessage :: evs)
  else (q1, [EvMessageAdded queuedMessage]).

Definition messageProcessed (q : MessageQueue) (gmailMessageId : string)
  : MessageQueue * list Event :=
  match findIndex (has_id gmailMessageId) (queue q) with
  | None => (q, [])
  | Some index =>
      match nth_error (queue q) index with
      | None => (q, [])
      | Some message =>
          let q1 := mkQueue (splice1 index (queue q)) (processing q) (maxRetries q) in
          let '(q2, evs) := processNext q1 in
          (q2, EvMessageCompleted message :: evs)
      end
  end.

(** [message.retryCount++] on the object held by the queue. *)
Definition bump (m : QueuedMessage) : QueuedMessage :=
  {| gmailMessageId := gmailMessageId m;
     tenantName := tenantName m;
     tenantEmail := tenantEmail m;
     tenantMessage := tenantMessage m;
     retryCount := S (retryCount m);
     addedAt := addedAt m |}.

Definition messageFailed (q : MessageQueue) (gmailMessageId : string) (error : Error)
  : MessageQueue * list Event :=
  match findIndex (has_id gmailMessageId) (queue q) with
  | None => (q, [])
  | Some index =>
      match nth_error (queue q) index with
      | None => (q, [])
      | Some m0 =>
          let message := bump m0 in
          if at_least (retryCount message) (maxRetries q) then
            let q1 := mkQueue (splice1 index (queue q)) (processing q) (maxRetries q) in
            let '(q2, evs) := processNext q1 in
            (q2, EvMessageFailed message error :: evs)
          else
            let q1 := mkQueue (splice1 index (queue q) ++ [message])
                              (processing q) (maxRetries q) in
            processNext q1
      end
  end.

(** [isInQueue] *)
Definition isInQueue (q : MessageQueue) (gmailMessageId : string) : bool :=
  existsb (has_id gmailMessageId) (queue q).

(** [get size] *)
Definition size (q : MessageQueue) : nat := List.length (queue q).

(** A call on the queue's public interface. *)
Inductive Call :=
| CallEnqueue (now : nat) (message : NewMessage)
| CallProcessed (gmailMessageId : string)
| CallFailed (gmailMessageId : string) (error : Error).

Definition call (q : MessageQueue) (c : Call) : MessageQueue * list Event :=
  match c with
  | CallEnqueue now message => enqueue q now message
  | CallProcessed g => messageProcessed q g
  | CallFailed g e => messageFailed q g e
  end.

(** A sequence of calls; the events of all calls in emission order. *)
Fixpoint calls (q : MessageQueue) (cs : list Call) : MessageQueue * list Event :=
  match cs with
  | [] => (q, [])
  | c :: rest =>
      let '(q1, evs1) := call q c in
      let '(q2, evs2) := calls q1 rest in
      (q2, evs1 ++ evs2)
  end.

(** The items handed to the Orchestrator by a list of events. *)
Definition dispatched (evs : list Event) : list QueuedMessage :=
  flat_map (fun ev => match ev with EvProcessMessage m => [m] | _ => [] end) evs.

(** The items given up for good by a list of events. *)
Definition abandoned (evs : list Event) : list QueuedMessage :=
  flat_map (fun ev => match ev with EvMessageFailed m _ => [m] | _ => [] end) evs.

(** The items completed by a list of events. *)
Definition completed (evs : list Event) : list QueuedMessage :=
  flat_map (fun ev => match ev with EvMessageCompleted m => [m] | _ => [] end) evs.

(** *** The hand-over protocol

    [in_flight] is the list of items that were handed over with
    [processMessage] and for which neither [messageProcessed] nor
    [messageFailed] has been called yet.  A call of [messageProcessed] or
    [messageFailed] follows the protocol when it names an item in flight
    (the Orchestrator signals only for the item it was handed); [None]
    marks a call that does not. *)
Record Tracked := mkTracked {
  mq : MessageQueue;
  in_flight : list QueuedMessage
}.

Fixpoint take_out (gmailMessageId : string) (l : list QueuedMessage)
  : option (list QueuedMessage) :=
  match l with
  | [] => None
  | x :: r => if has_id gmailMessageId x then Some r
              else option_map (cons x) (take_out gmailMessageId r)
  end.

Definition tracked_call (t : Tracked) (c : Call) : option (Tracked * list Event) :=
  match c with
  | CallEnqueue now message =>
      let '(q1, evs) := enqueue (mq t) now message in
      Some (mkTracked q1 (in_flight t ++ dispatched evs), evs)
  | CallProcessed g =>
      match take_out g (in_flight t) with
      | None => None
      | Some rest =>
          let '(q1, evs) := messageProcessed (mq t) g in
          Some (mkTracked q1 (rest ++ dispatched evs), evs)
      end
  | CallFailed g e =>
      match take_out g (in_flight t) with
      | None => None
      | Some rest =>
          let '(q1, evs) := messageFailed (mq t) g e in
          Some (mkTracked q1 (rest ++ dispatched evs), evs)
      end
  end.

Fixpoint tracked_calls (t : Tracked) (cs : list Call) : option (Tracked * list Event) :=
  match cs with
  | [] => Some (t, [])
  | c :: rest =>
      match tracked_call t c with
      | None => None
      | Some (t1, evs1) =>
          match tracked_calls t1 rest with
          | None => None
          | Some (t2, evs2) => Some (t2, evs1 ++ evs2)
          end
      end
  end.

Definition is_fail_of (gmailMessageId : string) (c : Call) : bool :=
  match c with
  | CallFailed g _ => (g =? gmailMessageId)%string
  | _ => false
  end.

End Queue.

(* ===================================================================== *)
(** ** Configuration ([config.ts]) *)
(* ===================================================================== *)

Module Config.

Record SafetyConfig := mkSafety {
  TEST_MODE : bool;
  TEST_SENDER_NAME : string;
  AUTO_SEND_ENABLED : bool;
  TELEGRAM_NOTIFICATIONS_ENABLED : bool
}.

(** The values in the source. *)
Definition SAFETY_CONFIG : SafetyConfig :=
  {| TEST_MODE := true;
     TEST_SENDER_NAME := "Patrick M";
     AUTO_SEND_ENABLED := false;
     TELEGRAM_NOTIFICATIONS_ENABLED := true |}.

End Config.

(* ===================================================================== *)
(** ** The pipeline: collaborators, Orchestrator and Poller *)
(* ===================================================================== *)

Module Pipeline.
Import Database Queue Config.

(** *** Answers of the outside world *)

(** [extractLatestMessage]'s return value. *)
Record Extracted := mkExtracted {
  ex_tenantName : string;
  ex_tenantMessage : string;
  ex_conversationUrl : string
}.

(** [launchBrowser]: [chromium.launch] may throw before [this.browser] is
    assigned, [newContext]/[newPage] after it. *)
Inductive Launch :=
| Launched
| LaunchThrows (e : Error)
| ContextThrows (e : Error).

(** The answer of the text-generation endpoint to one request. *)
Inductive LlmReply :=
| FetchThrows (e : Error)
| NotOk (status_line : string)
| Reply (response : string).

(** What the collaborators answer during one run of [processMessage]:
    the browser launch, the navigation and DOM reads of
    [extractLatestMessage] up to its three values, the endpoint's reply,
    the DOM interaction of [sendResponse], and Playwright's
    [browser.close()], once for the [closeBrowser] call of the [try] block
    and once for the one of the [catch] clause. *)
Record Answers := mkAnswers {
  launch : Launch;
  scrape : Result Extracted;
  llm : LlmReply;
  typing : Result unit;
  closing : Result unit;
  closing_in_catch : Result unit
}.

(** One entry of [users.messages.list] with the answer of
    [users.messages.get] for it: the headers as (name, value) pairs. *)
Record MailMessage := mkMail {
  mail_id : string;
  mail_headers : Result (list (string * option string))
}.

(** *** Observable effects *)

(** Calls on [errorNotifier]. *)
Inductive Notification :=
| PlaywrightError (e : Error) (gmailMessageId : string)
| LLMError (e : Error) (tenantName : string)
| AuthExpired
| MessageMismatch (gmailMessageId tenantName : string)
| SystemError (e : Error) (context : string)
| Success (tenantName messagePreview : string).

Inductive Effect :=
| FxStatus (gmailMessageId : string) (before : list Status)
           (st : Status) (err : option string)
  (** [db.updateStatus]; [before] lists the status of each row it rewrites *)
| FxResponse (gmailMessageId response : string)           (** [db.updateResponse] *)
| FxInsert (message : Message) (r : Result nat)            (** [db.insertMessage] *)
| FxEnqueue (message : NewMessage)                         (** [messageQueue.enqueue] *)
| FxProcessed (gmailMessageId : string)                    (** [messageQueue.messageProcessed] *)
| FxFailed (gmailMessageId : string) (e : Error)           (** [messageQueue.messageFailed] *)
| FxEmit (ev : Event)                                      (** an event of the queue *)
| FxNotify (n : Notification)                              (** a call on [errorNotifier] *)
| FxApproval (tenantName tenantMessage generatedResponse conversationUrl : string)
  (** [telegramNotifier.sendResponseForApproval] *)
| FxCloseBrowser                                           (** [playwrightResponder.closeBrowser] *)
| FxRethrow (e : Error).                                   (** [throw error] at the end of [catch] *)

(** *** The singletons *)

(** [class PlaywrightResponder]: whether [browser] and [page] are set. *)
Record PlaywrightResponder := mkResponder {
  browser : bool;
  page : bool
}.

Record World := mkWorld {
  w_db : MessageDatabase;
  w_queue : MessageQueue;
  w_responder : PlaywrightResponder;
  (** the [processMessage] calls suspended at [await extractLatestMessage()] *)
  w_awaiting : list QueuedMessage
}.

(** *** Computations over the world that may throw and that log effects *)

Definition M (A : Type) : Type := World -> World * list Effect * Result A.

Definition ret {A} (a : A) : M A := fun w => (w, [], Ok a).

Definition throw {A} (e : Error) : M A := fun w => (w, [], Throw e).

Definition bind {A B} (c : M A) (k : A -> M B) : M B :=
  fun w =>
    match c w with
    | (w1, fx1, Ok a) =>
        match k a w1 with
        | (w2, fx2, r) => (w2, fx1 ++ fx2, r)
        end
    | (w1, fx1, Throw e) => (w1, fx1, Throw e)
    end.

(** [try { body } catch (error) { handler }] *)
Definition try_catch {A} (body : M A) (handler : Error -> M A) : M A :=
  fun w =>
    match body w with
    | (w1, fx1, Ok a) => (w1, fx1, Ok a)
    | (w1, fx1, Throw e) =>
        match handler e w1 with
        | (w2, fx2, r) => (w2, fx1 ++ fx2, r)
        end
    end.

Definition lift {A} (r : Result A) : M A := fun w => (w, [], r).

Definition log (fx : Effect) : M unit := fun w => (w, [fx], Ok tt).

Declare Scope pipeline_scope.
Delimit Scope pipeline_scope with pipeline.
Notation "x <- c1 ;; c2" := (bind c1 (fun x => c2))
  (at level 100, c1 at next level, right associativity) : pipeline_scope.
Notation "c1 ;; c2" := (bind c1 (fun _ => c2))
  (at level 100, right associativity) : pipeline_scope.
Open Scope pipeline_scope.

Definition world_of {A} (x : World * list Effect * Result A) : World := fst (fst x).
Definition effects_of {A} (x : World * list Effect * Result A) : list Effect := snd (fst x).
Definition result_of {A} (x : World * list Effect * Result A) : Result A := snd x.

(** [for (const x of l) { body x }] *)
Fixpoint for_each {A} (l : list A) (body : A -> M unit) : M unit :=
  match l with
  | [] => ret tt
  | x :: rest => body x ;; for_each rest body
  end.

(** *** [db], [errorNotifier], [telegramNotifier] *)

Definition db_updateStatus (now : Timestamp) (gmailMessageId : string)
           (st : Status) (err : option string) : M unit :=
  fun w =>
    (mkWorld (updateStatus (w_db w) now gmailMessageId st err)
             (w_queue w) (w_responder w) (w_awaiting w),
     [FxStatus gmailMessageId (map status (rows_with (w_db w) gmailMessageId)) st err],
     Ok tt).

Definition db_updateResponse (gmailMessageId response : string) : M unit :=
  fun w =>
    (mkWorld (updateResponse (w_db w) gmailMessageId response)
             (w_queue w) (w_responder w) (w_awaiting w),
     [FxResponse gmailMessageId response],
     Ok tt).

Definition db_insertMessage (now : Timestamp) (message : Message) : M nat :=
  fun w =>
    let '(d, r) := insertMessage (w_db w) now message in
    (mkWorld d (w_queue w) (w_responder w) (w_awaiting w), [FxInsert message r], r).

(** The methods of [errorNotifier] catch what their transport throws; a
    call is observable as the notification it asks for. *)
Definition notify (n : Notification) : M unit := log (FxNotify n).

(** [sendResponseForApproval] only writes to the console. *)
Definition sendResponseForApproval
           (tenantName tenantMessage generatedResponse conversationUrl : string)
  : M unit :=
  log (FxApproval tenantName tenantMessage generatedResponse conversationUrl).

(** *** [playwrightResponder] *)

Definition set_responder (r : PlaywrightResponder) : M unit :=
  fun w => (mkWorld (w_db w) (w_queue w) r (w_awaiting w), [], Ok tt).

Definition launchBrowser (a : Answers) : M unit :=
  fun w =>
    if browser (w_responder w) && page (w_responder w) then ret tt w
    else match launch a with
         | Launched => set_responder (mkResponder true true) w
         | LaunchThrows e => throw e w
         | ContextThrows e =>
             (set_responder (mkResponder true (page (w_responder w))) ;; throw e) w
         end.

Definition extractLatestMessage (a : Answers) : M Extracted :=
  try_catch
    (launchBrowser a ;;
     x <- lift (scrape a) ;;
     if negb (truthy (ex_tenantMessage x))
     then throw (mkError
            "Could not extract tenant message - page structure may have changed")
     else ret x)
    (fun error => throw error).

Definition sendResponse (a : Answers) (response : string) : M unit :=
  try_catch
    (fun w =>
       if negb (page (w_responder w))
       then throw (mkError "Browser not initialized") w
       else lift (typing a) w)
    (fun error => throw error).

(** [closeBrowser]; [answer] is what [browser.close()] does when it is
    called.  When it rejects, the two fields stay set and [closeBrowser]
    rejects with the same error. *)
Definition closeBrowser (answer : Result unit) : M unit :=
  log FxCloseBrowser ;;
  fun w =>
    if browser (w_responder w) then
      (lift answer ;; set_responder (mkResponder false false)) w
    else ret tt w.

(** *** [llmClient.generateResponse] *)

Definition generateResponse (a : Answers)
           (tenantName tenantMessage : string) (tenantEmail : option string)
  : M string :=
  try_catch
    (match llm a with
     | FetchThrows e => throw e
     | NotOk status_line => throw (mkError ("LLM API error: " ++ status_line))
     | Reply response =>
         if negb (truthy response)
         then throw (mkError "LLM API returned empty response")
         else ret response
     end)
    (fun error => throw error).

(** *** The server: [processMessage] and the queue's listeners *)

(** [processMessage] up to its first [await]: the status is set to
    [processing] and the call is suspended in [extractLatestMessage]. *)
Definition processMessage_begin (now : Timestamp) (message : QueuedMessage) : M unit :=
  db_updateStatus now (gmailMessageId message) Database.processing None ;;
  fun w => (mkWorld (w_db w) (w_queue w) (w_responder w) (w_awaiting w ++ [message]),
            [], Ok tt).

(** The listeners that [initialize] registers.  The [processMessage]
    listener starts the call; its rejection is caught and logged. *)
Definition listener (now : Timestamp) (ev : Event) : M unit :=
  match ev with
  | EvMessageAdded _ => ret tt
  | EvProcessMessage message => processMessage_begin now message
  | EvMessageCompleted _ => ret tt
  | EvMessageFailed message error =>
      notify (SystemError error
                ("Max retries exceeded for message from " ++ tenantName message))
  end.

Definition emit (now : Timestamp) (evs : list Event) : M unit :=
  for_each evs (fun ev => log (FxEmit ev) ;; listener now ev).

Definition on_queue (now : Timestamp)
           (method : MessageQueue -> MessageQueue * list Event) : M unit :=
  fun w =>
    let '(q, evs) := method (w_queue w) in
    emit now evs (mkWorld (w_db w) q (w_responder w) (w_awaiting w)).

Definition mq_enqueue (now : Timestamp) (message : NewMessage) : M unit :=
  log (FxEnqueue message) ;; on_queue now (fun q => enqueue q now message).

Definition mq_messageProcessed (now : Timestamp) (gmailMessageId : string) : M unit :=
  log (FxProcessed gmailMessageId) ;;
  on_queue now (fun q => messageProcessed q gmailMessageId).

Definition mq_messageFailed (now : Timestamp) (gmailMessageId : string) (error : Error)
  : M unit :=
  log (FxFailed gmailMessageId error) ;;
  on_queue now (fun q => messageFailed q gmailMessageId error).

(** The notification chosen by the [catch] clause of [processMessage]. *)
Definition classify (error : Error) (message : QueuedMessage) : Notification :=
  if includes (Js.message error) "LLM" then
    LLMError error (tenantName message)
  else if includes (Js.message error) "auth"
          || includes (Js.message error) "login" then
    AuthExpired
  else
    PlaywrightError error (gmailMessageId message).

(** The [catch (error)] clause of [processMessage]; a rejection of
    [closeBrowser] is caught and logged. *)
Definition on_error (now : Timestamp) (a : Answers) (message : QueuedMessage)
           (error : Error) : M unit :=
  try_catch (closeBrowser (closing_in_catch a)) (fun _ => ret tt) ;;
  db_updateStatus now (gmailMessageId message) failed (Some (Js.message error)) ;;
  notify (classify error message) ;;
  mq_messageFailed now (gmailMessageId message) error ;;
  log (FxRethrow error) ;;
  throw error.

(** [processMessage] after [db.updateStatus(gmailMessageId, 'processing')]:
    from the answer of [extractLatestMessage] to the end, [catch] clause
    included. *)
Definition processMessage_resume (cfg : SafetyConfig) (now : Timestamp)
           (a : Answers) (message : QueuedMessage) : M unit :=
  let gmailMessageId := gmailMessageId message in
  let tenantName := tenantName message in
  let tenantEmail := tenantEmail message in
  try_catch
    (extractedData <- extractLatestMessage a ;;
     let nameMatch :=
       includes (toLowerCase (ex_tenantName extractedData)) (toLowerCase tenantName)
       || includes (toLowerCase tenantName) (toLowerCase (ex_tenantName extractedData)) in
     (if negb nameMatch
      then notify (MessageMismatch gmailMessageId tenantName)
      else ret tt) ;;
     db_updateResponse gmailMessageId (ex_tenantMessage extractedData) ;;
     llmResponse <- generateResponse a (ex_tenantName extractedData)
                      (ex_tenantMessage extractedData) tenantEmail ;;
     db_updateResponse gmailMessageId llmResponse ;;
     if AUTO_SEND_ENABLED cfg then
       sendResponse a llmResponse ;;
       closeBrowser (closing a) ;;
       db_updateStatus now gmailMessageId sent None ;;
       notify (Success (ex_tenantName extractedData) llmResponse) ;;
       mq_messageProcessed now gmailMessageId
     else
       sendResponseForApproval (ex_tenantName extractedData)
         (ex_tenantMessage extractedData) llmResponse
         (ex_conversationUrl extractedData) ;;
       closeBrowser (closing a) ;;
       db_updateStatus now gmailMessageId pending None ;;
       mq_messageProcessed now gmailMessageId)
    (on_error now a message).

(** One whole [processMessage] call, without interleaving. *)
Definition processMessage (cfg : SafetyConfig) (now : Timestamp)
           (a : Answers) (message : QueuedMessage) : M unit :=
  db_updateStatus now (gmailMessageId message) Database.processing None ;;
  processMessage_resume cfg now a message.

(** *** The Poller: [checkGmail] *)

(** [headers.find(h => h.name === name)?.value] *)
Definition header (name : string) (headers : list (string * option string))
  : option string :=
  match find (fun h => (fst h =? name)%string) headers with
  | Some h => snd h
  | None => None
  end.

(** The body of the [for] loop; [ret tt] stands for [continue]. *)
Definition poll_message (cfg : SafetyConfig) (now : Timestamp) (m : MailMessage)
  : M unit :=
  fun w =>
    let gmailMessageId := mail_id m in
    if messageExists (w_db w) gmailMessageId then ret tt w
    else if isInQueue (w_queue w) gmailMessageId then ret tt w
    else
      (headers <- lift (mail_headers m) ;;
       let subject := or_default (header "Subject" headers) "(no subject)" in
       let from := or_default (header "From" headers) "(unknown sender)" in
       let c := Categorize.categorizeEmail subject from in
       match Categorize.type c with
       | Categorize.NEW_INQUIRY =>
           if TEST_MODE cfg
              && negb (includes (or_default (Categorize.tenantName c) "Unknown")
                                (TEST_SENDER_NAME cfg))
           then ret tt
           else
             db_insertMessage now
               {| id := None;
                  gmail_message_id := gmailMessageId;
                  tenant_name := or_default (Categorize.tenantName c) "Unknown Tenant";
                  tenant_email := Categorize.tenantEmail c;
                  tenant_message := subject;
                  our_response := None;
                  status := pending;
                  created_at := None;
                  processed_at := None;
                  error := None;
                  ff_conversation_url := None |} ;;
             mq_enqueue now
               {| new_gmailMessageId := gmailMessageId;
                  new_tenantName := or_default (Categorize.tenantName c) "Unknown Tenant";
                  new_tenantEmail := Categorize.tenantEmail c;
                  new_tenantMessage := subject |}
       | _ => ret tt
       end) w.

(** [checkGmail]: [listing] is the answer of [users.messages.list]. *)
Definition checkGmail (cfg : SafetyConfig) (now : Timestamp)
           (listing : Result (list MailMessage)) : M unit :=
  try_catch
    (messages <- lift listing ;;
     for_each messages (poll_message cfg now))
    (fun error =>
       notify (SystemError error "Failed to check Gmail for new messages")).

(** *** The process as a whole

    A step is a whole poll tick, or the rest of the suspended
    [processMessage] call once the collaborators have answered: the
    [await]s inside a tick and inside the rest of a call are passed
    without anything running in between.  [Interleaving] below lets the
    other calls run at each of them. *)
Inductive Step :=
| Tick (now : Timestamp) (listing : Result (list MailMessage))
| Resume (now : Timestamp) (a : Answers).

Definition step (cfg : SafetyConfig) (s : Step) : M unit :=
  match s with
  | Tick now listing => checkGmail cfg now listing
  | Resume now a =>
      fun w =>
        match w_awaiting w with
        | [] => ret tt w
        | message :: rest =>
            try_catch
              (processMessage_resume cfg now a message)
              (fun _ => ret tt)
              (mkWorld (w_db w) (w_queue w) (w_responder w) rest)
        end
  end.

Definition run (cfg : SafetyConfig) (steps : list Step) : M unit :=
  for_each steps (step cfg).

(** The process after start-up with the database [d]. *)
Definition boot (d : MessageDatabase) (maxRetries : Number) : World :=
  mkWorld d (create maxRetries) (mkResponder false false) [].

End Pipeline.

(* ===================================================================== *)
(** ** The rest of the Store ([database.ts]: [getStats], [close]) *)
(* ===================================================================== *)

Module StoreReads.
Import Database.

Definition Status_eqb (a b : Status) : bool :=
  match a, b with
  | pending, pending | processing, processing | sent, sent | failed, failed => true
  | _, _ => false
  end.

(** [SUM(CASE WHEN status = ? THEN 1 ELSE 0 END)] over a list of rows. *)
Definition count_status (st : Status) (l : list Message) : nat :=
  List.length (filter (fun r => Status_eqb (status r) st) l).

(** The object returned by [getStats].  [COUNT( * )] is a number on every
    table; a [SUM] over no row is NULL, which the method passes on. *)
Record Stats := mkStats {
  stat_total : nat;
  stat_pending : option nat;
  stat_processing : option nat;
  stat_sent : option nat;
  stat_failed : option nat
}.

Definition getStats (d : MessageDatabase) : Stats :=
  match db d with
  | None => mkStats 0 (Some 0) (Some 0) (Some 0) (Some 0)
  | Some t =>
      match rows t with
      | [] => mkStats 0 None None None None
      | _ :: _ =>
          mkStats (List.length (rows t))
                  (Some (count_status pending (rows t)))
                  (Some (count_status processing (rows t)))
                  (Some (count_status sent (rows t)))
                  (Some (count_status failed (rows t)))
      end
  end.

(** [close]: the handle is dropped. *)
Definition close (d : MessageDatabase) : MessageDatabase :=
  match db d with
  | Some _ => mkDb None
  | None => d
  end.

End StoreReads.

(* ===================================================================== *)
(** ** The rest of the Queue ([message-queue.ts]: [getStatus], [clear]) *)
(* ===================================================================== *)

Module QueueReads.
Import Queue.

Record StatusEntry := mkEntry {
  entry_tenantName : string;
  entry_gmailMessageId : string;
  entry_retryCount : nat;
  entry_addedAt : nat
}.

Record QueueStatus := mkStatus {
  queueSize : nat;
  status_processing : bool;
  messages : list StatusEntry
}.

Definition getStatus (q : MessageQueue) : QueueStatus :=
  {| queueSize := List.length (queue q);
     status_processing := processing q;
     messages := map (fun m => mkEntry (tenantName m) (gmailMessageId m)
                                       (retryCount m) (addedAt m)) (queue q) |}.

(** [clear] *)
Definition clear (q : MessageQueue) : MessageQueue :=
  mkQueue [] false (maxRetries q).

End QueueReads.

(* ===================================================================== *)
(** ** Starting and stopping the Poller ([cron-gmail-poller.ts]) *)
(* ===================================================================== *)

Module Scheduler.

(** [class GmailPoller]: whether [auth] and [cronJob] are set, and
    [isRunning]. *)
Record GmailPoller := mkPoller {
  auth : bool;
  cronJob : bool;
  isRunning : bool
}.

(** The constructor; [credentials] tells whether [initializeAuth] found and
    parsed both files. *)
Definition create (credentials : bool) : GmailPoller :=
  mkPoller credentials false false.

(** What [start] sets in motion. *)
Inductive Action :=
| CheckNow     (** [this.checkGmail()] *)
| Schedule.    (** [cron.schedule(GMAIL_CHECK_INTERVAL, ...)] *)

Definition start (p : GmailPoller) : GmailPoller * list Action :=
  if negb (auth p) then (p, [])
  else if isRunning p then (p, [])
  else (mkPoller (auth p) true true, [CheckNow; Schedule]).

Definition stop (p : GmailPoller) : GmailPoller :=
  if cronJob p then mkPoller (auth p) false false else p.

Inductive Command := Start | Stop.

Definition command (p : GmailPoller) (c : Command) : GmailPoller * list Action :=
  match c with
  | Start => start p
  | Stop => (stop p, [])
  end.

Fixpoint commands (p : GmailPoller) (cs : list Command) : GmailPoller * list Action :=
  match cs with
  | [] => (p, [])
  | c :: rest =>
      let '(p1, a1) := command p c in
      let '(p2, a2) := commands p1 rest in
      (p2, a1 ++ a2)
  end.

End Scheduler.

(* ===================================================================== *)
(** ** The stand-alone poller ([gmail-poller.ts]) *)
(* ===================================================================== *)

Module Standalone.

Definition is_digit (c : ascii) : bool :=
  let n := nat_of_ascii c in ((48 <=? n) && (n <=? 57))%nat.

(** The greedy group [(\d+)] followed by a closing bracket: the longest run
    of digits, which must be non-empty and end at the bracket. *)
Fixpoint digits_then_bracket (acc s : string) : option string :=
  match s with
  | EmptyString => None
  | String c r =>
      if is_digit c then digits_then_bracket (acc ++ String c EmptyString)%string r
      else if truthy acc && Ascii.eqb c "]"%char then Some acc
      else None
  end.

(** [subject.match(/\[ID#(\d+)\]/)]: group 1 of the leftmost match. *)
Fixpoint match_inquiry_id (s : string) : option string :=
  match (if String.prefix "[ID#" s
         then digits_then_bracket EmptyString (drop 4 s)
         else None) with
  | Some g => Some g
  | None =>
      match s with
      | EmptyString => None
      | String _ r => match_inquiry_id r
      end
  end.

Record Categorized := mkCategorized {
  type : Categorize.EmailType;
  inquiryId : option string;
  name : option string
}.

Definition categorizeEmail (subject : string) : Categorized :=
  let inquiryId := match_inquiry_id subject in
  let '(ty, nm) :=
    if includes subject "Booking Inquiry from" then
      (Categorize.NEW_INQUIRY,
       option_map trim (match_group "Booking Inquiry from " "["%char true subject))
    else if includes subject "Property Owner Message" then
      (Categorize.NEW_INQUIRY,
       option_map trim (match_group "Property Owner Message from " "["%char true subject))
    else if includes subject "New reply from Furnished Finder user" then
      (Categorize.REPLY, None)
    else if includes subject "reply from" || includes subject "Re:" then
      (Categorize.REPLY, None)
    else (Categorize.UNKNOWN, None) in
  mkCategorized ty inquiryId nm.

(** The module state: the ids in [seenEmailIds], in insertion order, and
    the content of the file written by [saveSeenEmails]. *)
Record Seen := mkSeen {
  seenEmailIds : list string;
  saved : list string
}.

(** [seenEmailIds.has(id)] *)
Definition has (st : Seen) (id : string) : bool :=
  existsb (fun x => (x =? id)%string) (seenEmailIds st).

(** The [for] loop of [checkGmail]: the state, the ids logged as new and
    added to the set, and the error that [users.messages.get] threw, if
    any (the loop stops there, before the id is logged or added). *)
Fixpoint scan (st : Seen) (messages : list (string * Result string))
  : Seen * list string * option Error :=
  match messages with
  | [] => (st, [], None)
  | (id, details) :: rest =>
      if has st id then scan st rest
      else match details with
           | Throw e => (st, [], Some e)
           | Ok _ =>
               let '(st1, announced, err) :=
                 scan (mkSeen (seenEmailIds st ++ [id]) (saved st)) rest in
               (st1, id :: announced, err)
           end
  end.

(** [checkGmail]: [listing] is the answer of [users.messages.list], each id
    with the answer of [users.messages.get] (its subject).  The file is
    rewritten when the loop ends normally after at least one new id. *)
Definition checkGmail (st : Seen) (listing : Result (list (string * Result string)))
  : Seen * list string :=
  match listing with
  | Throw _ => (st, [])
  | Ok messages =>
      let '(st1, announced, err) := scan st messages in
      match err with
      | Some _ => (st1, announced)
      | None =>
          match announced with
          | [] => (st1, [])
          | _ :: _ => (mkSeen (seenEmailIds st1) (seenEmailIds st1), announced)
          end
      end
  end.

(** [loadSeenEmails] at start-up: the set is read back from the file. *)
Definition loadSeenEmails (st : Seen) : Seen := mkSeen (saved st) (saved st).

End Standalone.

(* ===================================================================== *)
(** ** The server's health report and the LLM client's health URL *)
(* ===================================================================== *)

Module Server.
Import Queue.

(** The [queue] field of [GET /health]. *)
Definition health_queue (q : MessageQueue) : string :=
  if Queue.size q =? 0 then "idle" else "processing".

(** [s.replace(pattern, replacement)] with a string pattern and a
    replacement without [$]: the first occurrence is replaced. *)
Fixpoint replace (s pattern replacement : string) : string :=
  if String.prefix pattern s
  then (replacement ++ drop (String.length pattern) s)%string
  else match s with
       | EmptyString => EmptyString
       | String c r => String c (replace r pattern replacement)
       end.

(** The URL that [healthCheck] fetches. *)
Definition healthUrl (apiUrl : string) : string :=
  replace apiUrl "/api/query" "/health".

End Server.

(* ===================================================================== *)
(** ** The process, one [await] at a time *)
(* ===================================================================== *)

(** [Pipeline.step] lets a poll tick, and the rest of a [processMessage]
    call, run without anything in between.  The code suspends more often:
    [checkGmail] at [users.messages.list], at [users.messages.get] (after
    the two tests of the dedup barrier and before the insert) and at
    [notifySystemError]; [processMessage] at each of its [await]s, among
    them the notifier calls between the status write and the signal to
    the queue.  Here every such [await] is a point where other calls may
    run.  An awaited operation of a collaborator is taken to act at the
    moment its answer arrives. *)
Module Interleaving.
Import Database Queue Config Pipeline.

(** The [await] at which a [processMessage] call is suspended, with the
    locals that the rest of the call reads. *)
Inductive Stage :=
| AtExtract            (** [await playwrightResponder.extractLatestMessage()] *)
| AtMismatch (extractedData : Extracted)
                       (** [await errorNotifier.notifyMessageMismatch(...)] *)
| AtGenerate (extractedData : Extracted)
                       (** [await llmClient.generateResponse(...)] *)
| AtSend (extractedData : Extracted) (llmResponse : string)
                       (** [await playwrightResponder.sendResponse(llmResponse)] *)
| AtCloseSent (extractedData : Extracted) (llmResponse : string)
                       (** [await playwrightResponder.closeBrowser()], auto-send branch *)
| AtSuccess (extractedData : Extracted) (llmResponse : string)
                       (** [await errorNotifier.sendSuccessNotification(...)] *)
| AtApproval (extractedData : Extracted) (llmResponse : string)
                       (** [await telegramNotifier.sendResponseForApproval(...)] *)
| AtClosePending (extractedData : Extracted) (llmResponse : string)
                       (** [await playwrightResponder.closeBrowser()], approval branch *)
| AtCatchClose (error : Error)
                       (** [await playwrightResponder.closeBrowser().catch(...)] *)
| AtCatchNotify (error : Error).
                       (** [await errorNotifier.notify...Error(...)] in [catch] *)

(** The [await] at which a [checkGmail] call is suspended: the listing;
    the details of [m], with the messages that the loop has still to
    visit; the notification of the [catch] clause. *)
Inductive PollStage :=
| AtList
| AtGet (m : MailMessage) (rest : list MailMessage)
| AtSystemError (error : Error).

(** From [db.updateResponse(gmailMessageId, extractedData.tenantMessage)]
    to the next [await]. *)
Definition to_generate (message : QueuedMessage) (extractedData : Extracted)
  : M (option Stage) :=
  db_updateResponse (gmailMessageId message) (ex_tenantMessage extractedData) ;;
  ret (Some (AtGenerate extractedData)).

(** The [try] block of [processMessage] from the [await] of [stage] to
    the next one ([Some]) or to its end ([None]). *)
Definition in_try (cfg : SafetyConfig) (now : Timestamp) (a : Answers)
           (message : QueuedMessage) (stage : Stage) : M (option Stage) :=
  let gmailMessageId := gmailMessageId message in
  let tenantName := tenantName message in
  let tenantEmail := tenantEmail message in
  match stage with
  | AtExtract =>
      extractedData <- extractLatestMessage a ;;
      let nameMatch :=
        includes (toLowerCase (ex_tenantName extractedData)) (toLowerCase tenantName)
        || includes (toLowerCase tenantName) (toLowerCase (ex_tenantName extractedData)) in
      if negb nameMatch
      then ret (Some (AtMismatch extractedData))
      else to_generate message extractedData
  | AtMismatch extractedData =>
      notify (MessageMismatch gmailMessageId tenantName) ;;
      to_generate message extractedData
  | AtGenerate extractedData =>
      llmResponse <- generateResponse a (ex_tenantName extractedData)
                       (ex_tenantMessage extractedData) tenantEmail ;;
      db_updateResponse gmailMessageId llmResponse ;;
      if AUTO_SEND_ENABLED cfg
      then ret (Some (AtSend extractedData llmResponse))
      else ret (Some (AtApproval extractedData llmResponse))
  | AtSend extractedData llmResponse =>
      sendResponse a llmResponse ;;
      ret (Some (AtCloseSent extractedData llmResponse))
  | AtCloseSent extractedData llmResponse =>
      closeBrowser (closing a) ;;
      db_updateStatus now gmailMessageId sent None ;;
      ret (Some (AtSuccess extractedData llmResponse))
  | AtSuccess extractedData llmResponse =>
      notify (Success (ex_tenantName extractedData) llmResponse) ;;
      mq_messageProcessed now gmailMessageId ;;
      ret None
  | AtApproval extractedData llmResponse =>
      sendResponseForApproval (ex_tenantName extractedData)
        (ex_tenantMessage extractedData) llmResponse
        (ex_conversationUrl extractedData) ;;
      ret (Some (AtClosePending extractedData llmResponse))
  | AtClosePending extractedData llmResponse =>
      closeBrowser (closing a) ;;
      db_updateStatus now gmailMessageId pending None ;;
      mq_messageProcessed now gmailMessageId ;;
      ret None
  | AtCatchClose _ => ret None
  | AtCatchNotify _ => ret None
  end.

(** The [catch] clause, likewise; at its end the call rejects, which the
    listener of [initialize] catches and logs. *)
Definition in_catch (now : Timestamp) (a : Answers) (message : QueuedMessage)
           (stage : Stage) : M (option Stage) :=
  match stage with
  | AtCatchClose error =>
      try_catch (closeBrowser (closing_in_catch a)) (fun _ => ret tt) ;;
      db_updateStatus now (gmailMessageId message) failed (Some (Js.message error)) ;;
      ret (Some (AtCatchNotify error))
  | AtCatchNotify error =>
      notify (classify error message) ;;
      mq_messageFailed now (gmailMessageId message) error ;;
      log (FxRethrow error) ;;
      ret None
  | _ => ret None
  end.

(** A suspended [processMessage] call gets the answer it waits for and
    runs to its next [await]; what the [try] block throws enters the
    [catch] clause, which starts by awaiting [closeBrowser]. *)
Definition resume_call (cfg : SafetyConfig) (now : Timestamp) (a : Answers)
           (message : QueuedMessage) (stage : Stage) : M (option Stage) :=
  match stage with
  | AtCatchClose _ => in_catch now a message stage
  | AtCatchNotify _ => in_catch now a message stage
  | _ =>
      try_catch (in_try cfg now a message stage)
                (fun error => ret (Some (AtCatchClose error)))
  end.

(** The [for] loop of [checkGmail] from the top of an iteration to the
    next [await]: the two tests of the dedup barrier. *)
Fixpoint next_new (messages : list MailMessage) : M (option PollStage) :=
  match messages with
  | [] => ret None
  | m :: rest =>
      fun w =>
        if messageExists (w_db w) (mail_id m) then next_new rest w
        else if isInQueue (w_queue w) (mail_id m) then next_new rest w
        else ret (Some (AtGet m rest)) w
  end.

(** The loop body after [await gmail.users.messages.get(...)], whose
    answer is [mail_headers m]; [ret tt] stands for [continue]. *)
Definition after_get (cfg : SafetyConfig) (now : Timestamp) (m : MailMessage)
  : M unit :=
  let gmailMessageId := mail_id m in
  headers <- lift (mail_headers m) ;;
  let subject := or_default (header "Subject" headers) "(no subject)" in
  let from := or_default (header "From" headers) "(unknown sender)" in
  let c := Categorize.categorizeEmail subject from in
  match Categorize.type c with
  | Categorize.NEW_INQUIRY =>
      if TEST_MODE cfg
         && negb (includes (or_default (Categorize.tenantName c) "Unknown")
                           (TEST_SENDER_NAME cfg))
      then ret tt
      else
        db_insertMessage now
          {| id := None;
             gmail_message_id := gmailMessageId;
             tenant_name := or_default (Categorize.tenantName c) "Unknown Tenant";
             tenant_email := Categorize.tenantEmail c;
             tenant_message := subject;
             our_response := None;
             status := pending;
             created_at := None;
             processed_at := None;
             error := None;
             ff_conversation_url := None |} ;;
        mq_enqueue now
          {| new_gmailMessageId := gmailMessageId;
             new_tenantName := or_default (Categorize.tenantName c) "Unknown Tenant";
             new_tenantEmail := Categorize.tenantEmail c;
             new_tenantMessage := subject |}
  | _ => ret tt
  end.

(** A suspended [checkGmail] call gets the answer it waits for and runs
    to its next [await]; [listing] is the answer of
    [users.messages.list]. *)
Definition resume_poll (cfg : SafetyConfig) (now : Timestamp)
           (listing : Result (list MailMessage)) (stage : PollStage)
  : M (option PollStage) :=
  match stage with
  | AtList =>
      try_catch (messages <- lift listing ;; next_new messages)
                (fun error => ret (Some (AtSystemError error)))
  | AtGet m rest =>
      try_catch (after_get cfg now m ;; next_new rest)
                (fun error => ret (Some (AtSystemError error)))
  | AtSystemError error =>
      notify (SystemError error "Failed to check Gmail for new messages") ;;
      ret None
  end.

(** A suspended call goes on, answer after answer, with nothing else in
    between, for at most [fuel] answers. *)
Fixpoint uninterrupted (fuel : nat) (cfg : SafetyConfig) (now : Timestamp) (a : Answers)
         (message : QueuedMessage) (stage : Stage) : M unit :=
  match fuel with
  | 0 => ret tt
  | S fuel =>
      s <- resume_call cfg now a message stage ;;
      match s with
      | Some stage' => uninterrupted fuel cfg now a message stage'
      | None => ret tt
      end
  end.

(** A suspended [checkGmail] call goes on likewise. *)
Fixpoint uninterrupted_poll (fuel : nat) (cfg : SafetyConfig) (now : Timestamp)
         (listing : Result (list MailMessage)) (stage : PollStage) : M unit :=
  match fuel with
  | 0 => ret tt
  | S fuel =>
      s <- resume_poll cfg now listing stage ;;
      match s with
      | Some stage' => uninterrupted_poll fuel cfg now listing stage'
      | None => ret tt
      end
  end.

Definition then_poll (fuel : nat) (cfg : SafetyConfig) (now : Timestamp)
           (listing : Result (list MailMessage)) (s : option PollStage) : M unit :=
  match s with
  | Some stage => uninterrupted_poll fuel cfg now listing stage
  | None => ret tt
  end.

(** The process between two moves: the singletons, the suspended
    [processMessage] calls and the suspended [checkGmail] calls. *)
Record Process := mkProcess {
  p_world : World;
  p_calls : list (QueuedMessage * Stage);
  p_polls : list PollStage
}.

(** What the event loop does next: [initialize] of the database, which
    its constructor started, completes with the table [t] loaded from
    disk; the schedule (or [start]) calls [checkGmail], which suspends at
    the listing; the [i]-th suspended [checkGmail] call gets its answer;
    the [i]-th suspended [processMessage] call gets its answer. *)
Inductive Move :=
| Opened (t : SqlJsDatabase)
| Fire
| Advance (i : nat) (now : Timestamp) (listing : Result (list MailMessage))
| Proceed (i : nat) (now : Timestamp) (a : Answers).

(** The [i]-th entry replaced by its successor, or dropped. *)
Definition put {A} (i : nat) (x : option A) (l : list A) : list A :=
  firstn i l ++ match x with Some y => [y] | None => [] end ++ skipn (S i) l.

Definition next {A} (r : Result (option A)) : option A :=
  match r with
  | Ok x => x
  | Throw _ => None
  end.

(** After a move, the calls that the [processMessage] listener started
    during it are suspended in [extractLatestMessage]. *)
Definition settle (calls : list (QueuedMessage * Stage)) (polls : list PollStage)
           (w : World) : Process :=
  mkProcess (mkWorld (w_db w) (w_queue w) (w_responder w) [])
            (calls ++ map (fun message => (message, AtExtract)) (w_awaiting w))
            polls.

Definition move (cfg : SafetyConfig) (mv : Move) (p : Process)
  : Process * list Effect :=
  match mv with
  | Opened t =>
      match db (w_db (p_world p)) with
      | Some _ => (p, [])
      | None =>
          (mkProcess (mkWorld (mkDb (Some t)) (w_queue (p_world p))
                              (w_responder (p_world p)) (w_awaiting (p_world p)))
                     (p_calls p) (p_polls p),
           [])
      end
  | Fire => (mkProcess (p_world p) (p_calls p) (p_polls p ++ [AtList]), [])
  | Advance i now listing =>
      match nth_error (p_polls p) i with
      | None => (p, [])
      | Some stage =>
          let '(w, fx, r) := resume_poll cfg now listing stage (p_world p) in
          (settle (p_calls p) (put i (next r) (p_polls p)) w, fx)
      end
  | Proceed i now a =>
      match nth_error (p_calls p) i with
      | None => (p, [])
      | Some (message, stage) =>
          let '(w, fx, r) := resume_call cfg now a message stage (p_world p) in
          (settle (put i (option_map (pair message) (next r)) (p_calls p))
                  (p_polls p) w,
           fx)
      end
  end.

Fixpoint play (cfg : SafetyConfig) (moves : list Move) (p : Process)
  : Process * list Effect :=
  match moves with
  | [] => (p, [])
  | mv :: rest =>
      let '(p1, fx1) := move cfg mv p in
      let '(p2, fx2) := play cfg rest p1 in
      (p2, fx1 ++ fx2)
  end.

(** The process after start-up with the database [d]. *)
Definition initial (d : MessageDatabase) (maxRetries : Number) : Process :=
  mkProcess (boot d maxRetries) [] [].

(** The status that the records of a call's item have while the call is
    suspended at [stage]. *)
Definition status_at (stage : Stage) : Status :=
  match stage with
  | AtSuccess _ _ => sent
  | AtCatchNotify _ => failed
  | _ => Database.processing
  end.

End Interleaving.

(* ===================================================================== *)
(** ** Properties of the classification *)
(* ===================================================================== *)

Module CategorizeFacts.
Import Categorize.

Example categorize_booking :
  categorizeEmail "Booking Inquiry from Nancy E [ID#123]" "Furnished Finder <no-reply@ff.com>"
  = mkCategorized NEW_INQUIRY (Some "Nancy E") (Some "no-reply@ff.com").
Proof. reflexivity. Qed.

Example categorize_owner_no_bracket :
  categorizeEmail "Property Owner Message from Bob  " "ff.com"
  = mkCategorized NEW_INQUIRY (Some "Bob") None.
Proof. reflexivity. Qed.

Example categorize_reply :
  type (categorizeEmail "New reply from Nancy E" "x") = REPLY.
Proof. reflexivity. Qed.

Lemma type_of_inquiry subject from :
  has_inquiry_pattern subject = true ->
  type (categorizeEmail subject from) = NEW_INQUIRY.
Proof.
  unfold has_inquiry_pattern, categorizeEmail. intros H.
  destruct (includes subject "Booking Inquiry from"); [reflexivity|].
  simpl in H. rewrite H. reflexivity.
Qed.

Lemma type_without_inquiry subject from :
  has_inquiry_pattern subject = false ->
  type (categorizeEmail subject from)
  = if has_reply_marker subject then REPLY else UNKNOWN.
Proof.
  unfold has_inquiry_pattern, has_reply_marker, categorizeEmail. intros H.
  apply orb_false_elim in H. destruct H as [H1 H2]. rewrite H1, H2.
  destruct (includes subject "New reply from" || includes subject "reply from"
            || includes subject "Re:"); reflexivity.
Qed.

(** C10. A subject that contains "Booking Inquiry from" or "Property Owner
    Message" is classified NEW_INQUIRY whatever reply markers it also
    contains (the inquiry patterns are tested first); the type is REPLY
    exactly when no inquiry pattern occurs and one of the markers
    "New reply from", "reply from", "Re:" does. *)
Theorem C10_inquiry_patterns_win (subject from : string) :
  (includes subject "Booking Inquiry from" = true
   \/ includes subject "Property Owner Message" = true ->
   type (categorizeEmail subject from) = NEW_INQUIRY)
  /\ (type (categorizeEmail subject from) = REPLY <->
      includes subject "Booking Inquiry from" = false
      /\ includes subject "Property Owner Message" = false
      /\ (includes subject "New reply from" = true
          \/ includes subject "reply from" = true
          \/ includes subject "Re:" = true)).
Proof.
  split.
  - intros H. apply type_of_inquiry. unfold has_inquiry_pattern.
    destruct H as [H|H]; rewrite H; auto using orb_true_r.
  - destruct (has_inquiry_pattern subject) eqn:Hp.
    + rewrite (type_of_inquiry _ from Hp). split; [discriminate|].
      intros (H1 & H2 & _). unfold has_inquiry_pattern in Hp.
      rewrite H1, H2 in Hp. discriminate.
    + rewrite (type_without_inquiry _ from Hp).
      unfold has_inquiry_pattern in Hp. apply orb_false_elim in Hp.
      destruct Hp as [H1 H2]. unfold has_reply_marker.
      destruct (includes subject "New reply from") eqn:E1;
        destruct (includes subject "reply from") eqn:E2;
        destruct (includes subject "Re:") eqn:E3; simpl;
        split; try discriminate; auto;
        intros (_ & _ & [H|[H|H]]); discriminate.
Qed.

Lemma C10_witness :
  type (categorizeEmail "Re: Booking Inquiry from Nancy E [ID#7]"
                        "Nancy <reply from@x.org>") = NEW_INQUIRY.
Proof.
  apply (proj1 (C10_inquiry_patterns_win
                  "Re: Booking Inquiry from Nancy E [ID#7]"
                  "Nancy <reply from@x.org>")).
  left. reflexivity.
Defined.

End CategorizeFacts.

(* ===================================================================== *)
(** ** Properties of the Store *)
(* ===================================================================== *)

Module DatabaseFacts.
Import Database.

(** Number of records carrying a given [gmail_message_id]. *)
Definition copies (d : MessageDatabase) (g : string) : nat :=
  List.length (rows_with d g).

Lemma existsb_filter (A : Type) (p : A -> bool) (l : list A) :
  existsb p l = (0 <? List.length (filter p l)).
Proof.
  induction l as [|x l IH]; simpl; [reflexivity|].
  destruct (p x); simpl; [reflexivity|exact IH].
Qed.

Lemma messageExists_copies d g :
  messageExists d g = (0 <? copies d g).
Proof.
  unfold messageExists, copies, rows_with, all_rows.
  destruct (db d); reflexivity.
Qed.

Lemma has_gmail_id_true g r :
  has_gmail_id g r = true <-> gmail_message_id r = g.
Proof. unfold has_gmail_id. apply String.eqb_eq. Qed.

Lemma insertMessage_duplicate d now m :
  messageExists d (gmail_message_id m) = true ->
  insertMessage d now m
  = (d, Throw (mkError "UNIQUE constraint failed: messages.gmail_message_id")).
Proof.
  unfold messageExists, insertMessage. destruct (db d) as [t|]; [|discriminate].
  rewrite <- existsb_filter. intros ->. reflexivity.
Qed.

Lemma insertMessage_closed d now m :
  db d = None ->
  insertMessage d now m = (d, Throw (mkError "Database not initialized")).
Proof. unfold insertMessage. intros ->. reflexivity. Qed.

(** The row written by a successful INSERT. *)
Definition inserted_row (rowid : nat) (now : Timestamp) (m : Message) : Message :=
  {| id := Some rowid;
     gmail_message_id := gmail_message_id m;
     tenant_name := tenant_name m;
     tenant_email := or_null (tenant_email m);
     tenant_message := tenant_message m;
     our_response := None;
     status := status m;
     created_at := Some now;
     processed_at := None;
     error := None;
     ff_conversation_url := or_null (ff_conversation_url m) |}.

Lemma insertMessage_new d t now m :
  db d = Some t ->
  messageExists d (gmail_message_id m) = false ->
  insertMessage d now m
  = (mkDb (Some (mkTable (rows t ++ [inserted_row (S (last_rowid t)) now m])
                         (S (last_rowid t)))),
     Ok (S (last_rowid t))).
Proof.
  unfold messageExists, insertMessage. intros ->.
  rewrite <- existsb_filter. intros ->. reflexivity.
Qed.

Lemma insertMessage_open d now m :
  db d <> None -> db (fst (insertMessage d now m)) <> None.
Proof.
  intros H. destruct (db d) as [t|] eqn:E; [|congruence].
  destruct (messageExists d (gmail_message_id m)) eqn:Ex.
  - rewrite insertMessage_duplicate by assumption. simpl. congruence.
  - rewrite (@insertMessage_new d t now m E Ex). simpl. discriminate.
Qed.

(** What one [insertMessage] call does to the number of copies of an id. *)
Lemma copies_insertMessage d now m g :
  copies (fst (insertMessage d now m)) g
  = if existsb (has_gmail_id g) (all_rows d) then copies d g
    else match db d with
         | None => 0
         | Some _ => if (gmail_message_id m =? g)%string then 1 else 0
         end.
Proof.
  destruct (db d) as [t|] eqn:E.
  - destruct (messageExists d (gmail_message_id m)) eqn:Ex.
    + rewrite insertMessage_duplicate by assumption. simpl.
      destruct (existsb (has_gmail_id g) (all_rows d)) eqn:Eg; [reflexivity|].
      rewrite existsb_filter in Eg. fold (rows_with d g) in Eg. fold (copies d g) in Eg.
      apply Nat.ltb_ge in Eg.
      destruct (String.eqb_spec (gmail_message_id m) g) as [Heq|Hne].
      * rewrite Heq, messageExists_copies in Ex. apply Nat.ltb_lt in Ex. lia.
      * lia.
    + rewrite (@insertMessage_new d t now m E Ex). simpl.
      unfold copies, rows_with, all_rows. simpl. rewrite E.
      rewrite filter_app, length_app. simpl.
      unfold has_gmail_id at 2. simpl.
      rewrite existsb_filter.
      destruct (gmail_message_id m =? g)%string eqn:Eg; simpl.
      * apply String.eqb_eq in Eg. subst g.
        rewrite messageExists_copies in Ex. unfold copies, rows_with, all_rows in Ex.
        rewrite E in Ex. rewrite Ex. apply Nat.ltb_ge in Ex. lia.
      * destruct (0 <? List.length (filter (has_gmail_id g) (rows t))) eqn:El; [lia|].
        apply Nat.ltb_ge in El. lia.
  - rewrite insertMessage_closed by assumption. simpl.
    unfold copies, rows_with, all_rows. rewrite E. reflexivity.
Qed.

(** A record that exists is left as it is by an [insertMessage] call. *)
Lemma rows_with_insertMessage d now m g :
  messageExists d g = true ->
  rows_with (fst (insertMessage d now m)) g = rows_with d g.
Proof.
  intros Hg. destruct (db d) as [t|] eqn:E.
  - destruct (messageExists d (gmail_message_id m)) eqn:Ex.
    + rewrite insertMessage_duplicate by assumption. reflexivity.
    + rewrite (@insertMessage_new d t now m E Ex). unfold rows_with, all_rows. simpl.
      rewrite E, filter_app. simpl. unfold has_gmail_id at 2. simpl.
      destruct (String.eqb_spec (gmail_message_id m) g) as [Heq|Hne].
      * congruence.
      * apply app_nil_r.
  - rewrite insertMessage_closed by assumption. reflexivity.
Qed.

Lemma messageExists_insertMessage d now m g :
  messageExists d g = true ->
  messageExists (fst (insertMessage d now m)) g = true.
Proof.
  intros H. rewrite messageExists_copies in *. unfold copies in *.
  rewrite rows_with_insertMessage; [assumption|].
  rewrite messageExists_copies. exact H.
Qed.

Lemma insertAll_cons d now m cs :
  fst (insertAll d ((now, m) :: cs)) = fst (insertAll (fst (insertMessage d now m)) cs).
Proof.
  simpl. destruct (insertMessage d now m) as [d1 r]. simpl.
  destruct (insertAll d1 cs) as [d2 rs]. reflexivity.
Qed.

Lemma insertAll_unique d cs :
  (forall g, copies d g <= 1) ->
  forall g, copies (fst (insertAll d cs)) g <= 1.
Proof.
  revert d. induction cs as [|[now m] cs IH]; intros d H g; [apply H|].
  rewrite insertAll_cons. apply IH. intros g'.
  rewrite copies_insertMessage.
  destruct (existsb _ _); [apply H|].
  destruct (db d); [destruct (_ =? _)%string|]; lia.
Qed.

Lemma insertAll_keeps d cs g :
  messageExists d g = true ->
  rows_with (fst (insertAll d cs)) g = rows_with d g.
Proof.
  revert d. induction cs as [|[now m] cs IH]; intros d H; [reflexivity|].
  rewrite insertAll_cons, IH by (apply messageExists_insertMessage; exact H).
  apply rows_with_insertMessage. exact H.
Qed.

Lemma insertAll_present d cs c :
  db d <> None -> In c cs ->
  messageExists (fst (insertAll d cs)) (gmail_message_id (snd c)) = true.
Proof.
  revert d. induction cs as [|[now m] cs IH]; intros d Hd Hin; [destruct Hin|].
  rewrite insertAll_cons. destruct Hin as [<-|Hin].
  - simpl. set (d1 := fst (insertMessage d now m)).
    assert (H1 : messageExists d1 (gmail_message_id m) = true).
    { subst d1. rewrite messageExists_copies, copies_insertMessage.
      rewrite existsb_filter. fold (rows_with d (gmail_message_id m)).
      fold (copies d (gmail_message_id m)).
      destruct (0 <? copies d (gmail_message_id m)) eqn:E; [exact E|].
      destruct (db d); [|congruence]. rewrite String.eqb_refl. reflexivity. }
    rewrite messageExists_copies. unfold copies.
    rewrite insertAll_keeps by exact H1.
    rewrite messageExists_copies in H1. exact H1.
  - apply IH; [apply insertMessage_open, Hd|exact Hin].
Qed.

Example insert_twice :
  let m := mkMessage None "m1" "Nancy E" None "Booking Inquiry from Nancy E"
                     None pending None None None None in
  map gmail_message_id (all_rows (fst (insertAll fresh [(1, m); (2, m)]))) = ["m1"]
  /\ snd (insertAll fresh [(1, m); (2, m)])
     = [Ok 1; Throw (mkError "UNIQUE constraint failed: messages.gmail_message_id")].
Proof. split; reflexivity. Qed.

(** C8. Whatever sequence of [insertMessage] calls runs on a Store in
    which no [gmail_message_id] occurs twice, none occurs twice
    afterwards; on an open database every id that was inserted has exactly
    one record; an insert whose id already has a record throws (the UNIQUE
    conflict) and leaves the Store as it was; and the records that
    existed before the calls are the same after them. *)
Theorem C8_one_record_per_external_id
  (d : MessageDatabase) (cs : list (Timestamp * Message))
  (Hunique : forall g, copies d g <= 1) :
  let d' := fst (insertAll d cs) in
  (forall g, copies d' g <= 1)
  /\ (db d <> None ->
      forall c, In c cs -> copies d' (gmail_message_id (snd c)) = 1)
  /\ (forall now m, messageExists d' (gmail_message_id m) = true ->
      exists e, insertMessage d' now m = (d', Throw e))
  /\ (forall g, messageExists d g = true -> rows_with d' g = rows_with d g).
Proof.
  intros d'. split; [|split; [|split]].
  - apply insertAll_unique, Hunique.
  - intros Hd c Hc.
    pose proof (insertAll_unique d cs Hunique (gmail_message_id (snd c))) as Hle.
    pose proof (insertAll_present d cs c Hd Hc) as Hex.
    rewrite messageExists_copies in Hex. apply Nat.ltb_lt in Hex.
    subst d'. lia.
  - intros now m Hex. eexists. apply insertMessage_duplicate, Hex.
  - intros g Hg. apply insertAll_keeps, Hg.
Qed.

Lemma C8_witness :
  let m1 := mkMessage None "m1" "Nancy E" None "Booking Inquiry from Nancy E"
                      None pending None None None None in
  let m2 := mkMessage None "m2" "Bob" (Some "bob@x.org") "Booking Inquiry from Bob"
                      None pending None None None None in
  let d' := fst (insertAll fresh [(1, m1); (2, m1); (3, m2)]) in
  (forall g, copies d' g <= 1)
  /\ (db fresh <> None ->
      forall c, In c [(1, m1); (2, m1); (3, m2)] ->
                copies d' (gmail_message_id (snd c)) = 1)
  /\ (forall now m, messageExists d' (gmail_message_id m) = true ->
      exists e, insertMessage d' now m = (d', Throw e))
  /\ (forall g, messageExists fresh g = true -> rows_with d' g = rows_with fresh g).
Proof.
  intros m1 m2.
  apply (C8_one_record_per_external_id fresh [(1, m1); (2, m1); (3, m2)]).
  intros g. unfold copies. simpl. lia.
Defined.

End DatabaseFacts.

(* ===================================================================== *)
(** ** Properties of the Queue *)
(* ===================================================================== *)

Module QueueFacts.
Import Queue.

Definition ids (l : list QueuedMessage) : list string := map gmailMessageId l.

Lemma has_id_true g m : has_id g m = true <-> gmailMessageId m = g.
Proof. unfold has_id. apply String.eqb_eq. Qed.

Lemma has_id_false g m : has_id g m = false <-> gmailMessageId m <> g.
Proof. unfold has_id. apply String.eqb_neq. Qed.

Lemma has_id_self m : has_id (gmailMessageId m) m = true.
Proof. apply has_id_true. reflexivity. Qed.

(** [findIndex] returns the position of the first item that satisfies the
    predicate; [splice1] at that position removes exactly that item. *)
Lemma findIndex_first p l1 x l2 :
  (forall y, In y l1 -> p y = false) -> p x = true ->
  findIndex p (l1 ++ x :: l2) = Some (List.length l1)
  /\ nth_error (l1 ++ x :: l2) (List.length l1) = Some x
  /\ splice1 (List.length l1) (l1 ++ x :: l2) = l1 ++ l2.
Proof.
  induction l1 as [|a l1 IH]; intros Hl Hx; simpl.
  - rewrite Hx. auto.
  - rewrite (Hl a (or_introl eq_refl)).
    destruct IH as (-> & -> & ->); auto. intros y Hy. apply Hl. right. exact Hy.
Qed.

Lemma findIndex_split p l i :
  findIndex p l = Some i ->
  exists l1 x l2, l = l1 ++ x :: l2 /\ List.length l1 = i
                  /\ (forall y, In y l1 -> p y = false) /\ p x = true.
Proof.
  revert i. induction l as [|a l IH]; intros i H; simpl in H; [discriminate|].
  destruct (p a) eqn:Ea.
  - injection H as <-. exists [], a, l. simpl. repeat split; auto. intros y [].
  - destruct (findIndex p l) as [j|]; [|discriminate]. injection H as <-.
    destruct (IH j eq_refl) as (l1 & x & l2 & -> & <- & Hl & Hx).
    exists (a :: l1), x, l2. simpl. repeat split; auto.
    intros y [<-|Hy]; auto.
Qed.

Lemma findIndex_None p l :
  findIndex p l = None <-> existsb p l = false.
Proof.
  induction l as [|a l IH]; simpl; [tauto|].
  destruct (p a); simpl; [split; discriminate|].
  destruct (findIndex p l); [split; [discriminate|]|tauto].
  intros H. apply IH in H. discriminate.
Qed.

(** *** The three methods, by cases *)

Lemma messageProcessed_absent q g :
  isInQueue q g = false -> messageProcessed q g = (q, []).
Proof.
  unfold isInQueue, messageProcessed. intros H.
  apply findIndex_None in H. rewrite H. reflexivity.
Qed.

Lemma messageFailed_absent q g e :
  isInQueue q g = false -> messageFailed q g e = (q, []).
Proof.
  unfold isInQueue, messageFailed. intros H.
  apply findIndex_None in H. rewrite H. reflexivity.
Qed.

Lemma messageProcessed_at q g l1 x l2 :
  queue q = l1 ++ x :: l2 ->
  (forall y, In y l1 -> has_id g y = false) -> has_id g x = true ->
  messageProcessed q g
  = (fst (processNext (mkQueue (l1 ++ l2) (processing q) (maxRetries q))),
     EvMessageCompleted x
     :: snd (processNext (mkQueue (l1 ++ l2) (processing q) (maxRetries q)))).
Proof.
  intros Hq Hl Hx. unfold messageProcessed. rewrite Hq.
  destruct (findIndex_first (has_id g) l1 x l2 Hl Hx) as (-> & -> & ->).
  destruct (processNext _). reflexivity.
Qed.

Lemma messageFailed_at q g e l1 x l2 :
  queue q = l1 ++ x :: l2 ->
  (forall y, In y l1 -> has_id g y = false) -> has_id g x = true ->
  messageFailed q g e
  = if at_least (S (retryCount x)) (maxRetries q) then
      (fst (processNext (mkQueue (l1 ++ l2) (processing q) (maxRetries q))),
       EvMessageFailed (bump x) e
       :: snd (processNext (mkQueue (l1 ++ l2) (processing q) (maxRetries q))))
    else processNext (mkQueue ((l1 ++ l2) ++ [bump x]) (processing q) (maxRetries q)).
Proof.
  intros Hq Hl Hx. unfold messageFailed. rewrite Hq.
  destruct (findIndex_first (has_id g) l1 x l2 Hl Hx) as (-> & -> & ->).
  simpl retryCount. destruct (at_least (S (retryCount x)) (maxRetries q)); [|reflexivity].
  destruct (processNext _). reflexivity.
Qed.

Lemma isInQueue_split q g :
  isInQueue q g = true ->
  exists l1 x l2, queue q = l1 ++ x :: l2
                  /\ (forall y, In y l1 -> has_id g y = false) /\ has_id g x = true.
Proof.
  unfold isInQueue. intros H.
  destruct (findIndex (has_id g) (queue q)) as [i|] eqn:E.
  - destruct (findIndex_split _ _ _ E) as (l1 & x & l2 & Hq & _ & Hl & Hx). eauto 6.
  - apply findIndex_None in E. congruence.
Qed.

Lemma processNext_queue q : queue (fst (processNext q)) = queue q.
Proof. unfold processNext. destruct (queue q); reflexivity. Qed.

Lemma processNext_maxRetries q : maxRetries (fst (processNext q)) = maxRetries q.
Proof. unfold processNext. destruct (queue q); reflexivity. Qed.

Lemma processNext_events q :
  snd (processNext q)
  = match queue q with [] => [] | m :: _ => [EvProcessMessage m] end.
Proof. unfold processNext. destruct (queue q); reflexivity. Qed.

Lemma enqueue_queue q now m :
  queue (fst (enqueue q now m))
  = queue q ++ [mkQueued (new_gmailMessageId m) (new_tenantName m)
                         (new_tenantEmail m) (new_tenantMessage m) 0 now].
Proof.
  unfold enqueue. simpl. destruct (processing q); simpl; [reflexivity|].
  match goal with |- context [processNext ?x] =>
    pose proof (processNext_queue x) as H; destruct (processNext x) end.
  exact H.
Qed.

Lemma call_maxRetries q c : maxRetries (fst (call q c)) = maxRetries q.
Proof.
  destruct c as [now m|g|g e]; simpl.
  - unfold enqueue. simpl. destruct (processing q); simpl; [reflexivity|].
    match goal with |- context [processNext ?x] =>
      pose proof (processNext_maxRetries x) as H; destruct (processNext x) end.
    exact H.
  - destruct (isInQueue q g) eqn:E.
    + destruct (isInQueue_split _ _ E) as (l1 & x & l2 & Hq & Hl & Hx).
      rewrite (messageProcessed_at _ _ _ _ _ Hq Hl Hx). simpl.
      rewrite processNext_maxRetries. reflexivity.
    + rewrite messageProcessed_absent by exact E. reflexivity.
  - destruct (isInQueue q g) eqn:E.
    + destruct (isInQueue_split _ _ E) as (l1 & x & l2 & Hq & Hl & Hx).
      rewrite (messageFailed_at _ _ e _ _ _ Hq Hl Hx).
      destruct (at_least _ _); simpl; rewrite processNext_maxRetries; reflexivity.
    + rewrite messageFailed_absent by exact E. reflexivity.
Qed.

Lemma calls_cons q c cs :
  calls q (c :: cs)
  = (fst (calls (fst (call q c)) cs),
     snd (call q c) ++ snd (calls (fst (call q c)) cs)).
Proof.
  simpl. destruct (call q c) as [q1 e1]. simpl.
  destruct (calls q1 cs) as [q2 e2]. reflexivity.
Qed.

Lemma calls_maxRetries q cs : maxRetries (fst (calls q cs)) = maxRetries q.
Proof.
  revert q. induction cs as [|c cs IH]; intros q; [reflexivity|].
  rewrite calls_cons. simpl. rewrite IH. apply call_maxRetries.
Qed.

(** *** Bounded retry *)

Lemma abandoned_app a b : abandoned (a ++ b) = abandoned a ++ abandoned b.
Proof. unfold abandoned. apply flat_map_app. Qed.

Lemma completed_app a b : completed (a ++ b) = completed a ++ completed b.
Proof. unfold completed. apply flat_map_app. Qed.

Lemma dispatched_app a b : dispatched (a ++ b) = dispatched a ++ dispatched b.
Proof. unfold dispatched. apply flat_map_app. Qed.

Lemma abandoned_processNext q : abandoned (snd (processNext q)) = [].
Proof. rewrite processNext_events. destruct (queue q); reflexivity. Qed.

Lemma completed_processNext q : completed (snd (processNext q)) = [].
Proof. rewrite processNext_events. destruct (queue q); reflexivity. Qed.

Lemma enqueue_events q now m :
  abandoned (snd (enqueue q now m)) = []
  /\ completed (snd (enqueue q now m)) = [].
Proof.
  unfold enqueue. simpl. destruct (processing q); simpl; [auto|].
  match goal with |- context [processNext ?x] =>
    pose proof (abandoned_processNext x) as H1;
    pose proof (completed_processNext x) as H2; destruct (processNext x) end.
  simpl in *. auto.
Qed.

(** The items appended by a list of events. *)
Definition added (evs : list Event) : list QueuedMessage :=
  flat_map (fun ev => match ev with EvMessageAdded m => [m] | _ => [] end) evs.

Lemma added_app a b : added (a ++ b) = added a ++ added b.
Proof. unfold added. apply flat_map_app. Qed.

Lemma added_processNext q : added (snd (processNext q)) = [].
Proof. rewrite processNext_events. destruct (queue q); reflexivity. Qed.

(** One call: every item appended is in the queue, completed or given up. *)
Lemma call_conservation q c :
  List.length (queue q) + List.length (added (snd (call q c)))
  = List.length (queue (fst (call q c)))
    + List.length (completed (snd (call q c)))
    + List.length (abandoned (snd (call q c))).
Proof.
  destruct c as [now m|g|g e]; simpl.
  - rewrite enqueue_queue. destruct (enqueue_events q now m) as [-> ->].
    unfold enqueue. simpl. destruct (processing q); simpl.
    + rewrite length_app. simpl. lia.
    + match goal with |- context [processNext ?x] =>
        pose proof (added_processNext x) as H1; destruct (processNext x) end.
      simpl in *. rewrite H1, length_app. simpl. lia.
  - destruct (isInQueue q g) eqn:E.
    + destruct (isInQueue_split _ _ E) as (l1 & x & l2 & Hq & Hl & Hx).
      rewrite (messageProcessed_at _ _ _ _ _ Hq Hl Hx). simpl.
      rewrite processNext_queue, added_processNext, completed_processNext,
        abandoned_processNext, Hq. simpl. rewrite !length_app. simpl. lia.
    + rewrite messageProcessed_absent by exact E. simpl. lia.
  - destruct (isInQueue q g) eqn:E.
    + destruct (isInQueue_split _ _ E) as (l1 & x & l2 & Hq & Hl & Hx).
      rewrite (messageFailed_at _ _ e _ _ _ Hq Hl Hx).
      destruct (at_least _ _); simpl;
        rewrite processNext_queue, added_processNext, completed_processNext,
          abandoned_processNext, Hq; simpl; rewrite !length_app; simpl;
        try rewrite length_app; simpl; lia.
    + rewrite messageFailed_absent by exact E. simpl. lia.
Qed.

Lemma calls_conservation q cs :
  List.length (queue q) + List.length (added (snd (calls q cs)))
  = List.length (queue (fst (calls q cs)))
    + List.length (completed (snd (calls q cs)))
    + List.length (abandoned (snd (calls q cs))).
Proof.
  revert q. induction cs as [|c cs IH]; intros q; [simpl; lia|].
  rewrite calls_cons. simpl.
  rewrite added_app, completed_app, abandoned_app, !length_app.
  pose proof (call_conservation q c). pose proof (IH (fst (call q c))). lia.
Qed.

Lemma at_least_of_nat k n : at_least k (of_nat n) = (n <=? k).
Proof.
  unfold at_least, of_nat. rewrite Z.mul_1_r.
  destruct (n <=? k) eqn:E.
  - apply Nat.leb_le in E. apply Z.leb_le. lia.
  - apply Nat.leb_gt in E. apply Z.leb_gt. lia.
Qed.

Lemma exceeds_of_nat k n : exceeds k (of_nat n) = (n <? k).
Proof.
  unfold exceeds, of_nat. rewrite Z.mul_1_r.
  destruct (n <? k) eqn:E.
  - apply Nat.ltb_lt in E. apply Z.ltb_lt. lia.
  - apply Nat.ltb_ge in E. apply Z.ltb_ge. lia.
Qed.

(** One call keeps the queued items strictly below the bound and gives
    items up exactly at the bound, when the bound is an integer and at
    least 1. *)
Lemma call_bounded n q c :
  1 <= n -> maxRetries q = of_nat n ->
  Forall (fun m => retryCount m < n) (queue q) ->
  Forall (fun m => retryCount m < n) (queue (fst (call q c)))
  /\ Forall (fun m => retryCount m = n) (abandoned (snd (call q c))).
Proof.
  intros Hn Hmax Hq. destruct c as [now m|g|g e]; simpl.
  - rewrite enqueue_queue. destruct (enqueue_events q now m) as [-> _].
    split; [|constructor]. apply Forall_app. split; [exact Hq|].
    constructor; [simpl; lia|constructor].
  - destruct (isInQueue q g) eqn:E.
    + destruct (isInQueue_split _ _ E) as (l1 & x & l2 & Hx & Hl & Hg).
      rewrite (messageProcessed_at _ _ _ _ _ Hx Hl Hg). simpl.
      rewrite processNext_queue, abandoned_processNext. simpl.
      split; [|constructor]. rewrite Hx in Hq.
      apply Forall_app in Hq. destruct Hq as [H1 H2]. inversion H2; subst.
      apply Forall_app. auto.
    + rewrite messageProcessed_absent by exact E. simpl. auto.
  - destruct (isInQueue q g) eqn:E.
    + destruct (isInQueue_split _ _ E) as (l1 & x & l2 & Hx & Hl & Hg).
      rewrite (messageFailed_at _ _ e _ _ _ Hx Hl Hg).
      rewrite Hx in Hq. apply Forall_app in Hq. destruct Hq as [H1 H2].
      inversion H2 as [|? ? Hrc H3]; subst.
      rewrite Hmax, at_least_of_nat.
      destruct (n <=? S (retryCount x)) eqn:El; simpl;
        rewrite processNext_queue, abandoned_processNext; simpl.
      * apply Nat.leb_le in El. split.
        -- apply Forall_app. auto.
        -- constructor; [simpl; lia|constructor].
      * apply Nat.leb_gt in El. split; [|constructor].
        apply Forall_app. split; [apply Forall_app; auto|].
        constructor; [simpl; lia|constructor].
    + rewrite messageFailed_absent by exact E. simpl. auto.
Qed.

Lemma calls_bounded n q cs :
  1 <= n -> maxRetries q = of_nat n ->
  Forall (fun m => retryCount m < n) (queue q) ->
  Forall (fun m => retryCount m < n) (queue (fst (calls q cs)))
  /\ Forall (fun m => retryCount m = n) (abandoned (snd (calls q cs))).
Proof.
  intros Hn. revert q. induction cs as [|c cs IH]; intros q Hmax Hq.
  - simpl. split; [exact Hq|constructor].
  - rewrite calls_cons. simpl. rewrite abandoned_app.
    destruct (call_bounded n q c Hn Hmax Hq) as [H1 H2].
    destruct (IH (fst (call q c))) as [H3 H4]; [rewrite call_maxRetries; exact Hmax|exact H1|].
    split; [exact H3|]. apply Forall_app. auto.
Qed.

(** The claim as the specification words it, for a queue built with the
    bound [n]: no item, queued or handed out with the terminal-failure
    signal, ever carries a retry count above [maxRetries]. *)
Definition bounded_retry (n : Number) : Prop :=
  forall cs,
    Forall (fun m => exceeds (retryCount m) n = false) (queue (fst (calls (create n) cs)))
    /\ Forall (fun m => exceeds (retryCount m) n = false)
              (abandoned (snd (calls (create n) cs))).

(** The item of the scenario after [j] failures. *)
Definition attempt (m : NewMessage) (now j : nat) : QueuedMessage :=
  mkQueued (new_gmailMessageId m) (new_tenantName m) (new_tenantEmail m)
           (new_tenantMessage m) j now.

Lemma fails_on_empty n g e k :
  calls (mkQueue [] false n) (repeat (CallFailed g e) k) = (mkQueue [] false n, []).
Proof.
  induction k as [|k IH]; [reflexivity|].
  simpl repeat. rewrite calls_cons. simpl. rewrite IH. reflexivity.
Qed.

Lemma fails_on_single n m now e k : forall j,
  j < n ->
  let r := calls (mkQueue [attempt m now j] true (of_nat n))
                 (repeat (CallFailed (new_gmailMessageId m) e) k) in
  queue (fst r) = (if j + k <? n then [attempt m now (j + k)] else [])
  /\ abandoned (snd r) = (if j + k <? n then [] else [attempt m now n]).
Proof.
  induction k as [|k IH]; intros j Hj r; subst r.
  - simpl. rewrite Nat.add_0_r. apply Nat.ltb_lt in Hj. rewrite Hj. auto.
  - simpl repeat. rewrite calls_cons.
    assert (Hcall : call (mkQueue [attempt m now j] true (of_nat n))
                         (CallFailed (new_gmailMessageId m) e)
                    = if n <=? S j
                      then (mkQueue [] false (of_nat n),
                            [EvMessageFailed (attempt m now (S j)) e])
                      else (mkQueue [attempt m now (S j)] true (of_nat n),
                            [EvProcessMessage (attempt m now (S j))])).
    { cbn [call]. unfold messageFailed. cbn [queue findIndex attempt].
      unfold has_id at 1. cbn [gmailMessageId]. rewrite String.eqb_refl.
      cbn [nth_error bump retryCount maxRetries].
      rewrite at_least_of_nat. cbn [attempt retryCount].
      destruct (n <=? S j); reflexivity. }
    rewrite Hcall. replace (j + S k) with (S j + k) by lia.
    destruct (n <=? S j) eqn:El; cbn [fst snd].
    + apply Nat.leb_le in El. rewrite fails_on_empty. simpl.
      assert (Hlt : (S (j + k) <? n) = false) by (apply Nat.ltb_ge; lia).
      rewrite Hlt. replace n with (S j) by lia. auto.
    + apply Nat.leb_gt in El. apply (IH (S j)). exact El.
Qed.

Example three_failures :
  let m := mkNew "m1" "Nancy E" None "Booking Inquiry from Nancy E" in
  let e := mkError "LLM API error: 500" in
  let fail := CallFailed "m1" e in
  map (fun cs => (List.length (queue (fst (calls (create (of_nat 3)) cs))),
                  List.length (abandoned (snd (calls (create (of_nat 3)) cs)))))
      [[CallEnqueue 0 m]; [CallEnqueue 0 m; fail]; [CallEnqueue 0 m; fail; fail];
       [CallEnqueue 0 m; fail; fail; fail]; [CallEnqueue 0 m; fail; fail; fail; fail]]
  = [(1, 0); (1, 0); (1, 0); (0, 1); (0, 1)].
Proof. reflexivity. Qed.

(** What a queue built with the bound 3/2 does with an item that fails
    twice: the first failure re-queues it, the second gives it up with a
    retry count of 2. *)
Example one_and_a_half :
  let m := mkNew "m1" "Nancy E" None "hello" in
  let e := mkError "boom" in
  let r := calls (create (Ratio 3 2))
                 [CallEnqueue 0 m; CallFailed "m1" e; CallFailed "m1" e] in
  abandoned (snd r) = [attempt m 0 2].
Proof. reflexivity. Qed.

(** With the bound [Infinity] or [NaN] the test [retryCount >= maxRetries]
    never holds: an item that fails on every attempt is re-queued for
    ever. *)
Lemma never_given_up b m now e :
  (forall k, at_least k b = false) ->
  forall k j,
    let r := calls (mkQueue [attempt m now j] true b)
                   (repeat (CallFailed (new_gmailMessageId m) e) k) in
    queue (fst r) = [attempt m now (j + k)] /\ abandoned (snd r) = [].
Proof.
  intros Hb. induction k as [|k IH]; intros j r; subst r.
  - simpl. rewrite Nat.add_0_r. auto.
  - simpl repeat. rewrite calls_cons.
    assert (Hcall : call (mkQueue [attempt m now j] true b)
                         (CallFailed (new_gmailMessageId m) e)
                    = (mkQueue [attempt m now (S j)] true b,
                       [EvProcessMessage (attempt m now (S j))])).
    { cbn [call]. unfold messageFailed. cbn [queue findIndex attempt].
      unfold has_id at 1. cbn [gmailMessageId]. rewrite String.eqb_refl.
      cbn [nth_error bump retryCount maxRetries]. rewrite Hb. reflexivity. }
    rewrite Hcall. cbn [fst snd]. replace (j + S k) with (S j + k) by lia.
    destruct (IH (S j)) as [H1 H2]. split; [exact H1|].
    change (abandoned ([EvProcessMessage (attempt m now (S j))] ++ ?t))
      with (abandoned t).
    exact H2.
Qed.

Example unbounded_retries :
  let m := mkNew "m1" "Nancy E" None "hello" in
  let e := mkError "boom" in
  forall k,
    queue (fst (calls (create Infinity) (CallEnqueue 0 m :: repeat (CallFailed "m1" e) k)))
    = [attempt m 0 k]
    /\ queue (fst (calls (create NaN) (CallEnqueue 0 m :: repeat (CallFailed "m1" e) k)))
       = [attempt m 0 k].
Proof.
  intros m e k. rewrite !calls_cons.
  split.
  - exact (proj1 (never_given_up Infinity m 0 e (fun _ => eq_refl) k 0)).
  - exact (proj1 (never_given_up NaN m 0 e (fun _ => eq_refl) k 0)).
Qed.

(** C1 (as worded). The constructor takes any number as the bound, and the
    claim fails for two kinds of them.  With [maxRetries = 0] the first
    failure hands the item out with [retryCount = 1], above the bound.
    With [maxRetries = 3/2] the first failure re-queues the item and the
    second hands it out with [retryCount = 2], above the bound. *)
Lemma C1_counterexample_zero_retries :
  ~ bounded_retry (of_nat 0) /\ ~ bounded_retry (Ratio 3 2).
Proof.
  split; intros H.
  - destruct (H [CallEnqueue 0 (mkNew "m1" "Nancy E" None "hello");
                 CallFailed "m1" (mkError "boom")]) as [_ Hab].
    inversion Hab as [|? ? Hrc _]. discriminate Hrc.
  - destruct (H [CallEnqueue 0 (mkNew "m1" "Nancy E" None "hello");
                 CallFailed "m1" (mkError "boom");
                 CallFailed "m1" (mkError "boom")]) as [_ Hab].
    inversion Hab as [|? ? Hrc _]. discriminate Hrc.
Qed.

(** C1 (amended). For every bound that is an integer and at least 1 (the
    default 3 among them) and every sequence of calls on a new queue: no
    item, queued or handed out, carries a retry count above [maxRetries];
    a [messageFailed] call on the first item with the given id removes it
    and emits exactly one terminal-failure signal when the incremented
    count equals [maxRetries], and otherwise keeps it (at the tail)
    without a signal; every appended item is accounted for once, as
    queued, completed or given up; and one item that fails on every attempt
    stays queued through the first [maxRetries - 1] [messageFailed] calls
    and is removed, with one signal, by call number [maxRetries], later
    calls changing nothing. *)
Theorem C1_bounded_retry (n : nat) (Hn : 1 <= n) :
  bounded_retry (of_nat n)
  /\ (forall cs,
        Forall (fun m => retryCount m <= n) (queue (fst (calls (create (of_nat n)) cs)))
        /\ Forall (fun m => retryCount m <= n)
                  (abandoned (snd (calls (create (of_nat n)) cs))))
  /\ (forall cs g e l1 x l2,
        let q := fst (calls (create (of_nat n)) cs) in
        let r := messageFailed q g e in
        queue q = l1 ++ x :: l2 ->
        (forall y, In y l1 -> has_id g y = false) -> has_id g x = true ->
        retryCount x < n
        /\ if S (retryCount x) =? n
           then queue (fst r) = l1 ++ l2 /\ abandoned (snd r) = [bump x]
           else queue (fst r) = l1 ++ l2 ++ [bump x] /\ abandoned (snd r) = [])
  /\ (forall cs,
        let r := calls (create (of_nat n)) cs in
        List.length (added (snd r))
        = List.length (queue (fst r)) + List.length (completed (snd r))
          + List.length (abandoned (snd r)))
  /\ (forall m now e k,
        let r := calls (create (of_nat n))
                   (CallEnqueue now m :: repeat (CallFailed (new_gmailMessageId m) e) k) in
        queue (fst r) = (if k <? n then [attempt m now k] else [])
        /\ abandoned (snd r) = (if k <? n then [] else [attempt m now n])).
Proof.
  assert (Hinv : forall cs,
    Forall (fun m => retryCount m < n) (queue (fst (calls (create (of_nat n)) cs)))
    /\ Forall (fun m => retryCount m = n)
              (abandoned (snd (calls (create (of_nat n)) cs)))).
  { intros cs. apply calls_bounded; [exact Hn|reflexivity|constructor]. }
  split; [|split; [|split; [|split]]].
  - intros cs. destruct (Hinv cs) as [H1 H2]. split.
    + eapply Forall_impl; [|exact H1]. cbv beta. intros a Ha.
      rewrite exceeds_of_nat. apply Nat.ltb_ge. lia.
    + eapply Forall_impl; [|exact H2]. cbv beta. intros a Ha.
      rewrite exceeds_of_nat. apply Nat.ltb_ge. lia.
  - intros cs. destruct (Hinv cs) as [H1 H2]. split.
    + eapply Forall_impl; [|exact H1]. simpl. intros; lia.
    + eapply Forall_impl; [|exact H2]. simpl. intros; lia.
  - intros cs g e l1 x l2 q r Hq Hl Hx.
    destruct (Hinv cs) as [H1 _]. fold q in H1. rewrite Hq in H1.
    apply Forall_app in H1. destruct H1 as [_ H1]. inversion H1 as [|? ? Hrc _]; subst.
    split; [exact Hrc|]. subst r.
    rewrite (messageFailed_at _ _ e _ _ _ Hq Hl Hx).
    assert (Hmax : maxRetries q = of_nat n) by (subst q; apply calls_maxRetries).
    rewrite Hmax, at_least_of_nat.
    destruct (S (retryCount x) =? n) eqn:Eq.
    + apply Nat.eqb_eq in Eq.
      assert (El : (n <=? S (retryCount x)) = true) by (apply Nat.leb_le; lia).
      rewrite El. simpl. rewrite processNext_queue, abandoned_processNext. auto.
    + apply Nat.eqb_neq in Eq.
      assert (El : (n <=? S (retryCount x)) = false) by (apply Nat.leb_gt; lia).
      rewrite El. rewrite processNext_queue, abandoned_processNext. simpl.
      rewrite <- app_assoc. auto.
  - intros cs r. subst r. pose proof (calls_conservation (create (of_nat n)) cs) as H.
    simpl in H. lia.
  - intros m now e k r. subst r. rewrite calls_cons.
    assert (Hcall : call (create (of_nat n)) (CallEnqueue now m)
                    = (mkQueue [attempt m now 0] true (of_nat n),
                       [EvMessageAdded (attempt m now 0);
                        EvProcessMessage (attempt m now 0)])) by reflexivity.
    rewrite Hcall. simpl fst. simpl snd.
    destruct (fails_on_single n m now e k 0 Hn) as [H1 H2]. simpl in H1, H2.
    rewrite H1. split; [reflexivity|].
    change (abandoned ([EvMessageAdded (attempt m now 0); EvProcessMessage (attempt m now 0)]
              ++ ?t)) with (abandoned t).
    exact H2.
Qed.

Lemma C1_witness :
  let m := mkNew "m1" "Nancy E" None "Booking Inquiry from Nancy E" in
  let e := mkError "LLM API error: 500" in
  let r := calls (create (of_nat 3)) (CallEnqueue 0 m :: repeat (CallFailed "m1" e) 3) in
  queue (fst r) = [] /\ abandoned (snd r) = [attempt m 0 3].
Proof.
  intros m e.
  exact (proj2 (proj2 (proj2 (proj2
           (C1_bounded_retry 3 (le_S _ _ (le_S _ _ (le_n 1)))))))
               m 0 e 3).
Defined.

(** *** One item in flight *)

Definition nonempty (l : list QueuedMessage) : bool :=
  match l with [] => false | _ :: _ => true end.

(** The state of the hand-over: the item in flight is the head of the
    queue, and [processing] is set exactly while there is one. *)
Definition handed_over (t : Tracked) : Prop :=
  in_flight t = firstn 1 (queue (mq t))
  /\ processing (mq t) = nonempty (queue (mq t)).

Lemma processNext_eq l b n :
  processNext (mkQueue l b n)
  = (mkQueue l (nonempty l) n, map EvProcessMessage (firstn 1 l)).
Proof. destruct l; reflexivity. Qed.

Lemma dispatched_map l : dispatched (map EvProcessMessage l) = l.
Proof. induction l as [|x l IH]; simpl; [reflexivity|]. f_equal. exact IH. Qed.

Lemma tracked_enqueue l b n fl now m :
  handed_over (mkTracked (mkQueue l b n) fl) ->
  let item := mkQueued (new_gmailMessageId m) (new_tenantName m)
                       (new_tenantEmail m) (new_tenantMessage m) 0 now in
  tracked_call (mkTracked (mkQueue l b n) fl) (CallEnqueue now m)
  = Some (mkTracked (mkQueue (l ++ [item]) true n) (firstn 1 (l ++ [item])),
          EvMessageAdded item :: match l with [] => [EvProcessMessage item] | _ => [] end).
Proof.
  intros [Hfl Hb] item. simpl in Hfl, Hb. subst fl b.
  unfold tracked_call, enqueue. simpl.
  destruct l as [|h r]; simpl; reflexivity.
Qed.

Lemma in_flight_is_head l b n fl g rest :
  handed_over (mkTracked (mkQueue l b n) fl) ->
  take_out g fl = Some rest ->
  exists h r, l = h :: r /\ fl = [h] /\ b = true /\ has_id g h = true /\ rest = [].
Proof.
  intros [Hfl Hb] Ht. simpl in Hfl, Hb. subst fl b.
  destruct l as [|h r]; simpl in Ht; [discriminate|].
  destruct (has_id g h) eqn:E; [|discriminate].
  injection Ht as <-. exists h, r. auto.
Qed.

Lemma tracked_processed h r n g :
  has_id g h = true ->
  tracked_call (mkTracked (mkQueue (h :: r) true n) [h]) (CallProcessed g)
  = Some (mkTracked (mkQueue r (nonempty r) n) (firstn 1 r),
          EvMessageCompleted h :: map EvProcessMessage (firstn 1 r)).
Proof.
  intros Hg. unfold tracked_call. simpl. rewrite Hg.
  unfold messageProcessed. simpl. rewrite Hg. simpl.
  rewrite processNext_eq. simpl. rewrite dispatched_map. reflexivity.
Qed.

Lemma tracked_failed h r n g e :
  has_id g h = true ->
  tracked_call (mkTracked (mkQueue (h :: r) true n) [h]) (CallFailed g e)
  = Some (if at_least (S (retryCount h)) n
          then (mkTracked (mkQueue r (nonempty r) n) (firstn 1 r),
                EvMessageFailed (bump h) e :: map EvProcessMessage (firstn 1 r))
          else (mkTracked (mkQueue (r ++ [bump h]) true n) (firstn 1 (r ++ [bump h])),
                map EvProcessMessage (firstn 1 (r ++ [bump h])))).
Proof.
  intros Hg. unfold tracked_call. simpl. rewrite Hg.
  unfold messageFailed. simpl. rewrite Hg. simpl.
  destruct (at_least (S (retryCount h)) n); rewrite processNext_eq; simpl;
    rewrite dispatched_map; [reflexivity|].
  destruct r; reflexivity.
Qed.

Lemma tracked_call_handed_over t c t' evs :
  handed_over t -> tracked_call t c = Some (t', evs) -> handed_over t'.
Proof.
  destruct t as [[l b n] fl]. intros H Hc. destruct c as [now m|g|g e].
  - rewrite (tracked_enqueue _ _ _ _ now m H) in Hc. injection Hc as <- _.
    split; simpl; [reflexivity|]. destruct l; reflexivity.
  - destruct (take_out g fl) as [rest|] eqn:Et; [|simpl in Hc; rewrite Et in Hc; discriminate].
    destruct (in_flight_is_head _ _ _ _ _ _ H Et) as (h & r & -> & -> & -> & Hg & _).
    rewrite (tracked_processed h r n g Hg) in Hc. injection Hc as <- _.
    split; reflexivity.
  - destruct (take_out g fl) as [rest|] eqn:Et; [|simpl in Hc; rewrite Et in Hc; discriminate].
    destruct (in_flight_is_head _ _ _ _ _ _ H Et) as (h & r & -> & -> & -> & Hg & _).
    rewrite (tracked_failed h r n g e Hg) in Hc.
    destruct (at_least (S (retryCount h)) n); injection Hc as <- _; split; simpl; try reflexivity.
    destruct r; reflexivity.
Qed.

Lemma tracked_calls_handed_over cs : forall t t' evs,
  handed_over t -> tracked_calls t cs = Some (t', evs) -> handed_over t'.
Proof.
  induction cs as [|c cs IH]; intros t t' evs H Hc; simpl in Hc.
  - injection Hc as <- _. exact H.
  - destruct (tracked_call t c) as [[t1 e1]|] eqn:E1; [|discriminate].
    destruct (tracked_calls t1 cs) as [[t2 e2]|] eqn:E2; [|discriminate].
    injection Hc as <- _. eapply IH; [|exact E2].
    eapply tracked_call_handed_over; eassumption.
Qed.

Lemma tracked_calls_app t cs1 cs2 t' evs :
  tracked_calls t (cs1 ++ cs2) = Some (t', evs) ->
  exists t1 evs1 evs2,
    tracked_calls t cs1 = Some (t1, evs1)
    /\ tracked_calls t1 cs2 = Some (t', evs2) /\ evs = evs1 ++ evs2.
Proof.
  revert t evs. induction cs1 as [|c cs1 IH]; intros t evs H; simpl in *.
  - exists t, [], evs. auto.
  - destruct (tracked_call t c) as [[ta ea]|]; [|discriminate].
    destruct (tracked_calls ta (cs1 ++ cs2)) as [[tb eb]|] eqn:E; [|discriminate].
    injection H as <- <-.
    destruct (IH _ _ E) as (t1 & evs1 & evs2 & -> & H2 & ->).
    exists t1, (ea ++ evs1), evs2. rewrite app_assoc. auto.
Qed.

Example one_at_a_time :
  let a := mkNew "a" "Ann" None "s1" in
  let b := mkNew "b" "Bob" None "s2" in
  option_map (fun r => (ids (in_flight (fst r)), ids (dispatched (snd r))))
    (tracked_calls (mkTracked (create (of_nat 3)) [])
       [CallEnqueue 0 a; CallEnqueue 1 b; CallProcessed "a"])
  = Some (["b"], ["a"; "b"])
  /\ tracked_calls (mkTracked (create (of_nat 3)) [])
       [CallEnqueue 0 a; CallEnqueue 1 b; CallProcessed "b"] = None.
Proof. split; reflexivity. Qed.

(** C5. Start from a new queue and make any sequence of [enqueue],
    [messageProcessed] and [messageFailed] calls in which the last two
    only ever name an item in flight.  After every prefix of the sequence
    at most one item is in flight, it is the head of the queue, and
    the [processing] flag is set exactly when there is one. *)
Theorem C5_at_most_one_in_flight
  (n : Number) (cs1 cs2 : list Call) (t : Tracked) (evs : list Event)
  (Hprotocol : tracked_calls (mkTracked (create n) []) (cs1 ++ cs2) = Some (t, evs)) :
  exists t1 evs1,
    tracked_calls (mkTracked (create n) []) cs1 = Some (t1, evs1)
    /\ List.length (in_flight t1) <= 1
    /\ in_flight t1 = firstn 1 (queue (mq t1))
    /\ processing (mq t1) = nonempty (queue (mq t1)).
Proof.
  destruct (tracked_calls_app _ _ _ _ _ Hprotocol) as (t1 & evs1 & evs2 & H1 & _ & _).
  exists t1, evs1. split; [exact H1|].
  assert (H : handed_over t1).
  { eapply tracked_calls_handed_over; [|exact H1]. split; reflexivity. }
  destruct H as [Hfl Hb]. repeat split; auto.
  rewrite Hfl. destruct (queue (mq t1)); simpl; lia.
Qed.

Lemma C5_witness :
  exists t1 evs1,
    tracked_calls (mkTracked (create (of_nat 3)) [])
      [CallEnqueue 0 (mkNew "a" "Ann" None "s1");
       CallEnqueue 1 (mkNew "b" "Bob" None "s2");
       CallFailed "a" (mkError "boom")] = Some (t1, evs1)
    /\ List.length (in_flight t1) <= 1
    /\ in_flight t1 = firstn 1 (queue (mq t1))
    /\ processing (mq t1) = nonempty (queue (mq t1)).
Proof.
  apply (C5_at_most_one_in_flight (of_nat 3)
           [CallEnqueue 0 (mkNew "a" "Ann" None "s1");
            CallEnqueue 1 (mkNew "b" "Bob" None "s2");
            CallFailed "a" (mkError "boom")]
           [CallProcessed "b"]
           (mkTracked
              (mkQueue [mkQueued "a" "Ann" None "s1" 1 0] true (of_nat 3))
              [mkQueued "a" "Ann" None "s1" 1 0])
           [EvMessageAdded (mkQueued "a" "Ann" None "s1" 0 0);
            EvProcessMessage (mkQueued "a" "Ann" None "s1" 0 0);
            EvMessageAdded (mkQueued "b" "Bob" None "s2" 0 1);
            EvProcessMessage (mkQueued "b" "Bob" None "s2" 0 1);
            EvMessageCompleted (mkQueued "b" "Bob" None "s2" 0 1);
            EvProcessMessage (mkQueued "a" "Ann" None "s1" 1 0)]).
  reflexivity.
Defined.

(** *** Fair requeue *)

(** [fair X y started evs]: in the event list [evs], no item with id [y]
    is handed over until the item [X] has been handed over ([started])
    and then completed; the hand-over and the completion carry [X]
    itself. *)
Fixpoint fair (X : QueuedMessage) (y : string) (started : bool) (evs : list Event)
  : Prop :=
  match evs with
  | [] => True
  | EvProcessMessage m :: r =>
      has_id y m = false
      /\ (if has_id (gmailMessageId X) m then m = X /\ fair X y true r
          else fair X y started r)
  | EvMessageCompleted m :: r =>
      if has_id (gmailMessageId X) m then m = X /\ started = true
      else fair X y started r
  | _ :: r => fair X y started r
  end.

Definition never_fails (g : string) (cs : list Call) : bool :=
  forallb (fun c => negb (is_fail_of g c)) cs.

Lemma fair_started X y evs :
  fair X y true evs ->
  forall pre a post,
    evs = pre ++ EvProcessMessage a :: post -> gmailMessageId a = y ->
    exists p2 p3, pre = p2 ++ EvMessageCompleted X :: p3.
Proof.
  induction evs as [|ev r IH]; intros Hf pre a post Heq Ha.
  - destruct pre; discriminate.
  - destruct pre as [|ev' pre'].
    + injection Heq as -> ->. simpl in Hf. destruct Hf as [Hy _].
      apply has_id_false in Hy. contradiction.
    + injection Heq as <- ->.
      assert (Hrec : fair X y true (pre' ++ EvProcessMessage a :: post) ->
                     exists p2 p3, ev :: pre' = p2 ++ EvMessageCompleted X :: p3).
      { intros H. destruct (IH H pre' a post eq_refl Ha) as (p2 & p3 & ->).
        exists (ev :: p2), p3. reflexivity. }
      destruct ev as [m|m|m|m e]; simpl in Hf; auto.
      * destruct Hf as [_ Hf]. destruct (has_id (gmailMessageId X) m); [|auto].
        destruct Hf as [_ Hf]. auto.
      * destruct (has_id (gmailMessageId X) m); [|auto].
        destruct Hf as [-> _]. exists [], pre'. reflexivity.
Qed.

Lemma fair_not_started X y evs :
  fair X y false evs ->
  forall pre a post,
    evs = pre ++ EvProcessMessage a :: post -> gmailMessageId a = y ->
    exists p1 p2 p3,
      pre = p1 ++ EvProcessMessage X :: p2 ++ EvMessageCompleted X :: p3.
Proof.
  induction evs as [|ev r IH]; intros Hf pre a post Heq Ha.
  - destruct pre; discriminate.
  - destruct pre as [|ev' pre'].
    + injection Heq as -> ->. simpl in Hf. destruct Hf as [Hy _].
      apply has_id_false in Hy. contradiction.
    + injection Heq as <- ->.
      assert (Hrec : fair X y false (pre' ++ EvProcessMessage a :: post) ->
                     exists p1 p2 p3,
                       ev :: pre' = p1 ++ EvProcessMessage X :: p2
                                       ++ EvMessageCompleted X :: p3).
      { intros H. destruct (IH H pre' a post eq_refl Ha) as (p1 & p2 & p3 & ->).
        exists (ev :: p1), p2, p3. reflexivity. }
      destruct ev as [m|m|m|m e]; simpl in Hf; auto.
      * destruct Hf as [_ Hf]. destruct (has_id (gmailMessageId X) m); [|auto].
        destruct Hf as [-> Hf].
        destruct (fair_started _ _ _ Hf pre' a post eq_refl Ha) as (p2 & p3 & ->).
        exists [], p2, p3. reflexivity.
      * destruct (has_id (gmailMessageId X) m); [|auto].
        destruct Hf as [_ Hf]. discriminate.
Qed.

(** Handing over the head of a queue in which [X] comes before every item
    with id [y]. *)
Lemma fair_next X y l1 l2 evs :
  ~ In (gmailMessageId X) (ids l1) -> ~ In y (ids l1) -> gmailMessageId X <> y ->
  fair X y (negb (nonempty l1)) evs ->
  fair X y false (map EvProcessMessage (firstn 1 (l1 ++ X :: l2)) ++ evs).
Proof.
  intros HX Hy Hne Hf. destruct l1 as [|a l1]; simpl.
  - split; [apply has_id_false; exact Hne|]. rewrite has_id_self. auto.
  - split.
    + apply has_id_false. intros E. apply Hy. left. exact E.
    + replace (has_id (gmailMessageId X) a) with false; [exact Hf|].
      symmetry. apply has_id_false. intros E. apply HX. left. exact E.
Qed.

Lemma tracked_calls_cons t c cs t' evs :
  tracked_calls t (c :: cs) = Some (t', evs) ->
  exists t1 e1 e2,
    tracked_call t c = Some (t1, e1)
    /\ tracked_calls t1 cs = Some (t', e2) /\ evs = e1 ++ e2.
Proof.
  simpl. destruct (tracked_call t c) as [[t1 e1]|]; [|discriminate].
  destruct (tracked_calls t1 cs) as [[t2 e2]|] eqn:E2; [|discriminate].
  intros H. injection H as <- <-. exists t1, e1, e2. auto.
Qed.

Lemma tracked_wrong_id q h c :
  match c with
  | CallEnqueue _ _ => False
  | CallProcessed g | CallFailed g _ => has_id g h = false
  end ->
  tracked_call (mkTracked q [h]) c = None.
Proof.
  destruct c as [now m|g|g e]; [intros []| |];
    intros H; unfold tracked_call; simpl; rewrite H; reflexivity.
Qed.

(** While [X] is queued before every item with id [y] and is not failed,
    the calls that follow the protocol produce a [fair] event list. *)
Lemma waits_for X y cs : forall l1 l2 n t' evs,
  ~ In (gmailMessageId X) (ids l1) -> ~ In y (ids l1) -> gmailMessageId X <> y ->
  never_fails (gmailMessageId X) cs = true ->
  tracked_calls (mkTracked (mkQueue (l1 ++ X :: l2) true n) (firstn 1 (l1 ++ X :: l2))) cs
  = Some (t', evs) ->
  fair X y (negb (nonempty l1)) evs.
Proof.
  induction cs as [|c cs IH]; intros l1 l2 n t' evs HX Hy Hne Hnf Hrun.
  - simpl in Hrun. injection Hrun as _ <-. exact I.
  - simpl in Hnf. apply andb_prop in Hnf. destruct Hnf as [Hc Hnf].
    apply tracked_calls_cons in Hrun.
    destruct Hrun as (t1 & e1 & e2 & E1 & E2 & ->).
    assert (Hho : handed_over (mkTracked (mkQueue (l1 ++ X :: l2) true n)
                                         (firstn 1 (l1 ++ X :: l2)))).
    { split; [reflexivity|]. destruct l1; reflexivity. }
    assert (Hnon : forall l l', nonempty (l ++ X :: l') = true)
      by (intros [|? ?] ?; reflexivity).
    destruct c as [now m|g|g e].
    + rewrite (tracked_enqueue _ _ _ _ now m Hho) in E1. injection E1 as <- <-.
      assert (Hev : forall x, (match l1 ++ X :: l2 with
                               | [] => [EvProcessMessage x] | _ :: _ => [] end) = [])
        by (intros; destruct l1; reflexivity).
      rewrite Hev. cbn [app fair].
      rewrite <- app_assoc in E2. cbn [app] in E2.
      eapply IH; [exact HX|exact Hy|exact Hne|exact Hnf|exact E2].
    + destruct l1 as [|a l1]; cbn [app firstn] in E1.
      * destruct (has_id g X) eqn:Hg;
          [|rewrite tracked_wrong_id in E1 by exact Hg; discriminate].
        rewrite (tracked_processed X l2 n g Hg) in E1. injection E1 as <- <-.
        simpl. rewrite has_id_self. auto.
      * destruct (has_id g a) eqn:Hg;
          [|rewrite tracked_wrong_id in E1 by exact Hg; discriminate].
        rewrite (tracked_processed a (l1 ++ X :: l2) n g Hg) in E1.
        injection E1 as <- <-. rewrite Hnon in E2.
        assert (HX' : ~ In (gmailMessageId X) (ids l1))
          by (intros H; apply HX; right; exact H).
        assert (Hy' : ~ In y (ids l1)) by (intros H; apply Hy; right; exact H).
        cbn [app fair].
        replace (has_id (gmailMessageId X) a) with false
          by (symmetry; apply has_id_false; intros E; apply HX; left; exact E).
        apply fair_next; auto.
        eapply IH; [exact HX'|exact Hy'|exact Hne|exact Hnf|exact E2].
    + simpl in Hc. apply negb_true_iff in Hc. apply String.eqb_neq in Hc.
      destruct l1 as [|a l1]; cbn [app firstn] in E1.
      * destruct (has_id g X) eqn:Hg;
          [|rewrite tracked_wrong_id in E1 by exact Hg; discriminate].
        apply has_id_true in Hg. congruence.
      * destruct (has_id g a) eqn:Hg;
          [|rewrite tracked_wrong_id in E1 by exact Hg; discriminate].
        rewrite (tracked_failed a (l1 ++ X :: l2) n g e Hg) in E1.
        assert (HX' : ~ In (gmailMessageId X) (ids l1))
          by (intros H; apply HX; right; exact H).
        assert (Hy' : ~ In y (ids l1)) by (intros H; apply Hy; right; exact H).
        destruct (at_least (S (retryCount a)) n); injection E1 as <- <-.
        -- rewrite Hnon in E2. cbn [app fair]. apply fair_next; auto.
           eapply IH; [exact HX'|exact Hy'|exact Hne|exact Hnf|exact E2].
        -- rewrite <- app_assoc in E2 |- *. cbn [app] in E2 |- *.
           apply fair_next; auto.
           eapply IH; [exact HX'|exact Hy'|exact Hne|exact Hnf|exact E2].
Qed.

Lemma ids_app l1 l2 : ids (l1 ++ l2) = ids l1 ++ ids l2.
Proof. apply map_app. Qed.

Lemma nodup_prefix l1 X l2 :
  NoDup (ids (l1 ++ X :: l2)) ->
  ~ In (gmailMessageId X) (ids l1)
  /\ ~ In (gmailMessageId X) (ids l2).
Proof.
  rewrite ids_app. simpl. intros H. apply NoDup_remove_2 in H.
  split; intros Hin; apply H, in_or_app; auto.
Qed.

(** After the head [A] has failed with retries left, an item [X] of the
    queue behind it, with no item of id [y] in front of [X], is served
    first. *)
Lemma after_failure A l1 X l2 n e cs t' evs y :
  at_least (S (retryCount A)) n = false ->
  ~ In (gmailMessageId X) (ids l1) -> ~ In y (ids l1) -> gmailMessageId X <> y ->
  never_fails (gmailMessageId X) cs = true ->
  tracked_calls (mkTracked (mkQueue (A :: l1 ++ X :: l2) true n) [A])
                (CallFailed (gmailMessageId A) e :: cs) = Some (t', evs) ->
  fair X y false evs.
Proof.
  intros Hretry HX Hy Hne Hnf Hrun.
  apply tracked_calls_cons in Hrun. destruct Hrun as (t1 & e1 & e2 & E1 & E2 & ->).
  rewrite (tracked_failed A (l1 ++ X :: l2) n _ e (has_id_self A)) in E1.
  rewrite Hretry in E1. injection E1 as <- <-.
  rewrite <- app_assoc in E2 |- *. cbn [app] in E2 |- *.
  apply fair_next; auto.
  eapply waits_for; [exact HX|exact Hy|exact Hne|exact Hnf|exact E2].
Qed.

Example fair_requeue_two_items :
  let a := mkNew "a" "Ann" None "s1" in
  let b := mkNew "b" "Bob" None "s2" in
  option_map (fun r => snd r)
    (tracked_calls (mkTracked (create (of_nat 3)) [])
       [CallEnqueue 0 a; CallEnqueue 1 b; CallFailed "a" (mkError "boom");
        CallProcessed "b"])
  = Some [EvMessageAdded (mkQueued "a" "Ann" None "s1" 0 0);
          EvProcessMessage (mkQueued "a" "Ann" None "s1" 0 0);
          EvMessageAdded (mkQueued "b" "Bob" None "s2" 0 1);
          EvProcessMessage (mkQueued "b" "Bob" None "s2" 0 1);
          EvMessageCompleted (mkQueued "b" "Bob" None "s2" 0 1);
          EvProcessMessage (mkQueued "a" "Ann" None "s1" 1 0)].
Proof. reflexivity. Qed.

(** The events of completing every item of a queue in turn. *)
Fixpoint serve_events (l : list QueuedMessage) : list Event :=
  match l with
  | [] => []
  | h :: r => EvMessageCompleted h :: map EvProcessMessage (firstn 1 r) ++ serve_events r
  end.

Lemma serve_events_dispatched l : dispatched (serve_events l) = tl l.
Proof.
  induction l as [|h r IH]; [reflexivity|].
  cbn [serve_events tl]. change (dispatched (?e :: ?t)) with (dispatched t).
  rewrite dispatched_app, dispatched_map, IH. destruct r; reflexivity.
Qed.

Lemma serve_events_completed l : completed (serve_events l) = l.
Proof.
  induction l as [|h r IH]; [reflexivity|].
  cbn [serve_events]. change (completed (EvMessageCompleted h :: ?t)) with (h :: completed t).
  rewrite completed_app, IH.
  assert (H : completed (map EvProcessMessage (firstn 1 r)) = [])
    by (destruct r; reflexivity).
  rewrite H. reflexivity.
Qed.

(** Completing the item in flight, again and again, is accepted by the
    protocol and empties the queue. *)
Lemma serve_all n : forall l,
  tracked_calls (mkTracked (mkQueue l (nonempty l) n) (firstn 1 l))
                (map (fun x => CallProcessed (gmailMessageId x)) l)
  = Some (mkTracked (mkQueue [] false n) [], serve_events l).
Proof.
  induction l as [|h r IH]; [reflexivity|].
  cbn [map tracked_calls nonempty firstn].
  rewrite (tracked_processed h r n (gmailMessageId h) (has_id_self h)).
  rewrite IH. reflexivity.
Qed.

(** C9. Let [A] be the item in flight at the head of the queue, [B] an
    item queued behind it, the ids of the queue distinct, and let [A] fail
    with retries left.  Then the failing call moves [A], with its count
    incremented, to the tail and hands over the item that was queued
    right behind [A].  When the Orchestrator then completes each item it
    is handed, the queue hands over and completes the items behind [A] in
    their order, [B] among them, and after them the retried [A].  And in
    every continuation that follows the protocol and never fails [B], each
    later hand-over of an item with [A]'s id comes after the hand-over of
    [B] and the completion of [B].  Likewise for any two items [X] before
    [Y] behind [A]: while [X] is never failed, [Y] is handed over only
    after [X] was handed over and completed. *)
Theorem C9_fair_requeue
  (n : Number) (A B : QueuedMessage) (rest : list QueuedMessage) (e : Error)
  (cs : list Call) (t' : Tracked) (evs : list Event)
  (HB : In B rest)
  (Hids : NoDup (ids (A :: rest)))
  (Hretry : at_least (S (retryCount A)) n = false)
  (Hrun : tracked_calls (mkTracked (mkQueue (A :: rest) true n) [A])
                        (CallFailed (gmailMessageId A) e :: cs) = Some (t', evs))
  (HBok : never_fails (gmailMessageId B) cs = true) :
  messageFailed (mkQueue (A :: rest) true n) (gmailMessageId A) e
  = (mkQueue (rest ++ [bump A]) true n,
     map EvProcessMessage (firstn 1 rest))
  /\ (exists t2 evs2,
        tracked_calls (mkTracked (mkQueue (A :: rest) true n) [A])
          (CallFailed (gmailMessageId A) e
           :: map (fun x => CallProcessed (gmailMessageId x)) (rest ++ [bump A]))
        = Some (t2, evs2)
        /\ dispatched evs2 = rest ++ [bump A]
        /\ completed evs2 = rest ++ [bump A]
        /\ queue (mq t2) = [])
  /\ (forall pre a post,
        evs = pre ++ EvProcessMessage a :: post ->
        gmailMessageId a = gmailMessageId A ->
        exists p1 p2 p3,
          pre = p1 ++ EvProcessMessage B :: p2 ++ EvMessageCompleted B :: p3)
  /\ (forall X Y l1 l2 l3,
        rest = l1 ++ X :: l2 ++ Y :: l3 ->
        never_fails (gmailMessageId X) cs = true ->
        forall pre y post,
          evs = pre ++ EvProcessMessage y :: post ->
          gmailMessageId y = gmailMessageId Y ->
          exists p1 p2 p3,
            pre = p1 ++ EvProcessMessage X :: p2 ++ EvMessageCompleted X :: p3).
Proof.
  inversion Hids as [|? ? HA Hrest]; subst.
  assert (Hrest1 : exists b r, rest = b :: r)
    by (destruct rest as [|b r]; [destruct HB|eauto]).
  destruct Hrest1 as (b & r & Er).
  split; [|split; [|split]].
  - rewrite (messageFailed_at (mkQueue (A :: rest) true n) (gmailMessageId A) e
               [] A rest eq_refl); [|intros y []|apply has_id_self].
    cbn [maxRetries processing app]. rewrite Hretry, processNext_eq.
    rewrite Er. reflexivity.
  - cbn [tracked_calls].
    rewrite (tracked_failed A rest n (gmailMessageId A) e (has_id_self A)), Hretry.
    pose proof (serve_all n (rest ++ [bump A])) as Hs.
    assert (Hne : nonempty (rest ++ [bump A]) = true) by (rewrite Er; reflexivity).
    rewrite Hne in Hs. rewrite Hs.
    do 2 eexists. split; [reflexivity|].
    rewrite dispatched_app, completed_app, dispatched_map.
    rewrite serve_events_dispatched, serve_events_completed.
    assert (Hc : completed (map EvProcessMessage (firstn 1 (rest ++ [bump A]))) = [])
      by (rewrite Er; reflexivity).
    rewrite Hc. split; [rewrite Er; reflexivity|]. split; reflexivity.
  - apply in_split in HB. destruct HB as (l1 & l2 & ->).
    destruct (nodup_prefix _ _ _ Hrest) as [HB1 _].
    apply fair_not_started.
    eapply after_failure; [exact Hretry|exact HB1| | |exact HBok|exact Hrun].
    + intros H. apply HA. fold (ids (l1 ++ B :: l2)). rewrite ids_app.
      apply in_or_app. left. exact H.
    + intros E. apply HA. fold (ids (l1 ++ B :: l2)). rewrite ids_app.
      apply in_or_app. right. left. exact E.
  - intros X Y l1 l2 l3 -> HX.
    destruct (nodup_prefix _ _ _ Hrest) as [HX1 HX2].
    apply fair_not_started.
    eapply after_failure; [exact Hretry|exact HX1| | |exact HX|exact Hrun].
    + replace (l1 ++ X :: l2 ++ Y :: l3) with ((l1 ++ X :: l2) ++ Y :: l3) in Hrest
        by (rewrite <- app_assoc; reflexivity).
      destruct (nodup_prefix _ _ _ Hrest) as [HY1 _].
      intros H. apply HY1. rewrite ids_app. apply in_or_app. left. exact H.
    + intros E. apply HX2. rewrite ids_app. apply in_or_app. right. left.
      symmetry. exact E.
Qed.

(** The scenario of the claim: [A] and [B] queued in that order, [A] fails
    once, [B] is completed. *)
Lemma C9_witness :
  let A := mkQueued "a" "Ann" None "s1" 0 0 in
  let B := mkQueued "b" "Bob" None "s2" 0 1 in
  let q := mkQueue [A; B] true (of_nat 3) in
  messageFailed q "a" (mkError "boom")
  = (mkQueue [B; bump A] true (of_nat 3), [EvProcessMessage B])
  /\ (exists t2 evs2,
        tracked_calls (mkTracked q [A])
          [CallFailed "a" (mkError "boom"); CallProcessed "b"; CallProcessed "a"]
        = Some (t2, evs2)
        /\ dispatched evs2 = [B; bump A]
        /\ completed evs2 = [B; bump A]
        /\ queue (mq t2) = []).
Proof.
  intros A B q.
  assert (Hids : NoDup (ids [A; B]))
    by (repeat constructor; simpl; intuition discriminate).
  pose proof (C9_fair_requeue (of_nat 3) A B [B] (mkError "boom") [CallProcessed "b"]
            (mkTracked (mkQueue [bump A] true (of_nat 3)) [bump A])
            [EvProcessMessage B; EvMessageCompleted B; EvProcessMessage (bump A)]
            (or_introl eq_refl) Hids eq_refl eq_refl eq_refl) as H.
  exact (conj (proj1 H) (proj1 (proj2 H))).
Defined.

End QueueFacts.

(* ===================================================================== *)
(** ** Properties of the pipeline *)
(* ===================================================================== *)

Module PipelineFacts.
Import Database Queue Config Pipeline.
Import DatabaseFacts QueueFacts.

(** *** What the collaborators' methods do to the world *)

(** The outcome of the DOM reads and the guard on the extracted text. *)
Definition scraped (a : Answers) : Result Extracted :=
  match scrape a with
  | Ok x =>
      if truthy (ex_tenantMessage x) then Ok x
      else Throw (mkError
             "Could not extract tenant message - page structure may have changed")
  | Throw e => Throw e
  end.

Definition launched (a : Answers) (r : PlaywrightResponder) : PlaywrightResponder :=
  if browser r && page r then r
  else match launch a with
       | Launched => mkResponder true true
       | LaunchThrows _ => r
       | ContextThrows _ => mkResponder true (page r)
       end.

Definition extracted (a : Answers) (r : PlaywrightResponder) : Result Extracted :=
  if browser r && page r then scraped a
  else match launch a with
       | Launched => scraped a
       | LaunchThrows e => Throw e
       | ContextThrows e => Throw e
       end.

Definition generated (a : Answers) : Result string :=
  match llm a with
  | FetchThrows e => Throw e
  | NotOk status_line => Throw (mkError ("LLM API error: " ++ status_line))
  | Reply response =>
      if truthy response then Ok response
      else Throw (mkError "LLM API returned empty response")
  end.

Definition typed (a : Answers) (r : PlaywrightResponder) : Result unit :=
  if page r then typing a else Throw (mkError "Browser not initialized").

(** The responder after a [closeBrowser] call in which [browser.close()]
    answers [answer]. *)
Definition closed (answer : Result unit) (r : PlaywrightResponder) : PlaywrightResponder :=
  if browser r then
    match answer with
    | Ok _ => mkResponder false false
    | Throw _ => r
    end
  else r.

(** What that [closeBrowser] call returns. *)
Definition close_result (answer : Result unit) (r : PlaywrightResponder) : Result unit :=
  if browser r then
    match answer with
    | Ok _ => Ok tt
    | Throw e => Throw e
    end
  else Ok tt.

Lemma closed_browser answer r :
  browser (closed answer r)
  = match close_result answer r with Ok _ => false | Throw _ => true end.
Proof.
  unfold closed, close_result. destruct (browser r) eqn:E; [|exact E].
  destruct answer; [reflexivity|exact E].
Qed.

Lemma extract_shape a d q r aw :
  extractLatestMessage a (mkWorld d q r aw)
  = (mkWorld d q (launched a r) aw, [], extracted a r).
Proof.
  unfold extractLatestMessage, try_catch, bind, launchBrowser, launched, extracted, scraped.
  simpl. destruct (browser r && page r); simpl.
  - unfold lift. destruct (scrape a) as [x|e]; simpl; [|reflexivity].
    destruct (truthy (ex_tenantMessage x)); reflexivity.
  - destruct (launch a) as [|e|e]; simpl; try reflexivity.
    unfold lift. destruct (scrape a) as [x|e]; simpl; [|reflexivity].
    destruct (truthy (ex_tenantMessage x)); reflexivity.
Qed.

Lemma generate_shape a n m e w :
  generateResponse a n m e w = (w, [], generated a).
Proof.
  unfold generateResponse, try_catch, generated.
  destruct (llm a) as [e'|s|resp]; try reflexivity.
  destruct (truthy resp); reflexivity.
Qed.

Lemma send_shape a text w :
  sendResponse a text w = (w, [], typed a (w_responder w)).
Proof.
  unfold sendResponse, try_catch, typed.
  destruct (page (w_responder w)); simpl; [|reflexivity].
  unfold lift. destruct (typing a); reflexivity.
Qed.

Lemma close_shape answer d q r aw :
  closeBrowser answer (mkWorld d q r aw)
  = (mkWorld d q (closed answer r) aw, [FxCloseBrowser], close_result answer r).
Proof.
  unfold closeBrowser, bind, log, lift, closed, close_result. simpl.
  destruct (browser r) eqn:E; [|reflexivity].
  destruct answer as [[]|e]; reflexivity.
Qed.

(** The guarded call of the [catch] clause. *)
Lemma close_caught_shape answer d q r aw :
  try_catch (closeBrowser answer) (fun _ => ret tt) (mkWorld d q r aw)
  = (mkWorld d q (closed answer r) aw, [FxCloseBrowser], Ok tt).
Proof.
  unfold try_catch. rewrite close_shape.
  destruct (close_result answer r) as [[]|e]; reflexivity.
Qed.

(** *** The listeners *)

(** The columns that hold the inquiry text and the conversation handle. *)
Definition texts (d : MessageDatabase) : list (string * string * option string) :=
  map (fun r => (gmail_message_id r, tenant_message r, ff_conversation_url r)) (all_rows d).

Lemma texts_updateStatus d now g st err :
  texts (updateStatus d now g st err) = texts d.
Proof.
  unfold texts, updateStatus, all_rows. destruct (db d) as [t|] eqn:E; [|rewrite E; reflexivity].
  simpl. rewrite map_map. apply map_ext. intros r.
  destruct (has_gmail_id g r); reflexivity.
Qed.

Lemma texts_updateResponse d g response :
  texts (updateResponse d g response) = texts d.
Proof.
  unfold texts, updateResponse, all_rows. destruct (db d) as [t|] eqn:E; [|rewrite E; reflexivity].
  simpl. rewrite map_map. apply map_ext. intros r.
  destruct (has_gmail_id g r); reflexivity.
Qed.

(** The effects that the listeners can produce. *)
Definition from_listener (fx : Effect) : Prop :=
  match fx with
  | FxEmit _ => True
  | FxStatus _ _ st _ => st = Database.processing
  | FxNotify (SystemError _ _) => True
  | _ => False
  end.

Lemma bind_run {A B} (c : M A) (k : A -> M B) (w : World) :
  bind c k w
  = match c w with
    | (w1, fx1, Ok a) => let '(w2, fx2, r) := k a w1 in (w2, fx1 ++ fx2, r)
    | (w1, fx1, Throw e) => (w1, fx1, Throw e)
    end.
Proof. reflexivity. Qed.

Lemma listener_keeps now ev w :
  let c := (log (FxEmit ev) ;; listener now ev) w in
  result_of c = Ok tt
  /\ w_responder (world_of c) = w_responder w
  /\ w_queue (world_of c) = w_queue w
  /\ texts (w_db (world_of c)) = texts (w_db w)
  /\ Forall from_listener (effects_of c).
Proof.
  destruct ev as [m|m|m|m e]; unfold bind, log, listener; simpl;
    repeat split; auto; try (repeat constructor; fail).
  apply texts_updateStatus.
Qed.

Lemma emit_keeps now evs : forall w,
  result_of (emit now evs w) = Ok tt
  /\ w_responder (world_of (emit now evs w)) = w_responder w
  /\ w_queue (world_of (emit now evs w)) = w_queue w
  /\ texts (w_db (world_of (emit now evs w))) = texts (w_db w)
  /\ Forall from_listener (effects_of (emit now evs w)).
Proof.
  induction evs as [|ev evs IH]; intros w.
  - simpl. repeat split; auto.
  - unfold emit in *. cbn [for_each]. rewrite bind_run.
    pose proof (listener_keeps now ev w) as Hc. cbv zeta in Hc.
    destruct ((log (FxEmit ev) ;; listener now ev) w) as [[w1 fx1] r1].
    unfold result_of, world_of, effects_of in Hc. simpl in Hc.
    destruct Hc as (-> & Hr & Hq & Ht & Hf).
    specialize (IH w1). destruct (for_each evs _ w1) as [[w2 fx2] r2].
    unfold result_of, world_of, effects_of in *. simpl in *.
    destruct IH as (-> & Hr2 & Hq2 & Ht2 & Hf2).
    repeat split; try congruence. apply Forall_app. auto.
Qed.

Lemma on_queue_keeps now f w :
  result_of (on_queue now f w) = Ok tt
  /\ w_responder (world_of (on_queue now f w)) = w_responder w
  /\ texts (w_db (world_of (on_queue now f w))) = texts (w_db w)
  /\ Forall from_listener (effects_of (on_queue now f w)).
Proof.
  unfold on_queue. destruct (f (w_queue w)) as [q evs].
  destruct (emit_keeps now evs (mkWorld (w_db w) q (w_responder w) (w_awaiting w)))
    as (H1 & H2 & _ & H4 & H5).
  auto.
Qed.

(** *** A run of [processMessage] in normal form *)

Inductive Signal := Completes | Fails (e : Error).

(** What one run does apart from its call on the queue: the state of the
    responder at the end, the effects before the status write, the texts
    it passes to [updateResponse], the status it writes with its error
    argument, the notification that follows, and the signal. *)
Record Summary := mkSummary {
  s_responder : PlaywrightResponder;
  s_before : list Effect;
  s_texts : list string;
  s_status : Status;
  s_err : option string;
  s_after : list Effect;
  s_signal : Signal
}.

Definition failure (a : Answers) (message : QueuedMessage) (r : PlaywrightResponder)
           (before : list Effect) (responses : list string) (e : Error) : Summary :=
  mkSummary (closed (closing_in_catch a) r) (before ++ [FxCloseBrowser]) responses
            failed (Some (Js.message e))
            [FxNotify (classify e message)] (Fails e).

Definition name_matches (x : Extracted) (message : QueuedMessage) : bool :=
  includes (toLowerCase (ex_tenantName x)) (toLowerCase (tenantName message))
  || includes (toLowerCase (tenantName message)) (toLowerCase (ex_tenantName x)).

Definition mismatch (x : Extracted) (message : QueuedMessage) : list Effect :=
  if name_matches x message then []
  else [FxNotify (MessageMismatch (gmailMessageId message) (tenantName message))].

Definition summary (cfg : SafetyConfig) (a : Answers) (message : QueuedMessage)
           (r : PlaywrightResponder) : Summary :=
  let g := gmailMessageId message in
  let r1 := launched a r in
  match extracted a r with
  | Throw e => failure a message r1 [] [] e
  | Ok x =>
      let fx1 := mismatch x message ++ [FxResponse g (ex_tenantMessage x)] in
      match generated a with
      | Throw e => failure a message r1 fx1 [ex_tenantMessage x] e
      | Ok text =>
          let fx2 := fx1 ++ [FxResponse g text] in
          if AUTO_SEND_ENABLED cfg then
            match typed a r1 with
            | Throw e => failure a message r1 fx2 [ex_tenantMessage x; text] e
            | Ok _ =>
                match close_result (closing a) r1 with
                | Throw e =>
                    failure a message (closed (closing a) r1) (fx2 ++ [FxCloseBrowser])
                            [ex_tenantMessage x; text] e
                | Ok _ =>
                    mkSummary (closed (closing a) r1) (fx2 ++ [FxCloseBrowser])
                              [ex_tenantMessage x; text] sent None
                              [FxNotify (Success (ex_tenantName x) text)] Completes
                end
            end
          else
            let fx3 := fx2 ++ [FxApproval (ex_tenantName x) (ex_tenantMessage x) text
                                          (ex_conversationUrl x);
                               FxCloseBrowser] in
            match close_result (closing a) r1 with
            | Throw e =>
                failure a message (closed (closing a) r1) fx3 [ex_tenantMessage x; text] e
            | Ok _ =>
                mkSummary (closed (closing a) r1) fx3
                          [ex_tenantMessage x; text] pending None [] Completes
            end
      end
  end.

Definition write_all (g : string) (responses : list string) (d : MessageDatabase)
  : MessageDatabase :=
  fold_left (fun d response => updateResponse d g response) responses d.

Definition assemble (now : Timestamp) (g : string) (s : Summary) : M unit :=
  fun w =>
    let d1 := write_all g (s_texts s) (w_db w) in
    let w2 := mkWorld (updateStatus d1 now g (s_status s) (s_err s))
                      (w_queue w) (s_responder s) (w_awaiting w) in
    let out := on_queue now
                 (match s_signal s with
                  | Completes => fun q => messageProcessed q g
                  | Fails e => fun q => messageFailed q g e
                  end) w2 in
    (world_of out,
     s_before s
     ++ [FxStatus g (map status (rows_with d1 g)) (s_status s) (s_err s)]
     ++ s_after s
     ++ [match s_signal s with Completes => FxProcessed g | Fails e => FxFailed g e end]
     ++ effects_of out
     ++ match s_signal s with Completes => [] | Fails e => [FxRethrow e] end,
     match s_signal s with Completes => Ok tt | Fails e => Throw e end).

Lemma try_run {A} (body : M A) (handler : Error -> M A) (w : World) :
  try_catch body handler w
  = match body w with
    | (w1, fx1, Ok a) => (w1, fx1, Ok a)
    | (w1, fx1, Throw e) => let '(w2, fx2, r) := handler e w1 in (w2, fx1 ++ fx2, r)
    end.
Proof. reflexivity. Qed.

Ltac run_queue oq Hoq :=
  match goal with
  | |- context [oq ?f ?w] =>
      let w3 := fresh "w" in let fx3 := fresh "fx" in let r3 := fresh "r" in
      let E := fresh "E" in
      pose proof (Hoq f w) as E;
      destruct (oq f w) as [[w3 fx3] r3];
      unfold result_of in E; simpl in E; subst r3
  end.

Lemma resume_assemble cfg now a message w :
  processMessage_resume cfg now a message w
  = assemble now (gmailMessageId message) (summary cfg a message (w_responder w)) w.
Proof.
  destruct w as [d q r aw].
  unfold processMessage_resume, summary, on_error, mq_messageProcessed, mq_messageFailed,
    assemble, failure, mismatch.
  cbn [w_responder]. rewrite try_run, bind_run, extract_shape.
  pose proof (fun f w => proj1 (on_queue_keeps now f w)) as Hoq.
  revert Hoq. generalize (on_queue now). intros oq Hoq.
  change (includes (toLowerCase (ex_tenantName ?x)) (toLowerCase (tenantName message))
          || includes (toLowerCase (tenantName message)) (toLowerCase (ex_tenantName ?x)))
    with (name_matches x message).
  cbv zeta.
  destruct (extracted a r) as [x|e];
    [ rewrite bind_run; destruct (name_matches x message);
      unfold notify, ret, log; cbn [negb];
      rewrite bind_run; unfold db_updateResponse at 1;
      cbn [w_db w_queue w_responder w_awaiting];
      rewrite bind_run, generate_shape;
      (destruct (generated a) as [text|e];
       [ rewrite bind_run; unfold db_updateResponse at 1;
         cbn [w_db w_queue w_responder w_awaiting];
         destruct (AUTO_SEND_ENABLED cfg);
         [ rewrite bind_run, send_shape; cbn [w_responder];
           destruct (typed a (launched a r)) as [[]|e];
           [ rewrite bind_run, close_shape;
             destruct (close_result (closing a) (launched a r)) as [[]|e] | ]
         | unfold sendResponseForApproval, log; rewrite !bind_run, close_shape;
           destruct (close_result (closing a) (launched a r)) as [[]|e] ]
       | ])
    | ];
    repeat (rewrite bind_run; try rewrite close_caught_shape;
            unfold sendResponseForApproval, notify, log, db_updateStatus, throw, ret);
    cbn [w_db w_queue w_responder w_awaiting s_texts s_status s_err s_signal s_responder
         s_before s_after write_all fold_left];
    run_queue oq Hoq;
    unfold world_of, effects_of; simpl; rewrite <- ?app_assoc; simpl;
    rewrite ?app_nil_r; reflexivity.
Qed.

(** *** Status of the records of an id *)

Definition statuses (d : MessageDatabase) (g : string) : list Status :=
  map status (rows_with d g).

Lemma filter_map_same {A} (p : A -> bool) (f : A -> A) (l : list A) :
  (forall x, p (f x) = p x) -> filter p (map f l) = map f (filter p l).
Proof.
  intros H. induction l as [|x l IH]; simpl; [reflexivity|].
  rewrite H. destruct (p x); simpl; rewrite IH; reflexivity.
Qed.

Lemma rows_with_update_where g g' f t :
  (forall r, gmail_message_id (f r) = gmail_message_id r) ->
  filter (has_gmail_id g') (rows (update_where g f t))
  = map (fun r => if has_gmail_id g r then f r else r) (filter (has_gmail_id g') (rows t)).
Proof.
  intros Hf. unfold update_where. simpl. apply filter_map_same.
  intros r. unfold has_gmail_id. destruct (gmail_message_id r =? g)%string; [|reflexivity].
  rewrite Hf. reflexivity.
Qed.

Lemma statuses_updateStatus d now g st err g' :
  statuses (updateStatus d now g st err) g'
  = if (g =? g')%string then map (fun _ => st) (statuses d g') else statuses d g'.
Proof.
  unfold statuses, rows_with, all_rows, updateStatus.
  destruct (db d) as [t|] eqn:E; cbn [db].
  - rewrite rows_with_update_where by reflexivity. rewrite !map_map.
    destruct (String.eqb_spec g g') as [<-|Hne].
    + apply map_ext_in. intros r Hr. apply filter_In in Hr. destruct Hr as [_ Hr].
      rewrite Hr. reflexivity.
    + apply map_ext_in. intros r Hr. apply filter_In in Hr. destruct Hr as [_ Hr].
      apply has_gmail_id_true in Hr.
      replace (has_gmail_id g r) with false; [reflexivity|].
      symmetry. unfold has_gmail_id. apply String.eqb_neq. congruence.
  - rewrite E. simpl. destruct (g =? g')%string; reflexivity.
Qed.

Lemma statuses_updateResponse d g response g' :
  statuses (updateResponse d g response) g' = statuses d g'.
Proof.
  unfold statuses, rows_with, all_rows, updateResponse.
  destruct (db d) as [t|] eqn:E; cbn [db]; [|rewrite E; reflexivity].
  rewrite rows_with_update_where by reflexivity. rewrite !map_map.
  apply map_ext. intros r. destruct (has_gmail_id g r); reflexivity.
Qed.

Lemma statuses_write_all g responses : forall d g',
  statuses (write_all g responses d) g' = statuses d g'.
Proof.
  induction responses as [|t l IH]; intros d g'; [reflexivity|].
  change (write_all g (t :: l) d) with (write_all g l (updateResponse d g t)).
  rewrite IH. apply statuses_updateResponse.
Qed.

Lemma texts_write_all g responses : forall d,
  texts (write_all g responses d) = texts d.
Proof.
  induction responses as [|t l IH]; intros d; [reflexivity|].
  change (write_all g (t :: l) d) with (write_all g l (updateResponse d g t)).
  rewrite IH. apply texts_updateResponse.
Qed.

(** What [updateStatus] records in the rows of the id. *)
Lemma updateStatus_sets d now g st err row :
  In row (rows_with (updateStatus d now g st err) g) ->
  status row = st /\ error row = or_null err.
Proof.
  unfold rows_with, all_rows, updateStatus.
  destruct (db d) as [t|] eqn:E; cbn [db].
  - rewrite rows_with_update_where by reflexivity. intros H.
    apply in_map_iff in H. destruct H as (r & <- & Hr).
    apply filter_In in Hr. destruct Hr as [_ Hr]. rewrite Hr. simpl. auto.
  - rewrite E. simpl. intros [].
Qed.

(** *** The queue's methods when the item is at the head *)

(** [processNext] and the [processMessage] listener, after a queue method
    has left the items [l]. *)
Definition hand_next (now : Timestamp) (d : MessageDatabase) (l : list QueuedMessage)
           (n : Number) (resp : PlaywrightResponder) (aw : list QueuedMessage)
           (fx : list Effect) : World * list Effect * Result unit :=
  match l with
  | [] => (mkWorld d (mkQueue [] false n) resp aw, fx, Ok tt)
  | h :: _ =>
      (mkWorld (updateStatus d now (gmailMessageId h) Database.processing None)
               (mkQueue l true n) resp (aw ++ [h]),
       fx ++ [FxEmit (EvProcessMessage h);
              FxStatus (gmailMessageId h) (statuses d (gmailMessageId h))
                       Database.processing None],
       Ok tt)
  end.

Lemma on_queue_processed now g d h r b n resp aw :
  has_id g h = true ->
  on_queue now (fun q => messageProcessed q g) (mkWorld d (mkQueue (h :: r) b n) resp aw)
  = hand_next now d r n resp aw [FxEmit (EvMessageCompleted h)].
Proof.
  intros Hg. unfold on_queue, messageProcessed. simpl. rewrite Hg. simpl.
  destruct r as [|h' r']; reflexivity.
Qed.

Lemma on_queue_failed now g e d h r b n resp aw :
  has_id g h = true ->
  on_queue now (fun q => messageFailed q g e) (mkWorld d (mkQueue (h :: r) b n) resp aw)
  = if at_least (S (retryCount h)) n
    then hand_next now d r n resp aw
           [FxEmit (EvMessageFailed (bump h) e);
            FxNotify (SystemError e
              ("Max retries exceeded for message from " ++ tenantName h))]
    else hand_next now d (r ++ [bump h]) n resp aw [].
Proof.
  intros Hg. unfold on_queue, messageFailed. simpl. rewrite Hg. simpl.
  destruct (at_least (S (retryCount h)) n); destruct r as [|h' r']; reflexivity.
Qed.

Lemma on_queue_enqueue now m d l n resp aw :
  let item := mkQueued (new_gmailMessageId m) (new_tenantName m)
                       (new_tenantEmail m) (new_tenantMessage m) 0 now in
  on_queue now (fun q => enqueue q now m) (mkWorld d (mkQueue l (nonempty l) n) resp aw)
  = match l with
    | [] => hand_next now d [item] n resp aw [FxEmit (EvMessageAdded item)]
    | _ :: _ => (mkWorld d (mkQueue (l ++ [item]) true n) resp aw,
                 [FxEmit (EvMessageAdded item)], Ok tt)
    end.
Proof.
  intros item. unfold on_queue, enqueue. simpl. destruct l as [|h r]; reflexivity.
Qed.

(** *** Whole runs of [processMessage] *)

Lemma processMessage_run cfg now a message d q r aw :
  processMessage cfg now a message (mkWorld d q r aw)
  = let out := assemble now (gmailMessageId message) (summary cfg a message r)
                 (mkWorld (updateStatus d now (gmailMessageId message)
                             Database.processing None) q r aw) in
    (world_of out,
     FxStatus (gmailMessageId message) (statuses d (gmailMessageId message))
              Database.processing None :: effects_of out,
     result_of out).
Proof.
  unfold processMessage. rewrite bind_run. unfold db_updateStatus at 1.
  cbn [w_db w_queue w_responder w_awaiting]. rewrite resume_assemble.
  cbn [w_responder]. destruct (assemble _ _ _ _) as [[w2 fx2] r2]. reflexivity.
Qed.

Lemma result_of_extract a d q r aw :
  result_of (extractLatestMessage a (mkWorld d q r aw)) = extracted a r.
Proof. rewrite extract_shape. reflexivity. Qed.

Lemma result_of_generate a n m e w :
  result_of (generateResponse a n m e w) = generated a.
Proof. rewrite generate_shape. reflexivity. Qed.

(** The inquiry of the scenario, as the mail provider lists it. *)
Definition nancy_mail : MailMessage :=
  mkMail "m1"
    (Ok [("Date", Some "Mon, 3 Nov 2025 10:00:00 +0000");
         ("Subject", Some "Booking Inquiry from Nancy E");
         ("From", Some "Furnished Finder <noreply@furnishedfinder.com>")]).

Definition nancy_answers : Answers :=
  mkAnswers Launched
    (Ok (mkExtracted "Nancy E" "Hi, is the place pet friendly?"
                     "https://www.furnishedfinder.com/members/tenant-message/42"))
    (Reply "Yes, we welcome well-behaved pets...")
    (Ok tt) (Ok tt) (Ok tt).

(** Test mode off, approval instead of automatic sending. *)
Definition approval_config : SafetyConfig := mkSafety false "Patrick M" false true.

Definition approvals (fx : list Effect) : list Effect :=
  filter (fun e => match e with FxApproval _ _ _ _ => true | _ => false end) fx.

Definition signals (fx : list Effect) : list Effect :=
  filter (fun e => match e with FxProcessed _ | FxFailed _ _ => true | _ => false end) fx.

(** The scenario from the poll tick to the end of the run. *)
Example nancy_end_to_end :
  let out := run approval_config [Tick 10 (Ok [nancy_mail]); Resume 20 nancy_answers]
                 (boot fresh (of_nat 3)) in
  all_rows (w_db (world_of out))
  = [mkMessage (Some 1) "m1" "Nancy E" (Some "noreply@furnishedfinder.com")
               "Booking Inquiry from Nancy E"
               (Some "Yes, we welcome well-behaved pets...")
               pending (Some 10) (Some 20) None None]
  /\ approvals (effects_of out)
     = [FxApproval "Nancy E" "Hi, is the place pet friendly?"
                   "Yes, we welcome well-behaved pets..."
                   "https://www.furnishedfinder.com/members/tenant-message/42"]
  /\ w_queue (world_of out) = mkQueue [] false (of_nat 3)
  /\ w_awaiting (world_of out) = []
  /\ result_of out = Ok tt.
Proof. repeat split; reflexivity. Qed.

(** C3 (what the code does). No run of [processMessage], whatever the
    collaborators answer, changes the [tenant_message] or the
    [ff_conversation_url] column of any record: the extracted text goes to
    [our_response] through [updateResponse] and the conversation URL is
    only passed to the approval notification. *)
Theorem C3_extracted_text_and_url_not_persisted
  (cfg : SafetyConfig) (now : Timestamp) (a : Answers) (message : QueuedMessage)
  (w : World) :
  texts (w_db (world_of (processMessage cfg now a message w))) = texts (w_db w).
Proof.
  destruct w as [d q r aw]. rewrite processMessage_run. cbv zeta.
  unfold world_of at 1. cbn [fst]. unfold assemble. cbv zeta.
  unfold world_of at 1. cbn [fst].
  destruct (on_queue_keeps now
    (match s_signal (summary cfg a message r) with
     | Completes => fun q0 => messageProcessed q0 (gmailMessageId message)
     | Fails e => fun q0 => messageFailed q0 (gmailMessageId message) e
     end)
    (mkWorld
       (updateStatus
          (write_all (gmailMessageId message) (s_texts (summary cfg a message r))
             (w_db (mkWorld (updateStatus d now (gmailMessageId message)
                               Database.processing None) q r aw)))
          now (gmailMessageId message) (s_status (summary cfg a message r))
          (s_err (summary cfg a message r)))
       (w_queue (mkWorld (updateStatus d now (gmailMessageId message)
                            Database.processing None) q r aw))
       (s_responder (summary cfg a message r))
       (w_awaiting (mkWorld (updateStatus d now (gmailMessageId message)
                               Database.processing None) q r aw))))
    as (_ & _ & Ht & _).
  rewrite Ht. cbn [w_db].
  rewrite texts_updateStatus, texts_write_all, texts_updateStatus. reflexivity.
Qed.

Example nancy_text_not_upgraded :
  let out := run approval_config [Tick 10 (Ok [nancy_mail]); Resume 20 nancy_answers]
                 (boot fresh (of_nat 3)) in
  map tenant_message (all_rows (w_db (world_of out))) = ["Booking Inquiry from Nancy E"]
  /\ map ff_conversation_url (all_rows (w_db (world_of out))) = [None].
Proof. split; reflexivity. Qed.

Lemma approvals_app a b : approvals (a ++ b) = approvals a ++ approvals b.
Proof. apply filter_app. Qed.

Lemma signals_app a b : signals (a ++ b) = signals a ++ signals b.
Proof. apply filter_app. Qed.

Lemma approvals_mismatch x message : approvals (mismatch x message) = [].
Proof. unfold mismatch. destruct (name_matches x message); reflexivity. Qed.

Lemma signals_mismatch x message : signals (mismatch x message) = [].
Proof. unfold mismatch. destruct (name_matches x message); reflexivity. Qed.

Lemma from_listener_quiet fx :
  Forall from_listener fx -> approvals fx = [] /\ signals fx = [].
Proof.
  induction 1 as [|e l He _ [IH1 IH2]]; [split; reflexivity|].
  destruct e; try destruct He; simpl; auto.
Qed.

Lemma result_of_close answer a d q r aw :
  result_of (closeBrowser answer (world_of (extractLatestMessage a (mkWorld d q r aw))))
  = close_result answer (launched a r).
Proof. rewrite extract_shape. unfold world_of. cbn [fst]. rewrite close_shape. reflexivity. Qed.

(** What the claim promises of a run of [processMessage] on the approval
    path: the run returns normally, makes exactly one approval call with
    the extracted name and message, the generated text and the
    conversation URL, signals [messageProcessed] for the item and nothing
    else to the queue, and, with the item at the head of the queue and
    queued once, leaves every record of the item with status [pending] and
    the queue with the items that were behind it. *)
Definition approval_path (cfg : SafetyConfig) (now : Timestamp) (a : Answers)
           (message : QueuedMessage) (w : World) (x : Extracted) (text : string) : Prop :=
  let out := processMessage cfg now a message w in
  result_of out = Ok tt
  /\ approvals (effects_of out)
     = [FxApproval (ex_tenantName x) (ex_tenantMessage x) text (ex_conversationUrl x)]
  /\ signals (effects_of out) = [FxProcessed (gmailMessageId message)]
  /\ (forall rest,
        queue (w_queue w) = message :: rest ->
        ~ In (gmailMessageId message) (ids rest) ->
        statuses (w_db (world_of out)) (gmailMessageId message)
        = map (fun _ => pending) (statuses (w_db w) (gmailMessageId message))
        /\ queue (w_queue (world_of out)) = rest).

(** The literal scenario: inquiry "m1" of "Nancy E", inserted and queued by
    the Poller, alone in the queue. *)
Definition nancy_record : MessageDatabase :=
  fst (insertMessage fresh 10
         (mkMessage None "m1" "Nancy E" None "Booking Inquiry from Nancy E"
                    None pending None None None None)).

Definition nancy_item : QueuedMessage :=
  mkQueued "m1" "Nancy E" None "Booking Inquiry from Nancy E" 0 10.

Definition nancy_world : World :=
  mkWorld nancy_record (mkQueue [nancy_item] true (of_nat 3)) (mkResponder false false) [].

(** The same answers, except that [browser.close()] rejects in the [try]
    block. *)
Definition close_fails : Answers :=
  mkAnswers Launched
    (Ok (mkExtracted "Nancy E" "Hi, is the place pet friendly?"
                     "https://www.furnishedfinder.com/members/tenant-message/42"))
    (Reply "Yes, we welcome well-behaved pets...")
    (Ok tt) (Throw (mkError "Target closed")) (Ok tt).

(** C7 (as worded). Auto-send is off and extraction and generation
    succeed, but [browser.close()] rejects in the [closeBrowser] call that
    follows the approval call: [processMessage] awaits it inside the [try]
    block, so the [catch] clause runs.  The run rejects, the status written
    is [failed], the queue is signalled [messageFailed] and keeps the item
    for a retry. *)
Lemma C7_counterexample_close_rejects :
  let x := mkExtracted "Nancy E" "Hi, is the place pet friendly?"
             "https://www.furnishedfinder.com/members/tenant-message/42" in
  let text := "Yes, we welcome well-behaved pets..." in
  let out := processMessage approval_config 20 close_fails nancy_item nancy_world in
  AUTO_SEND_ENABLED approval_config = false
  /\ result_of (extractLatestMessage close_fails nancy_world) = Ok x
  /\ result_of (generateResponse close_fails (ex_tenantName x) (ex_tenantMessage x)
                  (tenantEmail nancy_item) nancy_world) = Ok text
  /\ ~ approval_path approval_config 20 close_fails nancy_item nancy_world x text
  /\ result_of out = Throw (mkError "Target closed")
  /\ signals (effects_of out) = [FxFailed "m1" (mkError "Target closed")]
  /\ In (FxStatus "m1" [Database.processing] failed (Some "Target closed")) (effects_of out)
  /\ queue (w_queue (world_of out)) = [bump nancy_item].
Proof.
  cbv zeta. split; [reflexivity|]. split; [reflexivity|]. split; [reflexivity|].
  split; [|split; [reflexivity|split; [reflexivity|split; [|reflexivity]]]].
  - intros (H & _). discriminate H.
  - vm_compute. auto 20.
Qed.

(** C7 (amended). With [AUTO_SEND_ENABLED] off, let extraction and
    generation succeed in a run of [processMessage], and let the
    [closeBrowser] call that follows the approval call resolve.  The run
    returns normally; it makes exactly one approval call, with the
    extracted name and message, the generated text and the conversation
    URL; its only signal to the queue is [messageProcessed] for the item.
    When the item is at the head of the queue and no other queued item has
    its id (as for every item the queue hands over), every record of the
    item ends with status [pending], and the queue is left with the items
    that were behind the item, so it is empty when the item was alone. *)
Theorem C7_approval_path
  (cfg : SafetyConfig) (now : Timestamp) (a : Answers) (message : QueuedMessage)
  (w : World) (x : Extracted) (text : string)
  (Hauto : AUTO_SEND_ENABLED cfg = false)
  (Hextract : result_of (extractLatestMessage a w) = Ok x)
  (Hgenerate : result_of (generateResponse a (ex_tenantName x) (ex_tenantMessage x)
                            (tenantEmail message) w) = Ok text)
  (Hclose : result_of (closeBrowser (closing a) (world_of (extractLatestMessage a w)))
            = Ok tt) :
  let out := processMessage cfg now a message w in
  result_of out = Ok tt
  /\ approvals (effects_of out)
     = [FxApproval (ex_tenantName x) (ex_tenantMessage x) text (ex_conversationUrl x)]
  /\ signals (effects_of out) = [FxProcessed (gmailMessageId message)]
  /\ (forall rest,
        queue (w_queue w) = message :: rest ->
        ~ In (gmailMessageId message) (ids rest) ->
        statuses (w_db (world_of out)) (gmailMessageId message)
        = map (fun _ => pending) (statuses (w_db w) (gmailMessageId message))
        /\ queue (w_queue (world_of out)) = rest).
Proof.
  destruct w as [d q r aw].
  rewrite result_of_close in Hclose.
  rewrite result_of_extract in Hextract. rewrite result_of_generate in Hgenerate.
  intros out. subst out. rewrite processMessage_run. cbv zeta.
  unfold summary. rewrite Hextract, Hgenerate, Hauto. cbv zeta. rewrite Hclose.
  unfold assemble. cbn [s_texts s_status s_err s_signal s_responder s_before s_after
                        w_db w_queue w_responder w_awaiting].
  set (d2 := updateStatus _ now (gmailMessageId message) pending None).
  set (resp := closed (closing a) (launched a r)).
  assert (Hd2 : statuses d2 (gmailMessageId message)
                = map (fun _ => pending) (statuses d (gmailMessageId message))).
  { subst d2. rewrite statuses_updateStatus, String.eqb_refl.
    rewrite statuses_write_all, statuses_updateStatus, String.eqb_refl.
    rewrite map_map. reflexivity. }
  split; [reflexivity|]. split; [|split; [|]].
  - destruct (on_queue_keeps now (fun q0 => messageProcessed q0 (gmailMessageId message))
                (mkWorld d2 q resp aw)) as (_ & _ & _ & Hfx).
    apply from_listener_quiet in Hfx. destruct Hfx as [Ha _].
    unfold effects_of in *. cbn [fst snd] in *.
    change (approvals (?e :: ?l)) with (approvals l).
    rewrite !approvals_app, approvals_mismatch, Ha. reflexivity.
  - destruct (on_queue_keeps now (fun q0 => messageProcessed q0 (gmailMessageId message))
                (mkWorld d2 q resp aw)) as (_ & _ & _ & Hfx).
    apply from_listener_quiet in Hfx. destruct Hfx as [_ Hs].
    unfold effects_of in *. cbn [fst snd] in *.
    change (signals (?e :: ?l)) with (signals l).
    rewrite !signals_app, signals_mismatch, Hs. reflexivity.
  - intros rest Hq Hid. destruct q as [l b n]. cbn [queue] in Hq. subst l.
    rewrite on_queue_processed by apply has_id_self.
    unfold world_of. cbn [fst snd].
    destruct rest as [|h rest']; cbn [hand_next fst w_db w_queue queue]; [auto|].
    split; [|reflexivity].
    rewrite statuses_updateStatus.
    destruct (String.eqb_spec (gmailMessageId h) (gmailMessageId message)) as [E|_];
      [|exact Hd2].
    exfalso. apply Hid. left. exact E.
Qed.

(** The literal scenario, with [browser.close()] resolving. *)
Lemma C7_witness :
  let out := processMessage approval_config 20 nancy_answers nancy_item nancy_world in
  result_of out = Ok tt
  /\ approvals (effects_of out)
     = [FxApproval "Nancy E" "Hi, is the place pet friendly?"
                   "Yes, we welcome well-behaved pets..."
                   "https://www.furnishedfinder.com/members/tenant-message/42"]
  /\ signals (effects_of out) = [FxProcessed "m1"]
  /\ (forall rest,
        [nancy_item] = nancy_item :: rest ->
        ~ In "m1" (ids rest) ->
        statuses (w_db (world_of out)) "m1"
        = map (fun _ => pending) (statuses nancy_record "m1")
        /\ queue (w_queue (world_of out)) = rest).
Proof.
  exact (C7_approval_path approval_config 20 nancy_answers nancy_item nancy_world
           (mkExtracted "Nancy E" "Hi, is the place pet friendly?"
              "https://www.furnishedfinder.com/members/tenant-message/42")
           "Yes, we welcome well-behaved pets..."
           eq_refl eq_refl eq_refl eq_refl).
Defined.

Example nancy_ends_pending :
  let d := fst (insertMessage fresh 10
             (mkMessage None "m1" "Nancy E" None "Booking Inquiry from Nancy E"
                        None pending None None None None)) in
  let message := mkQueued "m1" "Nancy E" None "Booking Inquiry from Nancy E" 0 10 in
  let out := processMessage approval_config 20 nancy_answers message
               (mkWorld d (mkQueue [message] true (of_nat 3)) (mkResponder false false) []) in
  statuses (w_db (world_of out)) "m1" = [pending]
  /\ queue (w_queue (world_of out)) = []
  /\ List.length (approvals (effects_of out)) = 1.
Proof. repeat split; reflexivity. Qed.

(** *** The error path *)

Lemma signals_before x message g t :
  signals (mismatch x message ++ [FxResponse g t]) = [].
Proof. rewrite signals_app, signals_mismatch. reflexivity. Qed.

(** A run signals failure only through the [catch] clause. *)
Lemma summary_fails cfg a message r e :
  s_signal (summary cfg a message r) = Fails e ->
  exists r1 before responses,
    summary cfg a message r = failure a message r1 before responses e
    /\ signals before = [].
Proof.
  unfold summary. cbv zeta. destruct (extracted a r) as [x|e1].
  - destruct (generated a) as [text|e2].
    + destruct (AUTO_SEND_ENABLED cfg).
      * destruct (typed a (launched a r)) as [[]|e3].
        -- destruct (close_result (closing a) (launched a r)) as [[]|e4];
             simpl; intros H; [discriminate|].
           injection H as <-. eexists _, _, _. split; [reflexivity|].
           rewrite !signals_app, signals_mismatch. reflexivity.
        -- simpl. intros H. injection H as <-. eexists _, _, _. split; [reflexivity|].
           rewrite signals_app, signals_before. reflexivity.
      * destruct (close_result (closing a) (launched a r)) as [[]|e4];
          simpl; intros H; [discriminate|].
        injection H as <-. eexists _, _, _. split; [reflexivity|].
        rewrite !signals_app, signals_mismatch. reflexivity.
    + simpl. intros H. injection H as <-. eexists _, _, _. split; [reflexivity|].
      apply signals_before.
  - simpl. intros H. injection H as <-. eexists _, _, _. split; reflexivity.
Qed.

Lemma result_of_assemble now g s w :
  result_of (assemble now g s w)
  = match s_signal s with Completes => Ok tt | Fails e => Throw e end.
Proof. reflexivity. Qed.

Definition failing_answers : Answers :=
  mkAnswers Launched
    (Ok (mkExtracted "Nancy E" "Hi, is the place pet friendly?"
                     "https://www.furnishedfinder.com/members/tenant-message/42"))
    (NotOk "500 Internal Server Error")
    (Ok tt) (Ok tt) (Ok tt).

Example generation_failure :
  let message := mkQueued "m1" "Nancy E" None "Booking Inquiry from Nancy E" 0 10 in
  let d := fst (insertMessage fresh 10
             (mkMessage None "m1" "Nancy E" None "Booking Inquiry from Nancy E"
                        None pending None None None None)) in
  let out := processMessage approval_config 20 failing_answers message
               (mkWorld d (mkQueue [message] true (of_nat 3)) (mkResponder false false) []) in
  effects_of out
  = [FxStatus "m1" [pending] Database.processing None;
     FxResponse "m1" "Hi, is the place pet friendly?";
     FxCloseBrowser;
     FxStatus "m1" [Database.processing] failed
              (Some "LLM API error: 500 Internal Server Error");
     FxNotify (LLMError (mkError "LLM API error: 500 Internal Server Error") "Nancy E");
     FxFailed "m1" (mkError "LLM API error: 500 Internal Server Error");
     FxEmit (EvProcessMessage (bump message));
     FxStatus "m1" [failed] Database.processing None;
     FxRethrow (mkError "LLM API error: 500 Internal Server Error")]
  /\ map retryCount (queue (w_queue (world_of out))) = [1].
Proof. split; reflexivity. Qed.

(** *** What the Store and the Queue hold after a queue call *)

(** The status and error columns of the records of an id. *)
Definition marks (d : MessageDatabase) (g : string) : list (Status * option string) :=
  map (fun row => (status row, error row)) (rows_with d g).

Lemma marks_updateStatus d now g st err g' :
  marks (updateStatus d now g st err) g'
  = if (g =? g')%string then map (fun _ => (st, or_null err)) (marks d g')
    else marks d g'.
Proof.
  unfold marks, rows_with, all_rows, updateStatus.
  destruct (db d) as [t|] eqn:E; cbn [db].
  - rewrite rows_with_update_where by reflexivity. rewrite !map_map.
    destruct (String.eqb_spec g g') as [->|Hne].
    + apply map_ext_in. intros r Hr. apply filter_In in Hr. destruct Hr as [_ Hr].
      rewrite Hr. reflexivity.
    + apply map_ext_in. intros r Hr. apply filter_In in Hr. destruct Hr as [_ Hr].
      replace (has_gmail_id g r) with false; [reflexivity|].
      symmetry. apply has_gmail_id_true in Hr. unfold has_gmail_id.
      apply String.eqb_neq. congruence.
  - rewrite E. destruct (g =? g')%string; reflexivity.
Qed.

Lemma marks_updateResponse d g response g' :
  marks (updateResponse d g response) g' = marks d g'.
Proof.
  unfold marks, rows_with, all_rows, updateResponse.
  destruct (db d) as [t|] eqn:E; cbn [db]; [|rewrite E; reflexivity].
  rewrite rows_with_update_where by reflexivity. rewrite !map_map.
  apply map_ext. intros r. destruct (has_gmail_id g r); reflexivity.
Qed.

Lemma marks_write_all g responses : forall d g',
  marks (write_all g responses d) g' = marks d g'.
Proof.
  induction responses as [|t l IH]; intros d g'; [reflexivity|].
  change (write_all g (t :: l) d) with (write_all g l (updateResponse d g t)).
  rewrite IH. apply marks_updateResponse.
Qed.

(** The Store after the [processMessage] calls for the items of [l] have
    begun: each sets the status of its item to [processing]. *)
Definition begin_all (now : Timestamp) (l : list QueuedMessage) (d : MessageDatabase)
  : MessageDatabase :=
  fold_left (fun d m => updateStatus d now (gmailMessageId m) Database.processing None) l d.

Lemma marks_begin_all now g : forall l d,
  marks (begin_all now l d) g
  = if existsb (has_id g) l
    then map (fun _ => (Database.processing, None)) (marks d g)
    else marks d g.
Proof.
  induction l as [|m l IH]; intros d; [reflexivity|].
  change (begin_all now (m :: l) d)
    with (begin_all now l (updateStatus d now (gmailMessageId m) Database.processing None)).
  rewrite IH, marks_updateStatus. cbn [existsb]. unfold has_id at 2.
  destruct (gmailMessageId m =? g)%string; cbn [orb or_null].
  - rewrite map_map. destruct (existsb (has_id g) l); reflexivity.
  - reflexivity.
Qed.

Lemma emit_db now evs : forall w,
  w_db (world_of (emit now evs w)) = begin_all now (dispatched evs) (w_db w).
Proof.
  induction evs as [|ev evs IH]; intros w; [reflexivity|].
  unfold emit in *. cbn [for_each]. rewrite bind_run.
  assert (H1 : w_db (world_of ((log (FxEmit ev) ;; listener now ev) w))
               = begin_all now (dispatched [ev]) (w_db w)
               /\ result_of ((log (FxEmit ev) ;; listener now ev) w) = Ok tt).
  { destruct ev as [m|m|m|m e]; split; reflexivity. }
  destruct ((log (FxEmit ev) ;; listener now ev) w) as [[w1 fx1] r1].
  unfold world_of, result_of in H1. cbn [fst snd] in H1. destruct H1 as [H1 ->].
  specialize (IH w1). destruct (for_each evs _ w1) as [[w2 fx2] r2].
  unfold world_of in *. cbn [fst snd] in *. rewrite IH, H1.
  change (ev :: evs) with ([ev] ++ evs). rewrite dispatched_app.
  unfold begin_all. rewrite fold_left_app. reflexivity.
Qed.

(** What a call on the queue leaves in the Queue and in the Store. *)
Lemma on_queue_state now f w :
  w_queue (world_of (on_queue now f w)) = fst (f (w_queue w))
  /\ w_db (world_of (on_queue now f w))
     = begin_all now (dispatched (snd (f (w_queue w)))) (w_db w).
Proof.
  unfold on_queue. destruct (f (w_queue w)) as [q evs]. cbn [fst snd].
  destruct (emit_keeps now evs (mkWorld (w_db w) q (w_responder w) (w_awaiting w)))
    as (_ & _ & Hq & _).
  rewrite Hq, emit_db. split; reflexivity.
Qed.

(** Extraction fails after the browser was launched, and [browser.close()]
    rejects in the [catch] clause. *)
Definition release_fails : Answers :=
  mkAnswers (ContextThrows (mkError "browser.newContext: Target closed"))
    (Throw (mkError "unused")) (Reply "unused")
    (Ok tt) (Ok tt) (Throw (mkError "browser.close: Target closed")).

(** Part (1) of the claim as the specification words it: on every error
    path the session is released. *)
Definition released_on_error (cfg : SafetyConfig) (now : Timestamp) (a : Answers)
           (message : QueuedMessage) (w : World) : Prop :=
  let out := processMessage_resume cfg now a message w in
  forall e, result_of out = Throw e -> browser (w_responder (world_of out)) = false.

(** C6 (as worded). The [catch] clause calls [closeBrowser], but guards
    the call: when [browser.close()] rejects there, the rejection is logged
    and the clause goes on.  The run rejects with the error of the failed
    extraction and the session is still held at the end. *)
Lemma C6_counterexample_release_fails :
  let e := mkError "browser.newContext: Target closed" in
  let out := processMessage_resume approval_config 20 release_fails nancy_item nancy_world in
  result_of (extractLatestMessage release_fails nancy_world) = Throw e
  /\ result_of out = Throw e
  /\ browser (w_responder (world_of out)) = true
  /\ ~ released_on_error approval_config 20 release_fails nancy_item nancy_world.
Proof.
  cbv zeta. split; [reflexivity|]. split; [reflexivity|]. split; [reflexivity|].
  intros H. specialize (H _ eq_refl). discriminate H.
Qed.

(** C6 (amended). Whenever a run of [processMessage] rejects with an
    error [e], its effects end with: the [closeBrowser] call; [updateStatus]
    to [failed] with [e]'s message; the notification [classify] picks for
    [e]; [messageFailed] for the item with [e]; what the queue's listeners
    do in that call; and the re-throw of [e].  No queue signal precedes
    them.  The browser is released at the end when [browser.close()] does
    not reject in the [catch] clause.  The Queue is left as
    [messageFailed] leaves it.  Every record of the id is left with status
    [failed] and the message (NULL for an empty one) in [error], unless
    that same [messageFailed] call hands the item over again at once, in
    which case the new run has already set it to [processing] and cleared
    [error].  A failure of extraction, of generation, of sending (with
    auto-send on), or of [closeBrowser] in the [try] block each makes the
    run reject with that failure's error. *)
Theorem C6_error_path
  (cfg : SafetyConfig) (now : Timestamp) (a : Answers) (message : QueuedMessage)
  (w : World) :
  let g := gmailMessageId message in
  let out := processMessage_resume cfg now a message w in
  (forall e, result_of out = Throw e ->
     (exists before old after,
        effects_of out
        = before
          ++ [FxCloseBrowser;
              FxStatus g old failed (Some (Js.message e));
              FxNotify (classify e message);
              FxFailed g e]
          ++ after ++ [FxRethrow e]
        /\ signals before = []
        /\ Forall from_listener after)
     /\ (closing_in_catch a = Ok tt -> browser (w_responder (world_of out)) = false)
     /\ w_queue (world_of out) = fst (messageFailed (w_queue w) g e)
     /\ marks (w_db (world_of out)) g
        = map (fun _ =>
                 if existsb (has_id g) (dispatched (snd (messageFailed (w_queue w) g e)))
                 then (Database.processing, None)
                 else (failed, or_null (Some (Js.message e))))
              (marks (w_db w) g))
  /\ (forall e, result_of (extractLatestMessage a w) = Throw e ->
                result_of out = Throw e)
  /\ (forall x e,
        result_of (extractLatestMessage a w) = Ok x ->
        result_of (generateResponse a (ex_tenantName x) (ex_tenantMessage x)
                     (tenantEmail message) w) = Throw e ->
        result_of out = Throw e)
  /\ (forall x text e,
        AUTO_SEND_ENABLED cfg = true ->
        result_of (extractLatestMessage a w) = Ok x ->
        result_of (generateResponse a (ex_tenantName x) (ex_tenantMessage x)
                     (tenantEmail message) w) = Ok text ->
        result_of (sendResponse a text (world_of (extractLatestMessage a w))) = Throw e ->
        result_of out = Throw e)
  /\ (forall x text e,
        result_of (extractLatestMessage a w) = Ok x ->
        result_of (generateResponse a (ex_tenantName x) (ex_tenantMessage x)
                     (tenantEmail message) w) = Ok text ->
        (AUTO_SEND_ENABLED cfg = true ->
         result_of (sendResponse a text (world_of (extractLatestMessage a w))) = Ok tt) ->
        result_of (closeBrowser (closing a) (world_of (extractLatestMessage a w)))
        = Throw e ->
        result_of out = Throw e).
Proof.
  intros g out. subst g out. destruct w as [d q r aw].
  rewrite resume_assemble. cbn [w_responder].
  rewrite result_of_assemble, result_of_extract.
  split; [|split; [|split; [|split]]].
  - intros e He.
    assert (Hs : s_signal (summary cfg a message r) = Fails e).
    { destruct (s_signal (summary cfg a message r)); [discriminate|congruence]. }
    destruct (summary_fails cfg a message r e Hs) as (r1 & before & responses & Hsum & Hb).
    rewrite Hsum. unfold assemble, failure.
    cbn [s_texts s_status s_err s_signal s_responder s_before s_after
         w_db w_queue w_responder w_awaiting].
    match goal with |- context [on_queue now ?f ?w2] =>
      destruct (on_queue_keeps now f w2) as (_ & Hresp & _ & Hfx);
      destruct (on_queue_state now f w2) as (Hq & Hd);
      set (o := on_queue now f w2) in * end.
    cbn [w_db w_queue] in Hq, Hd.
    split; [|split; [|split]].
    + exists before, (map status (rows_with (write_all (gmailMessageId message) responses d)
                                            (gmailMessageId message))), (effects_of o).
      split; [|auto]. unfold effects_of at 1. cbn [fst snd].
      rewrite <- !app_assoc. reflexivity.
    + intros Hc. unfold world_of at 1. cbn [fst]. rewrite Hresp. cbn [w_responder].
      rewrite closed_browser. unfold close_result. rewrite Hc.
      destruct (browser r1); reflexivity.
    + unfold world_of at 1. cbn [fst]. exact Hq.
    + unfold world_of at 1. cbn [fst]. rewrite Hd.
      rewrite marks_begin_all, marks_updateStatus, String.eqb_refl, marks_write_all.
      destruct (existsb _ _); rewrite ?map_map; reflexivity.
  - intros e He. unfold summary. rewrite He. reflexivity.
  - intros x e Hx Hg. rewrite result_of_generate in Hg.
    unfold summary. rewrite Hx, Hg. reflexivity.
  - intros x text e Hauto Hx Hg Hsend. rewrite result_of_generate in Hg.
    rewrite extract_shape, send_shape in Hsend.
    unfold world_of, result_of in Hsend. cbn [fst snd w_responder] in Hsend.
    unfold summary. rewrite Hx, Hg, Hauto, Hsend. reflexivity.
  - intros x text e Hx Hg Hsend Hclose. rewrite result_of_generate in Hg.
    rewrite result_of_close in Hclose.
    unfold summary. cbv zeta. rewrite Hx, Hg, Hclose.
    destruct (AUTO_SEND_ENABLED cfg); [|reflexivity].
    specialize (Hsend eq_refl). rewrite extract_shape, send_shape in Hsend.
    unfold world_of, result_of in Hsend. cbn [fst snd w_responder] in Hsend.
    rewrite Hsend. reflexivity.
Qed.

(** Two inquiries, stored and queued, the first one handed over. *)
Definition two_records : MessageDatabase :=
  updateStatus
    (fst (insertMessage nancy_record 11
            (mkMessage None "m2" "Omar K" None "Booking Inquiry from Omar K"
                       None pending None None None None)))
    15 "m1" Database.processing None.

Definition omar_item : QueuedMessage :=
  mkQueued "m2" "Omar K" None "Booking Inquiry from Omar K" 0 11.

Definition two_queued : World :=
  mkWorld two_records (mkQueue [nancy_item; omar_item] true (of_nat 3))
          (mkResponder false false) [].

(** Generation fails for the first of two queued inquiries: its record is
    left [failed] with the message, it moves behind the second inquiry,
    and the second one is handed over. *)
Lemma C6_witness :
  let e := mkError "LLM API error: 500 Internal Server Error" in
  let out := processMessage_resume approval_config 20 failing_answers nancy_item two_queued in
  (exists before old after,
     effects_of out
     = before
       ++ [FxCloseBrowser;
           FxStatus "m1" old failed (Some (Js.message e));
           FxNotify (classify e nancy_item);
           FxFailed "m1" e]
       ++ after ++ [FxRethrow e]
     /\ signals before = []
     /\ Forall from_listener after)
  /\ browser (w_responder (world_of out)) = false
  /\ w_queue (world_of out)
     = mkQueue [omar_item; bump nancy_item] true (of_nat 3)
  /\ marks (w_db (world_of out)) "m1"
     = [(failed, Some "LLM API error: 500 Internal Server Error")].
Proof.
  intros e out.
  pose proof (proj1 (C6_error_path approval_config 20 failing_answers nancy_item two_queued)
                e eq_refl) as (H1 & H2 & H3 & H4).
  exact (conj H1 (conj (H2 eq_refl) (conj H3 H4))).
Defined.

(** *** The poll tick *)

(** What the loop body decides for a message that is neither stored nor
    queued: go on to the next one, abort the tick, or store and queue. *)
Inductive Verdict :=
| Skip
| Abort (e : Error)
| Accept (record : Message) (item : NewMessage).

Definition verdict (cfg : SafetyConfig) (m : MailMessage) : Verdict :=
  match mail_headers m with
  | Throw e => Abort e
  | Ok headers =>
      let subject := or_default (header "Subject" headers) "(no subject)" in
      let from := or_default (header "From" headers) "(unknown sender)" in
      let c := Categorize.categorizeEmail subject from in
      match Categorize.type c with
      | Categorize.NEW_INQUIRY =>
          if TEST_MODE cfg
             && negb (includes (or_default (Categorize.tenantName c) "Unknown")
                               (TEST_SENDER_NAME cfg))
          then Skip
          else Accept
                 (mkMessage None (mail_id m)
                    (or_default (Categorize.tenantName c) "Unknown Tenant")
                    (Categorize.tenantEmail c) subject None pending None None None None)
                 (mkNew (mail_id m)
                    (or_default (Categorize.tenantName c) "Unknown Tenant")
                    (Categorize.tenantEmail c) subject)
      | _ => Skip
      end
  end.

Lemma verdict_accept cfg m record item :
  verdict cfg m = Accept record item ->
  gmail_message_id record = mail_id m
  /\ new_gmailMessageId item = mail_id m
  /\ status record = pending.
Proof.
  unfold verdict. destruct (mail_headers m) as [headers|e]; [|discriminate].
  destruct (Categorize.type _); try discriminate.
  destruct (_ && _); [discriminate|].
  intros H. injection H as <- <-. auto.
Qed.

Lemma poll_message_cases cfg now m w :
  poll_message cfg now m w
  = if messageExists (w_db w) (mail_id m) || isInQueue (w_queue w) (mail_id m)
    then (w, [], Ok tt)
    else match verdict cfg m with
         | Skip => (w, [], Ok tt)
         | Abort e => (w, [], Throw e)
         | Accept record item => (db_insertMessage now record ;; mq_enqueue now item) w
         end.
Proof.
  unfold poll_message, verdict.
  destruct (messageExists (w_db w) (mail_id m)); [reflexivity|].
  destruct (isInQueue (w_queue w) (mail_id m)); [reflexivity|]. cbn [orb].
  rewrite bind_run. unfold lift at 1.
  destruct (mail_headers m) as [headers|e]; [|reflexivity].
  destruct (Categorize.type _); try reflexivity.
  - destruct (_ && _).
    + reflexivity.
    + destruct ((db_insertMessage now _ ;; mq_enqueue now _) w) as [[w2 fx2] r2].
      reflexivity.
Qed.

Lemma on_queue_queue now f w :
  w_queue (world_of (on_queue now f w)) = fst (f (w_queue w)).
Proof.
  unfold on_queue. destruct (f (w_queue w)) as [q evs].
  destruct (emit_keeps now evs (mkWorld (w_db w) q (w_responder w) (w_awaiting w)))
    as (_ & _ & H & _).
  exact H.
Qed.

(** The number of records of an id only depends on the id column. *)
Lemma copies_texts d g :
  copies d g
  = List.length (filter (fun t => (fst (fst t) =? g)%string) (texts d)).
Proof.
  unfold copies, rows_with, texts. induction (all_rows d) as [|r l IH]; [reflexivity|].
  simpl. unfold has_gmail_id at 1. destruct (gmail_message_id r =? g)%string; simpl;
    rewrite IH; reflexivity.
Qed.

Definition occurrences (g : string) (l : list QueuedMessage) : nat :=
  List.length (filter (has_id g) l).

Definition stores (g : string) (fx : Effect) : bool :=
  match fx with
  | FxInsert record _ => (gmail_message_id record =? g)%string
  | FxEnqueue item => (new_gmailMessageId item =? g)%string
  | _ => false
  end.

Lemma from_listener_stores g fx :
  Forall from_listener fx -> existsb (stores g) fx = false.
Proof.
  induction 1 as [|e l He _ IH]; [reflexivity|]. simpl. rewrite IH.
  destruct e; try reflexivity; destruct He.
Qed.

Lemma isInQueue_occurrences q g : isInQueue q g = (0 <? occurrences g (queue q)).
Proof. unfold isInQueue, occurrences. apply existsb_filter. Qed.

Lemma store_and_queue_run now record item w :
  (db_insertMessage now record ;; mq_enqueue now item) w
  = match insertMessage (w_db w) now record with
    | (d1, Ok rowid) =>
        let o := on_queue now (fun q => enqueue q now item)
                   (mkWorld d1 (w_queue w) (w_responder w) (w_awaiting w)) in
        (world_of o, FxInsert record (Ok rowid) :: FxEnqueue item :: effects_of o, Ok tt)
    | (d1, Throw e) =>
        (mkWorld d1 (w_queue w) (w_responder w) (w_awaiting w),
         [FxInsert record (Throw e)], Throw e)
    end.
Proof.
  rewrite bind_run. unfold db_insertMessage.
  destruct (insertMessage (w_db w) now record) as [d1 [rowid|e]]; [|reflexivity].
  unfold mq_enqueue. rewrite bind_run. unfold log.
  match goal with |- context [on_queue now ?f ?w1] =>
    destruct (on_queue_keeps now f w1) as (Hres & _);
    destruct (on_queue now f w1) as [[w2 fx2] r2] end.
  unfold result_of in Hres. simpl in Hres. subst r2. reflexivity.
Qed.

(** One message of the listing, for an id [g] that is stored or queued:
    nothing is stored or queued for [g], and [g] stays as it is. *)
Lemma poll_message_dedup cfg now m w g :
  messageExists (w_db w) g || isInQueue (w_queue w) g = true ->
  let o := poll_message cfg now m w in
  existsb (stores g) (effects_of o) = false
  /\ copies (w_db (world_of o)) g = copies (w_db w) g
  /\ occurrences g (queue (w_queue (world_of o))) = occurrences g (queue (w_queue w)).
Proof.
  intros Hg o. subst o. rewrite poll_message_cases.
  destruct (messageExists (w_db w) (mail_id m) || isInQueue (w_queue w) (mail_id m)) eqn:Em;
    [auto|].
  destruct (verdict cfg m) as [|e|record item] eqn:Ev; [auto|auto|].
  destruct (verdict_accept _ _ _ _ Ev) as (Hr & Hi & _).
  assert (Hne : mail_id m <> g) by (intros E; rewrite E in Em; congruence).
  assert (Hneb : (mail_id m =? g)%string = false) by (apply String.eqb_neq; exact Hne).
  rewrite store_and_queue_run.
  assert (Hc : copies (fst (insertMessage (w_db w) now record)) g = copies (w_db w) g).
  { rewrite copies_insertMessage.
    destruct (existsb (has_gmail_id g) (all_rows (w_db w))) eqn:Ex; [reflexivity|].
    rewrite existsb_filter in Ex. fold (rows_with (w_db w) g) in Ex.
    fold (copies (w_db w) g) in Ex. apply Nat.ltb_ge in Ex.
    rewrite Hr, Hneb. destruct (db (w_db w)); lia. }
  destruct (insertMessage (w_db w) now record) as [d1 [rowid|e]]; cbn [fst] in Hc.
  - cbv zeta.
    match goal with |- context [on_queue now ?f ?w1] =>
      destruct (on_queue_keeps now f w1) as (_ & _ & Ht & Hfx);
      pose proof (on_queue_queue now f w1) as Hq;
      set (o := on_queue now f w1) in * end.
    unfold world_of, effects_of in *. cbn [fst snd w_db w_queue] in *.
    split; [|split].
    + simpl. rewrite (from_listener_stores g _ Hfx).
      rewrite Hr, Hi, Hneb. reflexivity.
    + rewrite (copies_texts (w_db (fst (fst o))) g), Ht, <- copies_texts.
      exact Hc.
    + rewrite Hq, enqueue_queue. unfold occurrences.
      rewrite filter_app, length_app.
      simpl. unfold has_id at 2. simpl. rewrite Hi, Hneb. simpl. lia.
  - unfold world_of, effects_of. cbn [fst snd w_db w_queue].
    split; [|split]; [|exact Hc|reflexivity].
    simpl. rewrite Hr, Hneb. reflexivity.
Qed.

Lemma known_stays d d' q q' g :
  copies d' g = copies d g ->
  occurrences g (queue q') = occurrences g (queue q) ->
  messageExists d g || isInQueue q g = true ->
  messageExists d' g || isInQueue q' g = true.
Proof.
  rewrite !messageExists_copies, !isInQueue_occurrences. intros -> ->. auto.
Qed.

Lemma poll_all_dedup cfg now g messages : forall w,
  messageExists (w_db w) g || isInQueue (w_queue w) g = true ->
  let o := for_each messages (poll_message cfg now) w in
  existsb (stores g) (effects_of o) = false
  /\ copies (w_db (world_of o)) g = copies (w_db w) g
  /\ occurrences g (queue (w_queue (world_of o))) = occurrences g (queue (w_queue w)).
Proof.
  induction messages as [|m rest IH]; intros w Hg; [simpl; auto|].
  cbn [for_each]. cbv zeta. rewrite bind_run.
  destruct (poll_message_dedup cfg now m w g Hg) as (H1 & H2 & H3).
  destruct (poll_message cfg now m w) as [[w1 fx1] [[]|e]];
    unfold world_of, effects_of in *; cbn [fst snd] in *; [|auto].
  assert (Hg1 : messageExists (w_db w1) g || isInQueue (w_queue w1) g = true)
    by (eapply known_stays; eassumption).
  destruct (IH w1 Hg1) as (H4 & H5 & H6).
  destruct (for_each rest (poll_message cfg now) w1) as [[w2 fx2] r2].
  unfold world_of, effects_of in *. cbn [fst snd] in *.
  rewrite existsb_app, H1, H4. repeat split; congruence.
Qed.

Lemma checkGmail_run cfg now listing w :
  checkGmail cfg now listing w
  = match listing with
    | Throw e =>
        (w, [FxNotify (SystemError e "Failed to check Gmail for new messages")], Ok tt)
    | Ok messages =>
        let o := for_each messages (poll_message cfg now) w in
        (world_of o,
         effects_of o
         ++ match result_of o with
            | Ok _ => []
            | Throw e =>
                [FxNotify (SystemError e "Failed to check Gmail for new messages")]
            end,
         Ok tt)
    end.
Proof.
  unfold checkGmail. rewrite try_run, bind_run. unfold lift at 1.
  destruct listing as [messages|e]; [|reflexivity]. cbv zeta.
  destruct (for_each messages (poll_message cfg now) w) as [[w1 fx1] [[]|e]];
    unfold world_of, effects_of, result_of; simpl; rewrite ?app_nil_r; reflexivity.
Qed.

Example poll_known_message :
  let d := updateStatus
             (fst (insertMessage fresh 10
                (mkMessage None "m1" "Nancy E" None "Booking Inquiry from Nancy E"
                           None pending None None None None)))
             15 "m1" sent None in
  checkGmail approval_config 20 (Ok [nancy_mail]) (boot d (of_nat 3)) = (boot d (of_nat 3), [], Ok tt).
Proof. reflexivity. Qed.

(** C2. Let the id [g] have a record in the Store or an item in the Queue.
    Then the loop body of [checkGmail] does nothing at all for a listed
    message with that id; and a whole tick, whatever the provider lists,
    makes no [insertMessage] call and no [enqueue] call for [g], and leaves
    the number of records and of queued items of [g] as they were. *)
Theorem C2_dedup_barrier
  (cfg : SafetyConfig) (now : Timestamp) (listing : Result (list MailMessage))
  (w : World) (g : string)
  (Hknown : messageExists (w_db w) g = true \/ isInQueue (w_queue w) g = true) :
  (forall m, mail_id m = g -> poll_message cfg now m w = (w, [], Ok tt))
  /\ (forall record res,
        In (FxInsert record res) (effects_of (checkGmail cfg now listing w)) ->
        gmail_message_id record <> g)
  /\ (forall item,
        In (FxEnqueue item) (effects_of (checkGmail cfg now listing w)) ->
        new_gmailMessageId item <> g)
  /\ copies (w_db (world_of (checkGmail cfg now listing w))) g = copies (w_db w) g
  /\ occurrences g (queue (w_queue (world_of (checkGmail cfg now listing w))))
     = occurrences g (queue (w_queue w)).
Proof.
  assert (Hg : messageExists (w_db w) g || isInQueue (w_queue w) g = true)
    by (destruct Hknown as [-> | ->]; auto using orb_true_r).
  split.
  { intros m <-. rewrite poll_message_cases, Hg. reflexivity. }
  rewrite checkGmail_run.
  assert (Hstores : forall fx, existsb (stores g) fx = false ->
            (forall record res, In (FxInsert record res) fx -> gmail_message_id record <> g)
            /\ (forall item, In (FxEnqueue item) fx -> new_gmailMessageId item <> g)).
  { intros fx Hfx. split.
    - intros record res Hin E.
      assert (Ht : existsb (stores g) fx = true).
      { apply existsb_exists. exists (FxInsert record res). split; [exact Hin|].
        simpl. apply String.eqb_eq. exact E. }
      congruence.
    - intros item Hin E.
      assert (Ht : existsb (stores g) fx = true).
      { apply existsb_exists. exists (FxEnqueue item). split; [exact Hin|].
        simpl. apply String.eqb_eq. exact E. }
      congruence. }
  destruct listing as [messages|e].
  - cbv zeta. destruct (poll_all_dedup cfg now g messages w Hg) as (H1 & H2 & H3).
    set (o := for_each messages (poll_message cfg now) w) in *.
    unfold world_of at 1 3, effects_of at 1 3. cbn [fst snd].
    assert (Hfx : existsb (stores g)
              (effects_of o ++ match result_of o with
                               | Ok _ => []
                               | Throw e =>
                                   [FxNotify (SystemError e
                                      "Failed to check Gmail for new messages")]
                               end) = false).
    { rewrite existsb_app, H1. destruct (result_of o); reflexivity. }
    destruct (Hstores _ Hfx) as [Ha Hb]. auto.
  - unfold world_of, effects_of. cbn [fst snd].
    destruct (Hstores [FxNotify (SystemError e "Failed to check Gmail for new messages")]
                eq_refl) as [Ha Hb].
    auto.
Qed.

Lemma C2_witness :
  let d := updateStatus
             (fst (insertMessage fresh 10
                (mkMessage None "m1" "Nancy E" None "Booking Inquiry from Nancy E"
                           None pending None None None None)))
             15 "m1" sent None in
  let w := boot d (of_nat 3) in
  let listing := Ok [nancy_mail] in
  (forall m, mail_id m = "m1" -> poll_message approval_config 20 m w = (w, [], Ok tt))
  /\ (forall record res,
        In (FxInsert record res) (effects_of (checkGmail approval_config 20 listing w)) ->
        gmail_message_id record <> "m1")
  /\ (forall item,
        In (FxEnqueue item) (effects_of (checkGmail approval_config 20 listing w)) ->
        new_gmailMessageId item <> "m1")
  /\ copies (w_db (world_of (checkGmail approval_config 20 listing w))) "m1" = copies (w_db w) "m1"
  /\ occurrences "m1" (queue (w_queue (world_of (checkGmail approval_config 20 listing w))))
     = occurrences "m1" (queue (w_queue w)).
Proof.
  intros d w listing.
  apply (C2_dedup_barrier approval_config 20 listing w "m1").
  left. reflexivity.
Defined.

(** *** The status state machine *)

(** The status changes made by a list of effects: one pair (old, new) for
    every row that an [updateStatus] call rewrites. *)
Definition transitions (fx : list Effect) : list (Status * Status) :=
  flat_map (fun e => match e with
                     | FxStatus _ before st _ => map (fun old => (old, st)) before
                     | _ => []
                     end) fx.

Definition allowed_transitions : list (Status * Status) :=
  [(pending, Database.processing);
   (Database.processing, sent);
   (Database.processing, pending);
   (Database.processing, failed);
   (failed, Database.processing)].

Definition lawful (fx : list Effect) : Prop :=
  Forall (fun t => In t allowed_transitions) (transitions fx).

(** Status of a record whose item waits in the queue. *)
Definition waiting (st : Status) : Prop := st = pending \/ st = failed.

(** The invariant of the process between two steps: the suspended call is
    the one for the head of the queue; the queued ids are distinct; the
    records of the head are [processing], those of the other queued items
    [pending] or [failed]. *)
Record Inv (w : World) : Prop := mkInv {
  inv_awaiting : w_awaiting w = firstn 1 (queue (w_queue w));
  inv_processing : processing (w_queue w) = nonempty (queue (w_queue w));
  inv_nodup : NoDup (ids (queue (w_queue w)));
  inv_head : forall h r, queue (w_queue w) = h :: r ->
               Forall (eq Database.processing) (statuses (w_db w) (gmailMessageId h));
  inv_rest : forall h r x, queue (w_queue w) = h :: r -> In x r ->
               Forall waiting (statuses (w_db w) (gmailMessageId x))
}.

Lemma transitions_app a b : transitions (a ++ b) = transitions a ++ transitions b.
Proof. apply flat_map_app. Qed.

Lemma lawful_app a b : lawful a -> lawful b -> lawful (a ++ b).
Proof. unfold lawful. rewrite transitions_app. intros. apply Forall_app. auto. Qed.

Lemma lawful_nil : lawful [].
Proof. constructor. Qed.

Lemma lawful_status g before st err :
  Forall (fun old => In (old, st) allowed_transitions) before ->
  lawful [FxStatus g before st err].
Proof.
  unfold lawful. simpl. rewrite app_nil_r. intros H.
  apply Forall_map. exact H.
Qed.

Lemma lawful_quiet fx : transitions fx = [] -> lawful fx.
Proof. unfold lawful. intros ->. constructor. Qed.

Lemma Inv_boot d n : Inv (boot d n).
Proof.
  constructor; simpl; try reflexivity; try constructor; intros; discriminate.
Qed.

Lemma waiting_to_processing l :
  Forall waiting l ->
  Forall (fun old => In (old, Database.processing) allowed_transitions) l.
Proof.
  intros H. eapply Forall_impl; [|exact H]. intros st [-> | ->]; simpl; auto 10.
Qed.

(** Handing over the head of what a queue method left behind. *)
Lemma hand_next_inv now d l n resp fx :
  NoDup (ids l) ->
  (forall x, In x l -> Forall waiting (statuses d (gmailMessageId x))) ->
  lawful fx ->
  Inv (world_of (hand_next now d l n resp [] fx))
  /\ lawful (effects_of (hand_next now d l n resp [] fx)).
Proof.
  intros Hnd Hw Hfx. unfold hand_next. destruct l as [|h r].
  - unfold world_of, effects_of. simpl. split; [|exact Hfx].
    constructor; simpl; try reflexivity; try constructor; intros; discriminate.
  - unfold world_of, effects_of. cbn [fst snd]. split.
    + constructor; cbn [w_awaiting w_queue w_db queue processing]; try reflexivity.
      * exact Hnd.
      * intros h' r' E. injection E as <- <-.
        rewrite statuses_updateStatus, String.eqb_refl.
        apply Forall_map. apply Forall_forall. reflexivity.
      * intros h' r' x E Hx. injection E as <- <-.
        rewrite statuses_updateStatus.
        destruct (String.eqb_spec (gmailMessageId h) (gmailMessageId x)) as [E|_].
        -- exfalso. inversion Hnd as [|? ? Hnot _]; subst. apply Hnot.
           rewrite E. apply in_map. exact Hx.
        -- apply Hw. right. exact Hx.
    + apply lawful_app; [exact Hfx|].
      change (lawful ([FxEmit (EvProcessMessage h)]
                ++ [FxStatus (gmailMessageId h) (statuses d (gmailMessageId h))
                             Database.processing None])).
      apply lawful_app; [apply lawful_nil|].
      apply lawful_status, waiting_to_processing, Hw. left. reflexivity.
Qed.

Lemma summary_facts cfg a message r :
  let s := summary cfg a message r in
  transitions (s_before s) = []
  /\ transitions (s_after s) = []
  /\ match s_signal s with
     | Completes => s_status s = sent \/ s_status s = pending
     | Fails _ => s_status s = failed
     end.
Proof.
  assert (Hm : forall x, transitions (mismatch x message) = []).
  { intros x. unfold mismatch. destruct (name_matches x message); reflexivity. }
  unfold summary. cbv zeta. destruct (extracted a r) as [x|e1]; [|simpl; auto].
  destruct (generated a) as [text|e2].
  - destruct (AUTO_SEND_ENABLED cfg).
    + destruct (typed a (launched a r)) as [[]|e3];
        [destruct (close_result (closing a) (launched a r)) as [[]|e4]|];
        simpl; rewrite !transitions_app, Hm; simpl; auto.
    + destruct (close_result (closing a) (launched a r)) as [[]|e4];
        simpl; rewrite !transitions_app, Hm; simpl; auto.
  - simpl. rewrite !transitions_app, Hm. simpl. auto.
Qed.

Lemma nodup_rotate (g : string) (l : list string) :
  NoDup (g :: l) -> NoDup (l ++ [g]).
Proof.
  intros H. inversion H as [|? ? Hnot Hl]; subst.
  apply NoDup_app; [exact Hl|repeat constructor; intros []|].
  intros x Hx [<-|[]]. contradiction.
Qed.

(** The end of a run for the head [h] of the queue, the suspended call
    already taken off [w_awaiting]. *)
Lemma assemble_inv now cfg a h r n d resp :
  NoDup (ids (h :: r)) ->
  Forall (eq Database.processing) (statuses d (gmailMessageId h)) ->
  (forall x, In x r -> Forall waiting (statuses d (gmailMessageId x))) ->
  let o := assemble now (gmailMessageId h) (summary cfg a h resp)
             (mkWorld d (mkQueue (h :: r) true n) resp []) in
  Inv (world_of o) /\ lawful (effects_of o).
Proof.
  intros Hnd Hhead Hrest. cbv zeta.
  destruct (summary_facts cfg a h resp) as (Hbefore & Hafter & Hsig).
  cbv zeta in Hbefore, Hafter, Hsig.
  unfold assemble. cbn [w_db w_queue w_responder w_awaiting].
  set (s := summary cfg a h resp) in *.
  set (d1 := write_all (gmailMessageId h) (s_texts s) d).
  set (d2 := updateStatus d1 now (gmailMessageId h) (s_status s) (s_err s)).
  inversion Hnd as [|? ? Hnot Hnd']; subst.
  assert (Hd2 : forall x, In x r ->
            Forall waiting (statuses d2 (gmailMessageId x))).
  { intros x Hx. subst d2 d1. rewrite statuses_updateStatus.
    destruct (String.eqb_spec (gmailMessageId h) (gmailMessageId x)) as [E|_].
    - exfalso. apply Hnot. rewrite E. apply in_map. exact Hx.
    - rewrite statuses_write_all. apply Hrest. exact Hx. }
  assert (Hwrite : lawful [FxStatus (gmailMessageId h)
                             (map status (rows_with d1 (gmailMessageId h)))
                             (s_status s) (s_err s)]).
  { apply lawful_status. fold (statuses d1 (gmailMessageId h)).
    subst d1. rewrite statuses_write_all.
    eapply Forall_impl; [|exact Hhead]. intros st <-.
    destruct (s_signal s); [destruct Hsig as [-> | ->]|rewrite Hsig]; simpl; auto 10. }
  destruct (s_signal s) as [|e] eqn:Esig.
  - rewrite on_queue_processed by apply has_id_self.
    destruct (hand_next_inv now d2 r n (s_responder s)
                [FxEmit (EvMessageCompleted h)] Hnd' Hd2
                (lawful_quiet [FxEmit (EvMessageCompleted h)] eq_refl))
      as [HI Hl].
    unfold world_of at 1, effects_of at 1. cbn [fst snd]. split; [exact HI|].
    repeat apply lawful_app; auto using lawful_quiet, lawful_nil.
  - rewrite on_queue_failed by apply has_id_self.
    assert (Hfailed : Forall waiting (statuses d2 (gmailMessageId h))).
    { subst d2. rewrite statuses_updateStatus, String.eqb_refl, Hsig.
      apply Forall_map. apply Forall_forall. intros; right; reflexivity. }
    destruct (at_least (S (retryCount h)) n).
    + destruct (hand_next_inv now d2 r n (s_responder s)
                  [FxEmit (EvMessageFailed (bump h) e);
                   FxNotify (SystemError e
                     ("Max retries exceeded for message from " ++ tenantName h))]
                  Hnd' Hd2
                  (lawful_quiet
                     [FxEmit (EvMessageFailed (bump h) e);
                      FxNotify (SystemError e
                        ("Max retries exceeded for message from " ++ tenantName h))]
                     eq_refl)) as [HI Hl].
      unfold world_of at 1, effects_of at 1. cbn [fst snd]. split; [exact HI|].
      repeat apply lawful_app; auto using lawful_quiet, lawful_nil.
    + assert (Hnd2 : NoDup (ids (r ++ [bump h]))).
      { rewrite ids_app. simpl. apply nodup_rotate. constructor; assumption. }
      assert (Hd3 : forall x, In x (r ++ [bump h]) ->
                Forall waiting (statuses d2 (gmailMessageId x))).
      { intros x Hx. apply in_app_or in Hx. destruct Hx as [Hx|[<-|[]]]; auto. }
      destruct (hand_next_inv now d2 (r ++ [bump h]) n (s_responder s) []
                  Hnd2 Hd3 lawful_nil) as [HI Hl].
      unfold world_of at 1, effects_of at 1. cbn [fst snd]. split; [exact HI|].
      repeat apply lawful_app; auto using lawful_quiet, lawful_nil.
Qed.

Lemma resume_inv cfg now a w :
  Inv w ->
  Inv (world_of (step cfg (Resume now a) w))
  /\ lawful (effects_of (step cfg (Resume now a) w)).
Proof.
  intros HI. pose proof HI as [Haw Hb Hnd Hh Hr].
  destruct w as [d [l b n] resp aw]. cbn [w_awaiting w_queue w_db queue processing] in *.
  subst aw b. destruct l as [|h r].
  - simpl. split; [exact HI|apply lawful_nil].
  - cbn [step firstn w_awaiting w_db w_queue w_responder nonempty].
    rewrite try_run, resume_assemble. cbn [w_responder].
    destruct (assemble_inv now cfg a h r n d resp Hnd (Hh h r eq_refl)
                (fun x Hx => Hr h r x eq_refl Hx)) as [HI2 Hl2].
    cbv zeta in HI2, Hl2.
    destruct (assemble now (gmailMessageId h) (summary cfg a h resp) _)
      as [[w1 fx1] [[]|e]]; unfold world_of, effects_of in *; cbn [fst snd] in *.
    + auto.
    + unfold ret. rewrite app_nil_r. auto.
Qed.

Lemma isInQueue_false_ids q g : isInQueue q g = false -> ~ In g (ids (queue q)).
Proof.
  unfold isInQueue. intros H Hin. apply in_map_iff in Hin.
  destruct Hin as (x & Hx & Hin).
  assert (Ht : existsb (has_id g) (queue q) = true).
  { apply existsb_exists. exists x. split; [exact Hin|]. apply has_id_true. exact Hx. }
  congruence.
Qed.

Lemma statuses_insert_new d t now record g :
  db d = Some t ->
  messageExists d (gmail_message_id record) = false ->
  statuses (fst (insertMessage d now record)) g
  = if (gmail_message_id record =? g)%string then [status record] else statuses d g.
Proof.
  intros E Hnew. rewrite (insertMessage_new d t now record E Hnew).
  unfold statuses, rows_with, all_rows. cbn [fst db rows]. rewrite E.
  rewrite filter_app, map_app. cbn [filter]. unfold has_gmail_id at 2.
  cbn [gmail_message_id inserted_row].
  destruct (String.eqb_spec (gmail_message_id record) g) as [<-|Hne].
  - rewrite messageExists_copies in Hnew. apply Nat.ltb_ge in Hnew.
    unfold copies, rows_with, all_rows in Hnew. rewrite E in Hnew.
    destruct (filter _ (rows t)) as [|? ?]; [reflexivity|simpl in Hnew; lia].
  - simpl. apply app_nil_r.
Qed.

Lemma poll_message_inv cfg now m w :
  Inv w ->
  Inv (world_of (poll_message cfg now m w))
  /\ lawful (effects_of (poll_message cfg now m w)).
Proof.
  intros HI. rewrite poll_message_cases.
  destruct (messageExists (w_db w) (mail_id m) || isInQueue (w_queue w) (mail_id m)) eqn:Em;
    [split; [exact HI|apply lawful_nil]|].
  destruct (verdict cfg m) as [|e|record item] eqn:Ev;
    [split; [exact HI|apply lawful_nil]|split; [exact HI|apply lawful_nil]|].
  destruct (verdict_accept _ _ _ _ Ev) as (Hrec & Hitem & Hpending).
  apply orb_false_elim in Em. destruct Em as [Hnew Hnq].
  rewrite store_and_queue_run.
  pose proof HI as [Haw Hb Hnd Hh Hr].
  destruct w as [d [l b n] resp aw]. cbn [w_awaiting w_queue w_db queue processing] in *.
  subst aw b.
  destruct (db d) as [t|] eqn:E.
  - rewrite <- Hrec in Hnew.
    pose proof (statuses_insert_new d t now record) as Hst.
    specialize (fun g => Hst g E Hnew).
    rewrite (insertMessage_new d t now record E Hnew) in *. cbn [fst] in Hst.
    set (d1 := mkDb (Some (mkTable (rows t ++ [inserted_row (S (last_rowid t)) now record])
                                   (S (last_rowid t))))) in *.
    cbv zeta. rewrite on_queue_enqueue.
    apply isInQueue_false_ids in Hnq. cbn [queue] in Hnq.
    destruct l as [|h r].
    + destruct (hand_next_inv now d1
                  [mkQueued (new_gmailMessageId item) (new_tenantName item)
                            (new_tenantEmail item) (new_tenantMessage item) 0 now]
                  n resp
                  [FxEmit (EvMessageAdded
                     (mkQueued (new_gmailMessageId item) (new_tenantName item)
                               (new_tenantEmail item) (new_tenantMessage item) 0 now))])
        as [HI2 Hl2].
      * repeat constructor. intros [].
      * intros x [<-|[]]. cbn [gmailMessageId]. rewrite Hst, Hitem, Hrec, String.eqb_refl.
        rewrite Hpending. repeat constructor.
      * apply lawful_quiet. reflexivity.
      * cbn [firstn]. unfold world_of at 1, effects_of at 1. cbn [fst snd].
        split; [exact HI2|].
        change (lawful ([FxInsert record (Ok (S (last_rowid t))); FxEnqueue item]
                          ++ effects_of (hand_next now d1
                               [mkQueued (new_gmailMessageId item) (new_tenantName item)
                                  (new_tenantEmail item) (new_tenantMessage item) 0 now]
                               n resp []
                               [FxEmit (EvMessageAdded
                                  (mkQueued (new_gmailMessageId item) (new_tenantName item)
                                     (new_tenantEmail item) (new_tenantMessage item) 0 now))]))).
        apply lawful_app; [apply lawful_quiet; reflexivity|exact Hl2].
    + unfold world_of, effects_of. cbn [fst snd]. split; [|apply lawful_quiet; reflexivity].
      assert (Hother : forall x, In x (h :: r) ->
                statuses d1 (gmailMessageId x) = statuses d (gmailMessageId x)).
      { intros x Hx. rewrite Hst, Hrec.
        destruct (String.eqb_spec (mail_id m) (gmailMessageId x)) as [Eq|_]; [|reflexivity].
        exfalso. apply Hnq. rewrite Eq. apply in_map. exact Hx. }
      constructor; cbn [w_awaiting w_queue w_db queue processing nonempty firstn app].
      * reflexivity.
      * reflexivity.
      * change (NoDup (ids ((h :: r) ++ [mkQueued (new_gmailMessageId item)
                  (new_tenantName item) (new_tenantEmail item) (new_tenantMessage item) 0 now]))).
        rewrite ids_app. cbn [ids map gmailMessageId]. rewrite Hitem.
        apply NoDup_app; [exact Hnd|repeat constructor; intros []|].
        intros x Hx [<-|[]]. contradiction.
      * intros h' r' Eq. injection Eq as <- _.
        rewrite Hother by (left; reflexivity). apply (Hh h r eq_refl).
      * intros h' r' x Eq Hx. injection Eq as <- <-.
        apply in_app_or in Hx. destruct Hx as [Hx|[<-|[]]].
        -- rewrite Hother by (right; exact Hx). apply (Hr h r x eq_refl Hx).
        -- cbn [gmailMessageId]. rewrite Hst, Hitem, Hrec, String.eqb_refl, Hpending.
           repeat constructor.
  - rewrite (insertMessage_closed d now record E).
    unfold world_of, effects_of. cbn [fst snd]. split; [exact HI|].
    apply lawful_quiet. reflexivity.
Qed.

Lemma for_each_inv {A} (body : A -> M unit) (l : list A) :
  (forall x w, Inv w -> Inv (world_of (body x w)) /\ lawful (effects_of (body x w))) ->
  forall w, Inv w ->
    Inv (world_of (for_each l body w)) /\ lawful (effects_of (for_each l body w)).
Proof.
  intros Hbody. induction l as [|x rest IH]; intros w HI.
  - simpl. split; [exact HI|apply lawful_nil].
  - cbn [for_each]. rewrite bind_run.
    destruct (Hbody x w HI) as [H1 H2].
    destruct (body x w) as [[w1 fx1] [[]|e]];
      unfold world_of, effects_of in *; cbn [fst snd] in *; [|auto].
    destruct (IH w1 H1) as [H3 H4].
    destruct (for_each rest body w1) as [[w2 fx2] r2].
    unfold world_of, effects_of in *. cbn [fst snd] in *.
    split; [exact H3|apply lawful_app; assumption].
Qed.

Lemma tick_inv cfg now listing w :
  Inv w ->
  Inv (world_of (checkGmail cfg now listing w))
  /\ lawful (effects_of (checkGmail cfg now listing w)).
Proof.
  intros HI. rewrite checkGmail_run. destruct listing as [messages|e].
  - cbv zeta.
    destruct (for_each_inv (poll_message cfg now) messages
                (poll_message_inv cfg now) w HI) as [H1 H2].
    unfold world_of at 1, effects_of at 1. cbn [fst snd]. split; [exact H1|].
    apply lawful_app; [exact H2|].
    destruct (result_of _); apply lawful_quiet; reflexivity.
  - unfold world_of, effects_of. cbn [fst snd]. split; [exact HI|].
    apply lawful_quiet. reflexivity.
Qed.

Lemma step_inv cfg s w :
  Inv w ->
  Inv (world_of (step cfg s w)) /\ lawful (effects_of (step cfg s w)).
Proof.
  destruct s as [now listing|now a]; [apply tick_inv|apply resume_inv].
Qed.

Lemma run_inv cfg steps w :
  Inv w ->
  Inv (world_of (run cfg steps w)) /\ lawful (effects_of (run cfg steps w)).
Proof. unfold run. apply for_each_inv. intros s w'. apply step_inv. Qed.

Example nancy_transitions :
  transitions (effects_of
    (run approval_config [Tick 10 (Ok [nancy_mail]); Resume 20 nancy_answers]
         (boot fresh (of_nat 3))))
  = [(pending, Database.processing); (Database.processing, pending)].
Proof. reflexivity. Qed.

Example retry_transitions :
  transitions (effects_of
    (run approval_config
         [Tick 10 (Ok [nancy_mail]); Resume 20 failing_answers; Resume 30 nancy_answers]
         (boot fresh (of_nat 3))))
  = [(pending, Database.processing); (Database.processing, failed);
     (failed, Database.processing); (Database.processing, pending)].
Proof. reflexivity. Qed.

(** C4. Start the process with any database and any retry bound and let it
    take any sequence of steps (poll ticks with any listing, runs of
    [processMessage] with any answers of the collaborators, under any
    configuration).  Every status change that an [updateStatus] call makes
    to a record is one of pending -> processing, processing -> sent,
    processing -> pending, processing -> failed, failed -> processing. *)
Theorem C4_state_machine_closure
  (cfg : SafetyConfig) (d : MessageDatabase) (maxRetries : Number) (steps : list Step) :
  Forall (fun t => In t [(pending, Database.processing);
                         (Database.processing, sent);
                         (Database.processing, pending);
                         (Database.processing, failed);
                         (failed, Database.processing)])
         (transitions (effects_of (run cfg steps (boot d maxRetries)))).
Proof.
  exact (proj2 (run_inv cfg steps (boot d maxRetries) (Inv_boot d maxRetries))).
Qed.

End PipelineFacts.

(* ===================================================================== *)
(** ** Substrings *)
(* ===================================================================== *)

Module StringFacts.

Lemma prefix_iff (sub s : string) :
  String.prefix sub s = true <-> exists post, s = (sub ++ post)%string.
Proof.
  revert s. induction sub as [|c sub IH]; intros s.
  - split; [intros _; exists s; reflexivity|intros _; destruct s; reflexivity].
  - destruct s as [|c' s]; simpl.
    + split; [discriminate|intros [post H]; discriminate].
    + destruct (Ascii.ascii_dec c c') as [<-|Hne].
      * rewrite IH. split; intros [post H]; exists post; congruence.
      * split; [discriminate|]. intros [post H]. congruence.
Qed.

Lemma append_assoc (a b c : string) : ((a ++ b) ++ c = a ++ (b ++ c))%string.
Proof. induction a as [|x a IH]; simpl; [reflexivity|]. rewrite IH. reflexivity. Qed.

Lemma append_nil_r (a : string) : (a ++ "" = a)%string.
Proof. induction a as [|x a IH]; simpl; [reflexivity|]. rewrite IH. reflexivity. Qed.

(** [s.includes(sub)] holds exactly when [sub] occurs in [s]. *)
Lemma includes_iff (s sub : string) :
  includes s sub = true <-> exists pre post, s = (pre ++ sub ++ post)%string.
Proof.
  induction s as [|c s IH].
  - cbn [includes]. destruct (String.prefix sub "") eqn:E.
    + split; [intros _|reflexivity]. apply prefix_iff in E. destruct E as [post E].
      exists "", post. exact E.
    + split; [discriminate|]. intros (pre & post & H).
      destruct pre; [|discriminate]. simpl in H.
      assert (String.prefix sub "" = true) by (apply prefix_iff; eauto). congruence.
  - cbn [includes]. destruct (String.prefix sub (String c s)) eqn:E.
    + split; [intros _|reflexivity]. apply prefix_iff in E. destruct E as [post E].
      exists "", post. exact E.
    + rewrite IH. split.
      * intros (pre & post & ->). exists (String c pre), post. reflexivity.
      * intros (pre & post & H). destruct pre as [|c' pre].
        -- simpl in H.
           assert (String.prefix sub (String c s) = true) by (apply prefix_iff; eauto).
           congruence.
        -- simpl in H. injection H as _ ->. eauto.
Qed.

Lemma includes_refl (s : string) : includes s s = true.
Proof. apply includes_iff. exists "", "". simpl. rewrite append_nil_r. reflexivity. Qed.

Lemma includes_trans (s t u : string) :
  includes s t = true -> includes t u = true -> includes s u = true.
Proof.
  rewrite !includes_iff. intros (p1 & q1 & ->) (p2 & q2 & ->).
  exists (p1 ++ p2)%string, (q2 ++ q1)%string.
  rewrite !append_assoc. reflexivity.
Qed.

Lemma includes_middle (pre sub post : string) :
  includes (pre ++ sub ++ post) sub = true.
Proof. apply includes_iff. eauto. Qed.

End StringFacts.

(* ===================================================================== *)
(** ** Laws of the Store's methods *)
(* ===================================================================== *)

Module StoreLaws.
Import Database StoreReads DatabaseFacts.

Lemma find_none_of_existsb {A} (p : A -> bool) (l : list A) :
  existsb p l = false -> find p l = None.
Proof.
  induction l as [|x l IH]; simpl; [reflexivity|].
  destruct (p x); simpl; [discriminate|exact IH].
Qed.

Lemma find_app_last {A} (p : A -> bool) (l : list A) (x : A) :
  find p (l ++ [x])
  = match find p l with
    | Some y => Some y
    | None => if p x then Some x else None
    end.
Proof.
  induction l as [|y l IH]; simpl; [destruct (p x); reflexivity|].
  destruct (p y); [reflexivity|exact IH].
Qed.

Lemma find_map_same {A} (p : A -> bool) (f : A -> A) (l : list A) :
  (forall x, p (f x) = p x) -> find p (map f l) = option_map f (find p l).
Proof.
  intros H. induction l as [|x l IH]; simpl; [reflexivity|].
  rewrite H. destruct (p x); [reflexivity|exact IH].
Qed.

Lemma messageExists_false_rows d t g :
  db d = Some t -> messageExists d g = false ->
  existsb (has_gmail_id g) (rows t) = false.
Proof.
  unfold messageExists. intros ->. rewrite existsb_filter. auto.
Qed.

Example insert_then_get_example :
  getMessageByGmailId
    (fst (insertMessage fresh 7
            (mkMessage None "m1" "Nancy E" (Some "") "Booking Inquiry from Nancy E"
                       (Some "ignored") sent None None (Some "ignored") None)))
    "m1"
  = Some (mkMessage (Some 1) "m1" "Nancy E" None "Booking Inquiry from Nancy E"
                    None sent (Some 7) None None None).
Proof. reflexivity. Qed.

(** X1. On an open database, inserting a message whose id has no record
    succeeds with the next rowid, and [getMessageByGmailId] then returns
    the record as the INSERT wrote it: the id, name, message and status
    given, the e-mail and URL with the empty string turned into NULL, no
    response, no error, [created_at] now, whatever the caller put in the
    other fields.  The lookups of all other ids are unchanged. *)
Theorem X1_insert_then_get
  (d : MessageDatabase) (t : SqlJsDatabase) (now : Timestamp) (m : Message)
  (Hopen : db d = Some t)
  (Hnew : messageExists d (gmail_message_id m) = false) :
  snd (insertMessage d now m) = Ok (S (last_rowid t))
  /\ getMessageByGmailId (fst (insertMessage d now m)) (gmail_message_id m)
     = Some (mkMessage (Some (S (last_rowid t))) (gmail_message_id m) (tenant_name m)
                       (or_null (tenant_email m)) (tenant_message m) None (status m)
                       (Some now) None None (or_null (ff_conversation_url m)))
  /\ messageExists (fst (insertMessage d now m)) (gmail_message_id m) = true
  /\ (forall g, g <> gmail_message_id m ->
        getMessageByGmailId (fst (insertMessage d now m)) g = getMessageByGmailId d g).
Proof.
  rewrite (insertMessage_new d t now m Hopen Hnew). cbn [fst snd].
  pose proof (messageExists_false_rows d t _ Hopen Hnew) as Hrows.
  split; [reflexivity|]. split; [|split].
  - unfold getMessageByGmailId. cbn [db rows]. rewrite find_app_last.
    rewrite (find_none_of_existsb _ _ Hrows).
    unfold has_gmail_id at 1. cbn [gmail_message_id inserted_row].
    rewrite String.eqb_refl. reflexivity.
  - unfold messageExists. cbn [db rows]. rewrite filter_app, length_app.
    cbn [filter]. unfold has_gmail_id at 2. cbn [gmail_message_id inserted_row].
    rewrite String.eqb_refl. simpl. apply Nat.ltb_lt. lia.
  - intros g Hg. unfold getMessageByGmailId. cbn [db rows]. rewrite Hopen, find_app_last.
    destruct (find (has_gmail_id g) (rows t)); [reflexivity|].
    unfold has_gmail_id. cbn [gmail_message_id inserted_row].
    replace (gmail_message_id m =? g)%string with false; [reflexivity|].
    symmetry. apply String.eqb_neq. congruence.
Qed.

Lemma X1_witness :
  let m := mkMessage None "m1" "Nancy E" (Some "") "Booking Inquiry from Nancy E"
                     None pending None None None None in
  snd (insertMessage fresh 7 m) = Ok 1
  /\ getMessageByGmailId (fst (insertMessage fresh 7 m)) "m1"
     = Some (mkMessage (Some 1) "m1" "Nancy E" None "Booking Inquiry from Nancy E"
                       None pending (Some 7) None None None)
  /\ messageExists (fst (insertMessage fresh 7 m)) "m1" = true
  /\ (forall g, g <> "m1" ->
        getMessageByGmailId (fst (insertMessage fresh 7 m)) g
        = getMessageByGmailId fresh g).
Proof.
  intros m.
  exact (X1_insert_then_get fresh (mkTable [] 0) 7 m eq_refl eq_refl).
Defined.

(** The row after [updateStatus]. *)
Definition with_status (now : Timestamp) (st : Status) (err : option string)
           (r : Message) : Message :=
  mkMessage (id r) (gmail_message_id r) (tenant_name r) (tenant_email r)
            (tenant_message r) (our_response r) st (created_at r) (Some now)
            (or_null err) (ff_conversation_url r).

(** The row after [updateResponse]. *)
Definition with_response (response : string) (r : Message) : Message :=
  mkMessage (id r) (gmail_message_id r) (tenant_name r) (tenant_email r)
            (tenant_message r) (Some response) (status r) (created_at r)
            (processed_at r) (error r) (ff_conversation_url r).

Lemma update_where_nothing g f t :
  existsb (has_gmail_id g) (rows t) = false -> update_where g f t = t.
Proof.
  intros H. unfold update_where. destruct t as [rs n]. cbn [rows last_rowid] in *.
  f_equal. induction rs as [|r rs IH]; [reflexivity|].
  simpl in H. apply orb_false_elim in H. destruct H as [H1 H2].
  simpl. rewrite H1, IH by exact H2. reflexivity.
Qed.

(** X2. [updateStatus] as seen through [getMessageByGmailId]: the record
    of the id gets the new status, the error argument (NULL for none or
    for the empty string) and [processed_at], and keeps every other
    column; the records of other ids are untouched; and on an id without
    a record, or on a closed database, the call changes nothing. *)
Theorem X2_updateStatus_lookup
  (d : MessageDatabase) (now : Timestamp) (g : string) (st : Status)
  (err : option string) :
  getMessageByGmailId (updateStatus d now g st err) g
  = option_map (with_status now st err) (getMessageByGmailId d g)
  /\ (forall g', g' <> g ->
        getMessageByGmailId (updateStatus d now g st err) g' = getMessageByGmailId d g')
  /\ (messageExists d g = false -> updateStatus d now g st err = d).
Proof.
  unfold getMessageByGmailId, updateStatus, messageExists.
  destruct d as [[t|]]; cbn [db]; [|repeat split; reflexivity].
  split; [|split].
  - unfold update_where. cbn [rows].
    rewrite find_map_same.
    + destruct (find (has_gmail_id g) (rows t)) as [r|] eqn:E; [|reflexivity].
      apply find_some in E. destruct E as [_ E]. simpl. rewrite E. reflexivity.
    + intros r. destruct (has_gmail_id g r) eqn:E; [|exact E]. exact E.
  - intros g' Hne. unfold update_where. cbn [rows].
    rewrite find_map_same.
    + destruct (find (has_gmail_id g') (rows t)) as [r|] eqn:E; [|reflexivity].
      apply find_some in E. destruct E as [_ E]. simpl.
      replace (has_gmail_id g r) with false; [reflexivity|].
      symmetry. apply has_gmail_id_true in E. unfold has_gmail_id.
      apply String.eqb_neq. congruence.
    + intros r. destruct (has_gmail_id g r); reflexivity.
  - intros H. rewrite <- existsb_filter in H.
    rewrite update_where_nothing by exact H. reflexivity.
Qed.

Lemma X2_witness :
  updateStatus fresh 5 "m1" sent (Some "late") = fresh.
Proof.
  exact (proj2 (proj2 (X2_updateStatus_lookup fresh 5 "m1" sent (Some "late"))) eq_refl).
Defined.

Lemma count_partition (l : list Message) :
  count_status pending l + count_status processing l
  + count_status sent l + count_status failed l = List.length l.
Proof.
  unfold count_status. induction l as [|r l IH]; [reflexivity|].
  cbn [filter List.length]. destruct (status r); cbn [Status_eqb List.length]; lia.
Qed.

Lemma all_rows_updateStatus_length d now g st err :
  List.length (all_rows (updateStatus d now g st err)) = List.length (all_rows d).
Proof.
  unfold all_rows, updateStatus. destruct d as [[t|]]; cbn [db]; [|reflexivity].
  unfold update_where. cbn [rows]. apply length_map.
Qed.

Lemma all_rows_updateResponse_length d g response :
  List.length (all_rows (updateResponse d g response)) = List.length (all_rows d).
Proof.
  unfold all_rows, updateResponse. destruct d as [[t|]]; cbn [db]; [|reflexivity].
  unfold update_where. cbn [rows]. apply length_map.
Qed.

Lemma stat_total_length d : stat_total (getStats d) = List.length (all_rows d).
Proof.
  unfold getStats, all_rows. destruct (db d) as [t|]; [|reflexivity].
  destruct (rows t); reflexivity.
Qed.

(** X3. [getStats]: [total] is the number of records; on a table with at
    least one record the four counters are numbers that add up to [total];
    on an open but empty table they are NULL (the SUM over no row), not
    the zeros returned for a closed database; and neither [updateStatus]
    nor [updateResponse] changes [total]. *)
Theorem X3_getStats_counts (d : MessageDatabase) :
  stat_total (getStats d) = List.length (all_rows d)
  /\ (all_rows d <> [] ->
      exists p r s f,
        stat_pending (getStats d) = Some p /\ stat_processing (getStats d) = Some r
        /\ stat_sent (getStats d) = Some s /\ stat_failed (getStats d) = Some f
        /\ p + r + s + f = stat_total (getStats d))
  /\ (db d <> None -> all_rows d = [] ->
      getStats d = mkStats 0 None None None None)
  /\ (db d = None -> getStats d = mkStats 0 (Some 0) (Some 0) (Some 0) (Some 0))
  /\ (forall now g st err,
        stat_total (getStats (updateStatus d now g st err)) = stat_total (getStats d))
  /\ (forall g response,
        stat_total (getStats (updateResponse d g response)) = stat_total (getStats d)).
Proof.
  split; [apply stat_total_length|]. split; [|split; [|split; [|split]]].
  - unfold getStats, all_rows. destruct (db d) as [t|]; [|congruence].
    destruct (rows t) as [|r0 l] eqn:E; [congruence|]. intros _.
    do 4 eexists. repeat (split; [reflexivity|]). cbn [stat_total].
    apply count_partition.
  - unfold getStats, all_rows. destruct (db d) as [t|]; [|congruence].
    intros _ ->. reflexivity.
  - unfold getStats. intros ->. reflexivity.
  - intros. rewrite !stat_total_length. apply all_rows_updateStatus_length.
  - intros. rewrite !stat_total_length. apply all_rows_updateResponse_length.
Qed.

Lemma X3_witness :
  let d := fst (insertMessage fresh 7
                  (mkMessage None "m1" "Nancy E" None "hello" None pending
                             None None None None)) in
  exists p r s f,
    stat_pending (getStats d) = Some p /\ stat_processing (getStats d) = Some r
    /\ stat_sent (getStats d) = Some s /\ stat_failed (getStats d) = Some f
    /\ p + r + s + f = stat_total (getStats d).
Proof.
  intros d. apply (proj1 (proj2 (X3_getStats_counts d))). discriminate.
Defined.

(** X4. After [close] every method takes its closed-database branch:
    the two lookups find nothing, the two updates change nothing,
    [getStats] reports zeros, [insertMessage] throws
    "Database not initialized" and stores nothing, and a second [close]
    does nothing. *)
Theorem X4_closed_database (d : MessageDatabase) (now : Timestamp) (g : string)
  (st : Status) (err : option string) (response : string) (m : Message) :
  let c := close d in
  messageExists c g = false
  /\ getMessageByGmailId c g = None
  /\ updateStatus c now g st err = c
  /\ updateResponse c g response = c
  /\ getStats c = mkStats 0 (Some 0) (Some 0) (Some 0) (Some 0)
  /\ insertMessage c now m = (c, Throw (mkError "Database not initialized"))
  /\ close c = c.
Proof.
  assert (E : db (close d) = None).
  { unfold close. destruct (db d) eqn:E; [reflexivity|exact E]. }
  cbv zeta. set (c := close d) in *.
  assert (Ec : c = mkDb None) by (destruct c as [x]; cbn [db] in E; congruence).
  rewrite Ec. repeat split.
Qed.

(** X5. Two updates of the Store compose column by column: a status
    update and a response update commute, whatever the two ids, and of two
    updates of the same kind on the same id the later one wins. *)
Theorem X5_updates_compose (d : MessageDatabase) (t1 t2 : Timestamp) (g g' : string)
  (s1 s2 : Status) (e1 e2 : option string) (r1 r2 : string) :
  updateResponse (updateStatus d t1 g s1 e1) g' r1
  = updateStatus (updateResponse d g' r1) t1 g s1 e1
  /\ updateStatus (updateStatus d t1 g s1 e1) t2 g s2 e2 = updateStatus d t2 g s2 e2
  /\ updateResponse (updateResponse d g r1) g r2 = updateResponse d g r2.
Proof.
  unfold updateStatus, updateResponse.
  destruct d as [[[rs n]|]]; cbn [db]; [|repeat split].
  unfold update_where. cbn [rows last_rowid].
  repeat split;
    match goal with
    | |- mkDb (Some (mkTable ?a _)) = mkDb (Some (mkTable ?b _)) =>
        replace a with b; [reflexivity|]
    end;
    rewrite !map_map; apply map_ext; intros r;
    unfold has_gmail_id;
    destruct (gmail_message_id r =? g)%string eqn:E1;
    destruct (gmail_message_id r =? g')%string eqn:E2;
    cbn [gmail_message_id]; rewrite ?E1, ?E2; reflexivity.
Qed.

End StoreLaws.

(* ===================================================================== *)
(** ** Laws of the Queue's methods *)
(* ===================================================================== *)

Module QueueLaws.
Import Queue QueueReads QueueFacts.

Lemma occurrences_app g a b :
  PipelineFacts.occurrences g (a ++ b) = PipelineFacts.occurrences g a + PipelineFacts.occurrences g b.
Proof. unfold PipelineFacts.occurrences. rewrite filter_app, length_app. reflexivity. Qed.

Lemma occurrences_cons g x l :
  PipelineFacts.occurrences g (x :: l) = (if has_id g x then 1 else 0) + PipelineFacts.occurrences g l.
Proof. unfold PipelineFacts.occurrences. cbn [filter]. destruct (has_id g x); reflexivity. Qed.

Lemma occurrences_none g l :
  (forall y, In y l -> has_id g y = false) -> PipelineFacts.occurrences g l = 0.
Proof.
  induction l as [|x l IH]; intros H; [reflexivity|].
  rewrite occurrences_cons, (H x (or_introl eq_refl)), IH; [reflexivity|].
  intros y Hy. apply H. right. exact Hy.
Qed.

Lemma added_handover l : added (map EvProcessMessage l) = [].
Proof. induction l; [reflexivity|exact IHl]. Qed.

Lemma completed_handover l : completed (map EvProcessMessage l) = [].
Proof. induction l; [reflexivity|exact IHl]. Qed.

Lemma abandoned_handover l : abandoned (map EvProcessMessage l) = [].
Proof. induction l; [reflexivity|exact IHl]. Qed.

Lemma enqueue_eq l b n now m :
  let item := mkQueued (new_gmailMessageId m) (new_tenantName m)
                       (new_tenantEmail m) (new_tenantMessage m) 0 now in
  enqueue (mkQueue l b n) now m
  = if b then (mkQueue (l ++ [item]) true n, [EvMessageAdded item])
    else (mkQueue (l ++ [item]) true n,
          EvMessageAdded item :: map EvProcessMessage (firstn 1 (l ++ [item]))).
Proof.
  intros item. unfold enqueue. cbn [queue processing maxRetries].
  destruct b; cbn [negb]; [reflexivity|].
  rewrite processNext_eq. fold item. destruct l; reflexivity.
Qed.

Lemma call_ids_conserved q c g :
  PipelineFacts.occurrences g (queue q) + PipelineFacts.occurrences g (added (snd (call q c)))
  = PipelineFacts.occurrences g (queue (fst (call q c)))
    + PipelineFacts.occurrences g (completed (snd (call q c)))
    + PipelineFacts.occurrences g (abandoned (snd (call q c))).
Proof.
  destruct q as [l b n]. destruct c as [now m|g0|g0 e]; cbn [call].
  - rewrite enqueue_eq. destruct b; cbn [fst snd queue];
      cbn [added completed abandoned flat_map app];
      fold (added (map EvProcessMessage (firstn 1 (l ++ [mkQueued (new_gmailMessageId m)
             (new_tenantName m) (new_tenantEmail m) (new_tenantMessage m) 0 now]))));
      fold (completed (map EvProcessMessage (firstn 1 (l ++ [mkQueued (new_gmailMessageId m)
             (new_tenantName m) (new_tenantEmail m) (new_tenantMessage m) 0 now]))));
      fold (abandoned (map EvProcessMessage (firstn 1 (l ++ [mkQueued (new_gmailMessageId m)
             (new_tenantName m) (new_tenantEmail m) (new_tenantMessage m) 0 now]))));
      rewrite ?added_handover, ?completed_handover, ?abandoned_handover;
      rewrite occurrences_app; cbn; lia.
  - destruct (isInQueue (mkQueue l b n) g0) eqn:E.
    + destruct (isInQueue_split _ _ E) as (l1 & x & l2 & Hq & H1 & Hx).
      rewrite (messageProcessed_at _ g0 l1 x l2 Hq H1 Hx), processNext_eq.
      cbn [queue] in Hq. subst l. cbn [fst snd queue].
      cbn [added completed abandoned flat_map app].
      fold (added (map EvProcessMessage (firstn 1 (l1 ++ l2)))).
      fold (completed (map EvProcessMessage (firstn 1 (l1 ++ l2)))).
      fold (abandoned (map EvProcessMessage (firstn 1 (l1 ++ l2)))).
      rewrite added_handover, completed_handover, abandoned_handover.
      rewrite !occurrences_app, !occurrences_cons. cbn. lia.
    + rewrite (messageProcessed_absent _ _ E). cbn. lia.
  - destruct (isInQueue (mkQueue l b n) g0) eqn:E.
    + destruct (isInQueue_split _ _ E) as (l1 & x & l2 & Hq & H1 & Hx).
      rewrite (messageFailed_at _ g0 e l1 x l2 Hq H1 Hx), !processNext_eq.
      cbn [queue] in Hq. subst l. cbn [maxRetries processing].
      assert (Hb : has_id g (bump x) = has_id g x) by reflexivity.
      destruct (at_least (S (retryCount x)) n); cbn [fst snd queue].
      * cbn [added completed abandoned flat_map app].
        fold (added (map EvProcessMessage (firstn 1 (l1 ++ l2)))).
        fold (completed (map EvProcessMessage (firstn 1 (l1 ++ l2)))).
        fold (abandoned (map EvProcessMessage (firstn 1 (l1 ++ l2)))).
        rewrite added_handover, completed_handover, abandoned_handover.
        rewrite !occurrences_app, !occurrences_cons, Hb. cbn. lia.
      * rewrite added_handover, completed_handover, abandoned_handover.
        rewrite !occurrences_app, !occurrences_cons, Hb. cbn. lia.
    + rewrite (messageFailed_absent _ _ e E). cbn. lia.
Qed.

(** X6. Whatever calls are made on the Queue, in or out of protocol, no
    item is lost, duplicated or invented: for every message id, the items
    of that id present at the start plus those added equal those still
    queued plus those completed plus those given up for good. *)
Theorem X6_no_item_lost (q : MessageQueue) (cs : list Call) (g : string) :
  PipelineFacts.occurrences g (queue q) + PipelineFacts.occurrences g (added (snd (calls q cs)))
  = PipelineFacts.occurrences g (queue (fst (calls q cs)))
    + PipelineFacts.occurrences g (completed (snd (calls q cs)))
    + PipelineFacts.occurrences g (abandoned (snd (calls q cs))).
Proof.
  revert q. induction cs as [|c cs IH]; intros q.
  - cbn. lia.
  - rewrite calls_cons. cbn [fst snd].
    rewrite added_app, completed_app, abandoned_app, !occurrences_app.
    pose proof (call_ids_conserved q c g). pose proof (IH (fst (call q c))). lia.
Qed.

(** A sequence of calls without [messageFailed]. *)
Definition no_failures (cs : list Call) : bool :=
  forallb (fun c => match c with CallFailed _ _ => false | _ => true end) cs.

Lemma fifo_call t c t' evs :
  handed_over t -> tracked_call t c = Some (t', evs) ->
  match c with CallFailed _ _ => False | _ => True end ->
  queue (mq t) ++ added evs = completed evs ++ queue (mq t')
  /\ in_flight t ++ dispatched evs = completed evs ++ in_flight t'.
Proof.
  destruct t as [[l b n] fl]. intros Hh Hc Hnf.
  destruct c as [now m|g|g e]; [| |destruct Hnf].
  - rewrite (tracked_enqueue l b n fl now m Hh) in Hc.
    destruct Hh as [Hfl _]. cbn [in_flight mq queue] in Hfl. subst fl.
    injection Hc as <- <-. cbn [mq queue in_flight].
    destruct l; cbn; auto.
  - pose proof Hc as Hc'. cbn [tracked_call in_flight] in Hc'.
    destruct (take_out g fl) as [rest|] eqn:Et; [|discriminate]. clear Hc'.
    destruct (in_flight_is_head l b n fl g rest Hh Et) as (h & r & -> & -> & -> & Hg & ->).
    rewrite (tracked_processed h r n g Hg) in Hc. injection Hc as <- <-.
    cbn [mq queue in_flight].
    cbn [added completed dispatched flat_map app].
    fold (added (map EvProcessMessage (firstn 1 r))).
    fold (completed (map EvProcessMessage (firstn 1 r))).
    fold (dispatched (map EvProcessMessage (firstn 1 r))).
    rewrite added_handover, completed_handover, dispatched_map.
    rewrite app_nil_r. split; reflexivity.
Qed.

Lemma fifo_calls cs : forall t t' evs,
  handed_over t -> tracked_calls t cs = Some (t', evs) -> no_failures cs = true ->
  queue (mq t) ++ added evs = completed evs ++ queue (mq t')
  /\ in_flight t ++ dispatched evs = completed evs ++ in_flight t'.
Proof.
  induction cs as [|c cs IH]; intros t t' evs Hh Hc Hnf.
  - cbn in Hc. injection Hc as <- <-. cbn. rewrite !app_nil_r. auto.
  - destruct (tracked_calls_cons t c cs t' evs Hc) as (t1 & e1 & e2 & H1 & H2 & ->).
    cbn [no_failures forallb] in Hnf. apply andb_prop in Hnf. destruct Hnf as [Hc1 Hcs].
    assert (Hc1' : match c with CallFailed _ _ => False | _ => True end)
      by (destruct c; [exact I|exact I|discriminate]).
    destruct (fifo_call t c t1 e1 Hh H1 Hc1') as [A1 B1].
    destruct (IH t1 t' e2 (tracked_call_handed_over t c t1 e1 Hh H1) H2 Hcs) as [A2 B2].
    rewrite added_app, completed_app, dispatched_app. split.
    + rewrite app_assoc, A1, <- app_assoc, A2, app_assoc. reflexivity.
    + rewrite app_assoc, B1, <- app_assoc, B2, app_assoc. reflexivity.
Qed.

(** X7. First in, first out.  When the Orchestrator follows the hand-over
    protocol and never reports a failure, the items are handed over and
    completed in exactly the order in which they were enqueued: the items
    added are those completed followed by those still queued, and the
    items handed over are those completed followed by the one in flight. *)
Theorem X7_fifo_without_failures
  (n : Number) (cs : list Call) (t : Tracked) (evs : list Event)
  (Hprotocol : tracked_calls (mkTracked (create n) []) cs = Some (t, evs))
  (Hok : no_failures cs = true) :
  added evs = completed evs ++ queue (mq t)
  /\ dispatched evs = completed evs ++ in_flight t.
Proof.
  assert (Hh : handed_over (mkTracked (create n) [])) by (split; reflexivity).
  exact (fifo_calls cs _ t evs Hh Hprotocol Hok).
Qed.

Lemma X7_witness :
  let a := mkQueued "a" "Ann" None "s1" 0 0 in
  let b := mkQueued "b" "Bob" None "s2" 0 1 in
  let c := mkQueued "c" "Cid" None "s3" 0 2 in
  [a; b; c] = [a] ++ [b; c] /\ [a; b] = [a] ++ [b].
Proof.
  intros a b c.
  exact (X7_fifo_without_failures (of_nat 3)
           [CallEnqueue 0 (mkNew "a" "Ann" None "s1");
            CallEnqueue 1 (mkNew "b" "Bob" None "s2");
            CallProcessed "a";
            CallEnqueue 2 (mkNew "c" "Cid" None "s3")]
           (mkTracked (mkQueue [b; c] true (of_nat 3)) [b])
           [EvMessageAdded a; EvProcessMessage a; EvMessageAdded b;
            EvMessageCompleted a; EvProcessMessage b; EvMessageAdded c]
           eq_refl eq_refl).
Defined.



(** X9. A completion signal is honoured once.  When the id is queued at
    most once, [messageProcessed] removes it, and any later completion or
    failure signal for the same id changes nothing and emits nothing. *)
Theorem X9_stale_signal_ignored
  (q : MessageQueue) (g : string) (e : Error)
  (Honce : PipelineFacts.occurrences g (queue q) <= 1) :
  let q1 := fst (messageProcessed q g) in
  isInQueue q1 g = false
  /\ messageProcessed q1 g = (q1, [])
  /\ messageFailed q1 g e = (q1, []).
Proof.
  cbv zeta.
  assert (E : isInQueue (fst (messageProcessed q g)) g = false).
  { destruct (isInQueue q g) eqn:Ein.
    - destruct (isInQueue_split _ _ Ein) as (l1 & x & l2 & Hq & H1 & Hx).
      rewrite (messageProcessed_at q g l1 x l2 Hq H1 Hx). cbn [fst].
      rewrite PipelineFacts.isInQueue_occurrences, processNext_queue. cbn [queue].
      rewrite Hq, occurrences_app, occurrences_cons, Hx in Honce.
      rewrite occurrences_app. apply Nat.ltb_ge. lia.
    - rewrite (messageProcessed_absent q g Ein). exact Ein. }
  split; [exact E|]. split.
  - apply messageProcessed_absent. exact E.
  - apply messageFailed_absent. exact E.
Qed.

Lemma X9_witness :
  let a := mkQueued "a" "Ann" None "s1" 0 0 in
  let b := mkQueued "b" "Bob" None "s2" 0 1 in
  let q1 := fst (messageProcessed (mkQueue [a; b] true (of_nat 3)) "a") in
  isInQueue q1 "a" = false
  /\ messageProcessed q1 "a" = (q1, [])
  /\ messageFailed q1 "a" (mkError "boom") = (q1, []).
Proof.
  intros a b.
  apply (X9_stale_signal_ignored (mkQueue [a; b] true (of_nat 3)) "a" (mkError "boom")).
  cbn. lia.
Defined.

(** X10. [clear] forgets everything but the retry bound: the queue is
    empty and idle, [getStatus] reports so, a signal for any id is then
    ignored, and the next item enqueued is handed over at once, whether
    or not an item handed over before the [clear] is still being worked
    on. *)
Theorem X10_clear_forgets
  (q : MessageQueue) (now : nat) (m : NewMessage) (g : string) (e : Error) :
  let c := clear q in
  let item := mkQueued (new_gmailMessageId m) (new_tenantName m)
                       (new_tenantEmail m) (new_tenantMessage m) 0 now in
  getStatus c = mkStatus 0 false []
  /\ maxRetries c = maxRetries q
  /\ isInQueue c g = false
  /\ messageProcessed c g = (c, [])
  /\ messageFailed c g e = (c, [])
  /\ enqueue c now m
     = (mkQueue [item] true (maxRetries q), [EvMessageAdded item; EvProcessMessage item]).
Proof. cbv zeta. repeat split. Qed.

End QueueLaws.

(* ===================================================================== *)
(** ** What the two subject-line classifiers extract *)
(* ===================================================================== *)

Module ExtractionLaws.
Import StringFacts.

(** Every code unit of [s] satisfies [p]. *)
Fixpoint all_chars (p : ascii -> bool) (s : string) : bool :=
  match s with
  | EmptyString => true
  | String c r => p c && all_chars p r
  end.

Definition is_not (x : ascii) (c : ascii) : bool := negb (Ascii.eqb c x).

(** A code unit that the lazy group takes in before the stop [x]. *)
Definition inside (x : ascii) (c : ascii) : bool :=
  negb (Ascii.eqb c x) && negb (is_line_terminator c).

Lemma prefix_other_char (a c : ascii) (lit s : string) :
  Ascii.eqb c a = false -> String.prefix (String a lit) (String c s) = false.
Proof.
  intros H. cbn [String.prefix]. destruct (ascii_dec a c) as [->|_]; [|reflexivity].
  rewrite Ascii.eqb_refl in H. discriminate.
Qed.

Lemma truthy_append_char (acc : string) (c : ascii) (b : string) :
  truthy ((acc ++ String c EmptyString) ++ b) = true.
Proof. destruct acc; reflexivity. Qed.

Lemma lazy_group_stop stop at_end : forall body acc rest,
  all_chars (inside stop) body = true -> truthy (acc ++ body) = true ->
  lazy_group stop at_end acc (body ++ String stop rest) = Some (acc ++ body)%string.
Proof.
  induction body as [|c b IH]; intros acc rest Hb Ht.
  - rewrite append_nil_r in *. cbn [append lazy_group].
    rewrite Ht, Ascii.eqb_refl. reflexivity.
  - cbn [all_chars] in Hb. apply andb_prop in Hb. destruct Hb as [Hc Hb].
    unfold inside in Hc. apply andb_prop in Hc. destruct Hc as [Hc1 Hc2].
    apply negb_true_iff in Hc1, Hc2.
    cbn [append lazy_group]. rewrite Hc1, Hc2, andb_false_r.
    rewrite (IH _ rest Hb (truthy_append_char acc c b)).
    rewrite append_assoc. reflexivity.
Qed.

Lemma lazy_group_end stop : forall body acc,
  all_chars (inside stop) body = true -> truthy (acc ++ body) = true ->
  lazy_group stop true acc body = Some (acc ++ body)%string.
Proof.
  induction body as [|c b IH]; intros acc Hb Ht.
  - rewrite append_nil_r in *. cbn [lazy_group]. rewrite Ht. reflexivity.
  - cbn [all_chars] in Hb. apply andb_prop in Hb. destruct Hb as [Hc Hb].
    unfold inside in Hc. apply andb_prop in Hc. destruct Hc as [Hc1 Hc2].
    apply negb_true_iff in Hc1, Hc2.
    cbn [lazy_group]. rewrite Hc1, Hc2, andb_false_r.
    rewrite (IH _ Hb (truthy_append_char acc c b)).
    rewrite append_assoc. reflexivity.
Qed.

Lemma match_group_skip (a : ascii) (lit : string) stop at_end : forall pre s,
  all_chars (is_not a) pre = true ->
  match_group (String a lit) stop at_end (pre ++ s)
  = match_group (String a lit) stop at_end s.
Proof.
  induction pre as [|c pre IH]; intros s H; [reflexivity|].
  cbn [all_chars] in H. apply andb_prop in H. destruct H as [Hc H].
  apply negb_true_iff in Hc.
  change ((String c pre ++ s)%string) with (String c (pre ++ s)).
  cbn [match_group]. rewrite (prefix_other_char a c lit (pre ++ s) Hc).
  apply IH. exact H.
Qed.

Lemma drop_append (lit s : string) : drop (String.length lit) (lit ++ s) = s.
Proof. induction lit as [|c lit IH]; [reflexivity|exact IH]. Qed.

Lemma prefix_append (lit s : string) : String.prefix lit (lit ++ s) = true.
Proof. apply prefix_iff. exists s. reflexivity. Qed.

Lemma match_group_eq lit stop at_end s :
  match_group lit stop at_end s
  = match (if String.prefix lit s
           then lazy_group stop at_end EmptyString (drop (String.length lit) s)
           else None) with
    | Some g => Some g
    | None =>
        match s with
        | EmptyString => None
        | String _ r => match_group lit stop at_end r
        end
    end.
Proof. destruct s; reflexivity. Qed.

Lemma match_group_here lit stop at_end s g :
  lazy_group stop at_end EmptyString s = Some g ->
  match_group lit stop at_end (lit ++ s) = Some g.
Proof.
  intros H. rewrite match_group_eq, prefix_append, drop_append, H. reflexivity.
Qed.

Lemma match_group_none (a : ascii) (lit : string) stop at_end : forall s,
  all_chars (is_not a) s = true -> match_group (String a lit) stop at_end s = None.
Proof.
  induction s as [|c s IH]; intros H; [reflexivity|].
  cbn [all_chars] in H. apply andb_prop in H. destruct H as [Hc H].
  apply negb_true_iff in Hc.
  cbn [match_group]. rewrite (prefix_other_char a c lit s Hc). apply IH. exact H.
Qed.

(** The name group of a subject [pre ++ lit ++ name ++ rest] whose name
    runs up to a bracket or to the end. *)
Lemma name_group (a : ascii) (lit pre name rest : string) :
  all_chars (is_not a) pre = true ->
  truthy name = true ->
  all_chars (inside "[") name = true ->
  rest = EmptyString \/ (exists r, rest = String "[" r) ->
  match_group (String a lit) "[" true (pre ++ String a lit ++ name ++ rest) = Some name.
Proof.
  intros Hpre Hname Hin Hrest.
  rewrite (match_group_skip a lit "[" true pre _ Hpre).
  apply match_group_here.
  destruct Hrest as [->|[r ->]].
  - rewrite append_nil_r. exact (lazy_group_end "[" name EmptyString Hin Hname).
  - exact (lazy_group_stop "[" true name EmptyString r Hin Hname).
Qed.

(** X11. The tenant name.  In a subject that reads, after a prefix
    without the letter B, "Booking Inquiry from NAME" followed by a
    bracket or by nothing, where NAME is not empty and holds no bracket
    and no line break, the server's classifier finds a new inquiry whose
    tenant name is NAME trimmed; the same holds for
    "Property Owner Message from NAME" after a prefix without the letter
    P, when the subject does not also contain "Booking Inquiry from". *)
Theorem X11_tenant_name_extracted (pre name rest from : string)
  (Hname : truthy name = true)
  (Hin : all_chars (inside "[") name = true)
  (Hrest : rest = EmptyString \/ (exists r, rest = String "[" r)) :
  (all_chars (is_not "B") pre = true ->
   let c := Categorize.categorizeEmail
              (pre ++ "Booking Inquiry from " ++ name ++ rest) from in
   Categorize.type c = Categorize.NEW_INQUIRY
   /\ Categorize.tenantName c = Some (trim name))
  /\ (all_chars (is_not "P") pre = true ->
      let subject := (pre ++ "Property Owner Message from " ++ name ++ rest)%string in
      includes subject "Booking Inquiry from" = false ->
      Categorize.type (Categorize.categorizeEmail subject from) = Categorize.NEW_INQUIRY
      /\ Categorize.tenantName (Categorize.categorizeEmail subject from)
         = Some (trim name)).
Proof.
  split.
  - intros Hpre. cbv zeta. unfold Categorize.categorizeEmail.
    replace (includes (pre ++ "Booking Inquiry from " ++ name ++ rest)
                      "Booking Inquiry from") with true.
    + cbn [Categorize.type Categorize.tenantName].
      split; [reflexivity|].
      change ("Booking Inquiry from " ++ name ++ rest)%string
        with (String "B" "ooking Inquiry from " ++ name ++ rest)%string.
      change "Booking Inquiry from " with (String "B" "ooking Inquiry from ") at 1.
      rewrite (name_group "B" "ooking Inquiry from " pre name rest Hpre Hname Hin Hrest).
      reflexivity.
    + symmetry. apply includes_iff. exists pre, (" " ++ name ++ rest)%string.
      reflexivity.
  - intros Hpre. cbv zeta. intros Hno. unfold Categorize.categorizeEmail.
    rewrite Hno.
    replace (includes (pre ++ "Property Owner Message from " ++ name ++ rest)
                      "Property Owner Message") with true.
    + cbn [Categorize.type Categorize.tenantName].
      split; [reflexivity|].
      change ("Property Owner Message from " ++ name ++ rest)%string
        with (String "P" "roperty Owner Message from " ++ name ++ rest)%string.
      change "Property Owner Message from "
        with (String "P" "roperty Owner Message from ") at 1.
      rewrite (name_group "P" "roperty Owner Message from " pre name rest
                 Hpre Hname Hin Hrest).
      reflexivity.
    + symmetry. apply includes_iff. exists pre, (" from " ++ name ++ rest)%string.
      reflexivity.
Qed.

Lemma X11_witness :
  Categorize.type (Categorize.categorizeEmail
                     "Fwd: Booking Inquiry from Nancy E [ID#4521]" "x")
  = Categorize.NEW_INQUIRY
  /\ Categorize.tenantName (Categorize.categorizeEmail
                              "Fwd: Booking Inquiry from Nancy E [ID#4521]" "x")
     = Some "Nancy E".
Proof.
  exact (proj1 (X11_tenant_name_extracted "Fwd: " "Nancy E " "[ID#4521]" "x"
                  eq_refl eq_refl (or_intror (ex_intro _ "ID#4521]" eq_refl)))
               eq_refl).
Defined.

(** X12. The tenant e-mail address is what stands between the first
    angle bracket of the From header and the next closing one, when that
    is not empty and holds no line break; a From header without an
    opening angle bracket gives no address.  The subject plays no part. *)
Theorem X12_tenant_email_extracted (subject pre addr post : string)
  (Hpre : all_chars (is_not "<") pre = true)
  (Haddr : truthy addr = true)
  (Hin : all_chars (inside ">") addr = true) :
  Categorize.tenantEmail
    (Categorize.categorizeEmail subject (pre ++ "<" ++ addr ++ ">" ++ post))
  = Some addr
  /\ Categorize.tenantEmail (Categorize.categorizeEmail subject pre) = None.
Proof.
  unfold Categorize.categorizeEmail.
  destruct (if includes subject "Booking Inquiry from" then _ else _) as [ty nm].
  cbn [Categorize.tenantEmail]. split.
  - change "<"%string with (String "<" EmptyString).
    rewrite (match_group_skip "<" EmptyString ">" false pre _ Hpre).
    apply match_group_here.
    exact (lazy_group_stop ">" false addr EmptyString post Hin Haddr).
  - change "<"%string with (String "<" EmptyString).
    exact (match_group_none "<" EmptyString ">" false pre Hpre).
Qed.

Lemma X12_witness :
  Categorize.tenantEmail
    (Categorize.categorizeEmail "s" "Nancy E <nancy@example.com>")
  = Some "nancy@example.com"
  /\ Categorize.tenantEmail (Categorize.categorizeEmail "s" "Nancy E ") = None.
Proof.
  exact (X12_tenant_email_extracted "s" "Nancy E " "nancy@example.com" ""
           eq_refl eq_refl eq_refl).
Defined.

Lemma digits_run : forall ds acc post,
  all_chars Standalone.is_digit ds = true -> truthy (acc ++ ds) = true ->
  Standalone.digits_then_bracket acc (ds ++ String "]" post) = Some (acc ++ ds)%string.
Proof.
  induction ds as [|c ds IH]; intros acc post Hd Ht.
  - rewrite append_nil_r in *. cbn [append Standalone.digits_then_bracket].
    change (Standalone.is_digit "]") with false. cbn iota.
    rewrite Ht. reflexivity.
  - cbn [all_chars] in Hd. apply andb_prop in Hd. destruct Hd as [Hc Hd].
    cbn [append Standalone.digits_then_bracket]. rewrite Hc.
    rewrite (IH _ post Hd (truthy_append_char acc c ds)).
    rewrite append_assoc. reflexivity.
Qed.

Lemma match_inquiry_id_eq s :
  Standalone.match_inquiry_id s
  = match (if String.prefix "[ID#" s
           then Standalone.digits_then_bracket EmptyString (drop 4 s)
           else None) with
    | Some g => Some g
    | None =>
        match s with
        | EmptyString => None
        | String _ r => Standalone.match_inquiry_id r
        end
    end.
Proof. destruct s; reflexivity. Qed.

Lemma match_inquiry_id_skip : forall pre s,
  all_chars (is_not "[") pre = true ->
  Standalone.match_inquiry_id (pre ++ s) = Standalone.match_inquiry_id s.
Proof.
  induction pre as [|c pre IH]; intros s H; [reflexivity|].
  cbn [all_chars] in H. apply andb_prop in H. destruct H as [Hc H].
  apply negb_true_iff in Hc.
  change ((String c pre ++ s)%string) with (String c (pre ++ s)).
  rewrite match_inquiry_id_eq.
  change "[ID#"%string with (String "[" "ID#").
  rewrite (prefix_other_char "[" c "ID#" (pre ++ s) Hc).
  apply IH. exact H.
Qed.

(** X13. The stand-alone poller reads the inquiry id as the digits of
    the first [[ID#digits]] tag of the subject: with no bracket before the
    tag and at least one digit in it, the id is exactly that run of
    digits, whatever follows. *)
Theorem X13_inquiry_id_extracted (pre ds post : string)
  (Hpre : all_chars (is_not "[") pre = true)
  (Hsome : truthy ds = true)
  (Hdigits : all_chars Standalone.is_digit ds = true) :
  Standalone.inquiryId
    (Standalone.categorizeEmail (pre ++ "[ID#" ++ ds ++ "]" ++ post))
  = Some ds.
Proof.
  unfold Standalone.categorizeEmail.
  destruct (if includes _ "Booking Inquiry from" then _ else _) as [ty nm].
  cbn [Standalone.inquiryId].
  rewrite (match_inquiry_id_skip pre _ Hpre), match_inquiry_id_eq.
  rewrite prefix_append.
  change 4 with (String.length "[ID#"). rewrite drop_append.
  change ("]" ++ post)%string with (String "]" post).
  rewrite (digits_run ds EmptyString post Hdigits Hsome). reflexivity.
Qed.

Lemma X13_witness :
  Standalone.inquiryId
    (Standalone.categorizeEmail "Booking Inquiry from Nancy E [ID#4521] (2 nights)")
  = Some "4521".
Proof.
  exact (X13_inquiry_id_extracted "Booking Inquiry from Nancy E " "4521" " (2 nights)"
           eq_refl eq_refl eq_refl).
Defined.

(** X14. The two classifiers agree.  On every subject the stand-alone
    poller of [gmail-poller.ts] and the server's poller of
    [cron-gmail-poller.ts] find the same type and the same name, whatever
    the From header: the separate test of the stand-alone poller for
    "New reply from Furnished Finder user" and the server's for
    "New reply from" are both covered by the test for "reply from". *)
Theorem X14_classifiers_agree (subject from : string) :
  Standalone.type (Standalone.categorizeEmail subject)
  = Categorize.type (Categorize.categorizeEmail subject from)
  /\ Standalone.name (Standalone.categorizeEmail subject)
     = Categorize.tenantName (Categorize.categorizeEmail subject from).
Proof.
  unfold Standalone.categorizeEmail, Categorize.categorizeEmail.
  destruct (includes subject "Booking Inquiry from"); [split; reflexivity|].
  destruct (includes subject "Property Owner Message"); [split; reflexivity|].
  destruct (includes subject "reply from") eqn:Er.
  - rewrite orb_true_r. cbn [orb].
    destruct (includes subject "New reply from Furnished Finder user");
      split; reflexivity.
  - assert (E1 : includes subject "New reply from Furnished Finder user" = false).
    { destruct (includes subject "New reply from Furnished Finder user") eqn:E;
        [|reflexivity].
      rewrite (includes_trans subject _ "reply from" E eq_refl) in Er. discriminate. }
    assert (E2 : includes subject "New reply from" = false).
    { destruct (includes subject "New reply from") eqn:E; [|reflexivity].
      rewrite (includes_trans subject _ "reply from" E eq_refl) in Er. discriminate. }
    rewrite E1, E2. cbn [orb].
    destruct (includes subject "Re:"); split; reflexivity.
Qed.

End ExtractionLaws.

(* ===================================================================== *)
(** ** Laws of a poll tick, and of starting and stopping the Poller *)
(* ===================================================================== *)

Module PollerLaws.
Import Database Queue Config Pipeline.
Import DatabaseFacts QueueFacts PipelineFacts StringFacts.

(** The ids of the records that [insertMessage] stored. *)
Definition inserted (fx : list Effect) : list string :=
  flat_map (fun e => match e with
                     | FxInsert record (Ok _) => [gmail_message_id record]
                     | _ => []
                     end) fx.

(** The ids of the items passed to [enqueue]. *)
Definition enqueued (fx : list Effect) : list string :=
  flat_map (fun e => match e with
                     | FxEnqueue item => [new_gmailMessageId item]
                     | _ => []
                     end) fx.

Lemma inserted_app a b : inserted (a ++ b) = inserted a ++ inserted b.
Proof. apply flat_map_app. Qed.

Lemma enqueued_app a b : enqueued (a ++ b) = enqueued a ++ enqueued b.
Proof. apply flat_map_app. Qed.

Lemma from_listener_quiet_ids fx :
  Forall from_listener fx -> inserted fx = [] /\ enqueued fx = [].
Proof.
  induction 1 as [|e l He _ [IH1 IH2]]; [split; reflexivity|].
  destruct e; try destruct He; cbn; auto.
Qed.

Lemma for_each_effects {A} (Q : list Effect -> Prop) (body : A -> M unit) (l : list A) :
  Q [] -> (forall a b, Q a -> Q b -> Q (a ++ b)) ->
  (forall x w, Q (effects_of (body x w))) ->
  forall w, Q (effects_of (for_each l body w)).
Proof.
  intros Hnil Happ Hbody. induction l as [|x rest IH]; intros w; [exact Hnil|].
  cbn [for_each]. rewrite bind_run.
  pose proof (Hbody x w) as H1.
  destruct (body x w) as [[w1 fx1] [[]|e]];
    unfold effects_of in *; cbn [fst snd] in *; [|exact H1].
  pose proof (IH w1) as H2.
  destruct (for_each rest body w1) as [[w2 fx2] r2]. cbn [fst snd] in *.
  apply Happ; assumption.
Qed.

Lemma checkGmail_effects (Q : list Effect -> Prop) cfg now listing w :
  Q [] -> (forall a b, Q a -> Q b -> Q (a ++ b)) ->
  (forall m w', Q (effects_of (poll_message cfg now m w'))) ->
  (forall e, Q [FxNotify (SystemError e "Failed to check Gmail for new messages")]) ->
  Q (effects_of (checkGmail cfg now listing w)).
Proof.
  intros Hnil Happ Hbody Hnote. rewrite checkGmail_run.
  destruct listing as [messages|e]; [|apply Hnote].
  cbv zeta. unfold effects_of at 1. cbn [fst snd].
  apply Happ.
  - apply for_each_effects; assumption.
  - destruct (result_of _); [exact Hnil|apply Hnote].
Qed.

(** What a tick may write in test mode. *)
Definition from_test_sender (cfg : SafetyConfig) (fx : Effect) : Prop :=
  match fx with
  | FxInsert record _ => includes (tenant_name record) (TEST_SENDER_NAME cfg) = true
  | FxEnqueue item => includes (new_tenantName item) (TEST_SENDER_NAME cfg) = true
  | _ => True
  end.

Lemma from_listener_test_sender cfg fx :
  Forall from_listener fx -> Forall (from_test_sender cfg) fx.
Proof.
  induction 1 as [|e l He _ IH]; constructor; [|exact IH].
  destruct e; try destruct He; exact I.
Qed.

Lemma verdict_test_mode cfg m record item :
  TEST_MODE cfg = true -> verdict cfg m = Accept record item ->
  includes (tenant_name record) (TEST_SENDER_NAME cfg) = true
  /\ includes (new_tenantName item) (TEST_SENDER_NAME cfg) = true.
Proof.
  unfold verdict. intros Ht. rewrite Ht.
  destruct (mail_headers m) as [headers|e]; [|discriminate].
  destruct (Categorize.type _); try discriminate. cbn [andb].
  destruct (includes _ (TEST_SENDER_NAME cfg)) eqn:E; [|discriminate]. cbn [negb].
  intros H. injection H as <- <-. cbn [tenant_name new_tenantName].
  assert (G : includes (or_default (Categorize.tenantName
                 (Categorize.categorizeEmail
                    (or_default (header "Subject" headers) "(no subject)")
                    (or_default (header "From" headers) "(unknown sender)")))
                 "Unknown Tenant") (TEST_SENDER_NAME cfg) = true).
  { revert E. destruct (Categorize.tenantName _) as [[|c s]|]; cbn [or_default truthy];
      intros E; try exact E;
      exact (includes_trans "Unknown Tenant" "Unknown" _ eq_refl E). }
  split; exact G.
Qed.

(** X15. The test-mode switch.  With [TEST_MODE] on, every record that a
    poll tick inserts into the Store and every item it enqueues carries a
    tenant name that includes [TEST_SENDER_NAME]; a subject without a name
    passes only if "Unknown" includes it. *)
Theorem X15_test_mode_filter
  (cfg : SafetyConfig) (now : Timestamp) (listing : Result (list MailMessage))
  (w : World) (Htest : TEST_MODE cfg = true) :
  Forall (from_test_sender cfg) (effects_of (checkGmail cfg now listing w)).
Proof.
  apply (checkGmail_effects (Forall (from_test_sender cfg))).
  - constructor.
  - intros a b Ha Hb. apply Forall_app. split; assumption.
  - intros m w'. rewrite poll_message_cases.
    destruct (_ || _); [constructor|].
    destruct (verdict cfg m) as [|e|record item] eqn:Ev; try constructor.
    destruct (verdict_test_mode cfg m record item Htest Ev) as [H1 H2].
    rewrite store_and_queue_run.
    destruct (insertMessage (w_db w') now record) as [d1 [rowid|e]].
    + cbv zeta. unfold effects_of at 1. cbn [fst snd].
      constructor; [exact H1|]. constructor; [exact H2|].
      apply from_listener_test_sender.
      apply (on_queue_keeps now (fun q => enqueue q now item)).
    + unfold effects_of. cbn [fst snd]. constructor; [exact H1|constructor].
  - intros e. repeat constructor.
Qed.

Lemma X15_witness :
  Forall (from_test_sender SAFETY_CONFIG)
    (effects_of
       (checkGmail SAFETY_CONFIG 0
          (Ok [mkMail "m1" (Ok [("Subject", Some "Booking Inquiry from Somebody [ID#1]")]);
               mkMail "m2" (Ok [("Subject",
                                 Some ("Booking Inquiry from "
                                       ++ TEST_SENDER_NAME SAFETY_CONFIG ++ " [ID#2]")%string)])])
          (boot fresh (of_nat 3)))).
Proof.
  apply X15_test_mode_filter. reflexivity.
Defined.

Lemma messageExists_texts d d' g :
  texts d' = texts d -> messageExists d' g = messageExists d g.
Proof.
  intros H. rewrite !messageExists_copies, !copies_texts, H. reflexivity.
Qed.

Lemma insertMessage_ok_exists d now m d1 rowid :
  insertMessage d now m = (d1, Ok rowid) ->
  messageExists d1 (gmail_message_id m) = true.
Proof.
  intros H. destruct (db d) as [t|] eqn:Ed.
  - destruct (messageExists d (gmail_message_id m)) eqn:Ex.
    + rewrite (insertMessage_duplicate d now m Ex) in H. discriminate.
    + replace d1 with (fst (insertMessage d now m)) by (rewrite H; reflexivity).
      rewrite messageExists_copies, copies_insertMessage, Ed.
      rewrite messageExists_copies in Ex. unfold copies, rows_with in Ex.
      rewrite <- existsb_filter in Ex. rewrite Ex, String.eqb_refl. reflexivity.
  - rewrite (insertMessage_closed d now m Ed) in H. discriminate.
Qed.

Lemma poll_message_keeps cfg now m w g :
  messageExists (w_db w) g = true ->
  messageExists (w_db (world_of (poll_message cfg now m w))) g = true.
Proof.
  intros H.
  assert (Hk : messageExists (w_db w) g || isInQueue (w_queue w) g = true)
    by (rewrite H; reflexivity).
  destruct (poll_message_dedup cfg now m w g Hk) as (_ & Hc & _).
  rewrite messageExists_copies in *. rewrite Hc. exact H.
Qed.

Lemma for_each_keeps cfg now messages w g :
  messageExists (w_db w) g = true ->
  messageExists (w_db (world_of (for_each messages (poll_message cfg now) w))) g = true.
Proof.
  intros H.
  assert (Hk : messageExists (w_db w) g || isInQueue (w_queue w) g = true)
    by (rewrite H; reflexivity).
  destruct (poll_all_dedup cfg now g messages w Hk) as (_ & Hc & _).
  rewrite messageExists_copies in *. rewrite Hc. exact H.
Qed.

Lemma effects_triple {A} (w : World) (fx : list Effect) (r : Result A) :
  effects_of (w, fx, r) = fx.
Proof. reflexivity. Qed.

Lemma world_triple {A} (w : World) (fx : list Effect) (r : Result A) :
  world_of (w, fx, r) = w.
Proof. reflexivity. Qed.

Lemma poll_message_pairs cfg now m w :
  enqueued (effects_of (poll_message cfg now m w))
  = inserted (effects_of (poll_message cfg now m w))
  /\ (forall g, In g (inserted (effects_of (poll_message cfg now m w))) ->
        messageExists (w_db (world_of (poll_message cfg now m w))) g = true).
Proof.
  rewrite poll_message_cases.
  destruct (_ || _); [split; [reflexivity|intros g []]|].
  destruct (verdict cfg m) as [|e|record item] eqn:Ev;
    try (split; [reflexivity|intros g []]).
  destruct (verdict_accept cfg m record item Ev) as (Hr & Hi & _).
  rewrite store_and_queue_run.
  destruct (insertMessage (w_db w) now record) as [d1 [rowid|e]] eqn:Ei.
  - cbv zeta.
    match goal with |- context [on_queue now ?f ?w1] =>
      destruct (on_queue_keeps now f w1) as (_ & _ & Ht & Hl);
      set (o := on_queue now f w1) in * end.
    destruct (from_listener_quiet_ids _ Hl) as [Hq1 Hq2].
    rewrite !effects_triple, world_triple.
    change (FxInsert record (Ok rowid) :: FxEnqueue item :: effects_of o)
      with ([FxInsert record (Ok rowid); FxEnqueue item] ++ effects_of o).
    rewrite enqueued_app, inserted_app, Hq1, Hq2.
    cbn [inserted enqueued flat_map app]. rewrite Hr, Hi. split; [reflexivity|].
    intros g [<-|[]]. rewrite (messageExists_texts _ _ _ Ht). cbn [w_db].
    rewrite <- Hr. exact (insertMessage_ok_exists _ _ _ _ _ Ei).
  - unfold effects_of. cbn [fst snd]. split; [reflexivity|intros g []].
Qed.

Lemma for_each_pairs cfg now messages : forall w,
  enqueued (effects_of (for_each messages (poll_message cfg now) w))
  = inserted (effects_of (for_each messages (poll_message cfg now) w))
  /\ (forall g, In g (inserted (effects_of (for_each messages (poll_message cfg now) w))) ->
        messageExists (w_db (world_of (for_each messages (poll_message cfg now) w))) g
        = true).
Proof.
  induction messages as [|m rest IH]; intros w; [split; [reflexivity|intros g []]|].
  cbn [for_each]. rewrite bind_run.
  destruct (poll_message_pairs cfg now m w) as [H1 H2].
  destruct (poll_message cfg now m w) as [[w1 fx1] [[]|e]];
    unfold world_of, effects_of in *; cbn [fst snd] in *; [|auto].
  destruct (IH w1) as [H3 H4].
  pose proof (fun g => for_each_keeps cfg now rest w1 g) as Hk.
  destruct (for_each rest (poll_message cfg now) w1) as [[w2 fx2] r2].
  unfold world_of, effects_of in *. cbn [fst snd] in *.
  rewrite enqueued_app, inserted_app, H1, H3. split; [reflexivity|].
  intros g Hg. apply in_app_or in Hg. destruct Hg as [Hg|Hg]; auto.
Qed.

(** X16. Store first, then Queue.  A poll tick never throws; the ids it
    hands to [enqueue] are exactly the ids of the records that
    [insertMessage] stored, in the same order; and each of them has a
    record in the Store when the tick ends. *)
Theorem X16_tick_stores_what_it_enqueues
  (cfg : SafetyConfig) (now : Timestamp) (listing : Result (list MailMessage))
  (w : World) :
  let o := checkGmail cfg now listing w in
  result_of o = Ok tt
  /\ enqueued (effects_of o) = inserted (effects_of o)
  /\ (forall g, In g (enqueued (effects_of o)) ->
        messageExists (w_db (world_of o)) g = true).
Proof.
  cbv zeta. rewrite checkGmail_run.
  destruct listing as [messages|e]; [|repeat split; intros g []].
  cbv zeta.
  destruct (for_each_pairs cfg now messages w) as [H1 H2].
  set (o := for_each messages (poll_message cfg now) w) in *.
  rewrite !effects_triple, world_triple.
  split; [reflexivity|].
  assert (Hn : forall r : Result unit,
             inserted (match r with
                       | Ok _ => []
                       | Throw e =>
                           [FxNotify (SystemError e "Failed to check Gmail for new messages")]
                       end) = []
             /\ enqueued (match r with
                          | Ok _ => []
                          | Throw e =>
                              [FxNotify (SystemError e "Failed to check Gmail for new messages")]
                          end) = [])
    by (intros [[]|e]; split; reflexivity).
  destruct (Hn (result_of o)) as [Hn1 Hn2].
  rewrite enqueued_app, inserted_app, Hn1, Hn2, !app_nil_r.
  split; [exact H1|].
  intros g Hg. apply H2. rewrite <- H1. exact Hg.
Qed.

Lemma X16_witness :
  let o := checkGmail approval_config 10 (Ok [nancy_mail]) (boot fresh (of_nat 3)) in
  enqueued (effects_of o) = ["m1"]
  /\ messageExists (w_db (world_of o)) "m1" = true.
Proof.
  intros o. split.
  - exact (proj1 (proj2 (X16_tick_stores_what_it_enqueues approval_config 10
                           (Ok [nancy_mail]) (boot fresh (of_nat 3))))).
  - exact (proj2 (proj2 (X16_tick_stores_what_it_enqueues approval_config 10
                           (Ok [nancy_mail]) (boot fresh (of_nat 3))))
                 "m1" (or_introl eq_refl)).
Defined.

Lemma for_each_app {A} (body : A -> M unit) (l1 l2 : list A) : forall w,
  for_each (l1 ++ l2) body w
  = match for_each l1 body w with
    | (w1, fx1, Ok _) => let '(w2, fx2, r) := for_each l2 body w1 in (w2, fx1 ++ fx2, r)
    | (w1, fx1, Throw e) => (w1, fx1, Throw e)
    end.
Proof.
  induction l1 as [|x l1 IH]; intros w.
  - cbn [app for_each]. unfold ret.
    destruct (for_each l2 body w) as [[w2 fx2] r]. reflexivity.
  - cbn [app for_each]. rewrite !bind_run.
    destruct (body x w) as [[w1 fx1] [[]|e]]; [|reflexivity].
    rewrite IH.
    destruct (for_each l1 body w1) as [[w2 fx2] [[]|e]]; [|reflexivity].
    destruct (for_each l2 body w2) as [[w3 fx3] r]. rewrite app_assoc. reflexivity.
Qed.

(** X17. A tick that fails.  When listing the mailbox fails, the tick
    changes nothing and asks for one system-error notification.  When
    the headers of a message that is neither stored nor queued cannot be
    fetched, the tick keeps what it did for the messages before, asks for
    one system-error notification, and does not look at the messages
    after it. *)
Theorem X17_tick_failure
  (cfg : SafetyConfig) (now : Timestamp) (w : World) (e : Error) :
  checkGmail cfg now (Throw e) w
  = (w, [FxNotify (SystemError e "Failed to check Gmail for new messages")], Ok tt)
  /\ (forall l1 m l2,
        let o1 := for_each l1 (poll_message cfg now) w in
        result_of o1 = Ok tt ->
        messageExists (w_db (world_of o1)) (mail_id m) = false ->
        isInQueue (w_queue (world_of o1)) (mail_id m) = false ->
        mail_headers m = Throw e ->
        checkGmail cfg now (Ok (l1 ++ m :: l2)) w
        = (world_of o1,
           effects_of o1
           ++ [FxNotify (SystemError e "Failed to check Gmail for new messages")],
           Ok tt)).
Proof.
  split; [rewrite checkGmail_run; reflexivity|].
  intros l1 m l2. cbv zeta. intros Hr Hs Hq Hh.
  rewrite checkGmail_run. cbv zeta. rewrite for_each_app.
  destruct (for_each l1 (poll_message cfg now) w) as [[w1 fx1] r1].
  unfold result_of, world_of, effects_of in *. cbn [fst snd] in *. subst r1.
  cbn [for_each]. rewrite bind_run, poll_message_cases, Hs, Hq. cbn [orb].
  unfold verdict. rewrite Hh. cbn [fst snd]. rewrite app_nil_r. reflexivity.
Qed.

Lemma X17_witness :
  let e := mkError "socket hang up" in
  checkGmail SAFETY_CONFIG 0
    (Ok ([] ++ mkMail "m1" (Throw e)
            :: [mkMail "m2" (Ok [("Subject", Some "Booking Inquiry from Patrick M")])]))
    (boot fresh (of_nat 3))
  = (boot fresh (of_nat 3),
     [FxNotify (SystemError e "Failed to check Gmail for new messages")], Ok tt).
Proof.
  intros e.
  exact (proj2 (X17_tick_failure SAFETY_CONFIG 0 (boot fresh (of_nat 3)) e)
           [] (mkMail "m1" (Throw e))
           [mkMail "m2" (Ok [("Subject", Some "Booking Inquiry from Patrick M")])]
           eq_refl eq_refl eq_refl eq_refl).
Defined.

End PollerLaws.

(* ===================================================================== *)
(** ** Starting and stopping the Poller *)
(* ===================================================================== *)

Module SchedulerLaws.
Import Scheduler.

(** The number of [stop] commands in a list. *)
Definition stops (cs : list Command) : nat :=
  List.length (filter (fun c => match c with Stop => true | Start => false end) cs).

(** [k] times: check now, then schedule. *)
Fixpoint launches (k : nat) : list Action :=
  match k with
  | O => []
  | S k' => CheckNow :: Schedule :: launches k'
  end.

Lemma launches_add a b : launches a ++ launches b = launches (a + b).
Proof. induction a as [|a IH]; [reflexivity|]. cbn. rewrite IH. reflexivity. Qed.

Lemma commands_from : forall cs p,
  isRunning p = cronJob p ->
  isRunning (fst (commands p cs)) = cronJob (fst (commands p cs))
  /\ auth (fst (commands p cs)) = auth p
  /\ exists k,
       snd (commands p cs) = launches k
       /\ k <= (if isRunning p then 0 else 1) + stops cs
       /\ (auth p = false -> k = 0)
       /\ (isRunning (fst (commands p cs)) = true -> isRunning p = false -> 1 <= k).
Proof.
  induction cs as [|c cs IH]; intros p Hp.
  - cbn. repeat split; auto. exists 0. repeat split; auto; try lia. congruence.
  - cbn [commands].
    assert (Hc : let p1 := fst (command p c) in
                 isRunning p1 = cronJob p1 /\ auth p1 = auth p
                 /\ exists k1, snd (command p c) = launches k1
                    /\ (auth p = false -> k1 = 0)
                    /\ k1 + (if isRunning p1 then 0 else 1)
                          + (match c with Stop => 0 | Start => 1 end)
                       <= (if isRunning p then 0 else 1) + 1
                    /\ (isRunning p = false -> isRunning p1 = true -> k1 = 1)).
    { destruct p as [a j r]. cbn [isRunning cronJob] in Hp. subst j.
      cbv zeta.
      destruct c, a, r; cbn;
        (split; [reflexivity|]); (split; [reflexivity|]);
        match goal with
        | |- exists k, [CheckNow; Schedule] = _ /\ _ => exists 1
        | |- _ => exists 0
        end;
        (split; [reflexivity|]);
        (split; [intros; first [reflexivity|discriminate]|]);
        (split; [cbn; lia|]);
        intros; first [reflexivity|discriminate]. }
    cbv zeta in Hc. destruct Hc as (H1 & H2 & k1 & Hk1 & Hno1 & Hle1 & Hone).
    destruct (command p c) as [p1 a1] eqn:Ec. cbn [fst snd] in *.
    destruct (IH p1 H1) as (H3 & H4 & k2 & Hk2 & Hle2 & Hno2 & Hpos).
    destruct (commands p1 cs) as [p2 a2]. cbn [fst snd] in *.
    split; [exact H3|]. split; [congruence|].
    exists (k1 + k2). subst a1 a2. rewrite launches_add.
    split; [reflexivity|].
    assert (Hs : stops (c :: cs) = (match c with Stop => 1 | Start => 0 end) + stops cs)
      by (destruct c; reflexivity).
    split; [|split].
    + rewrite Hs. destruct c; lia.
    + intros Ha. rewrite (Hno1 Ha), Hno2 by congruence. reflexivity.
    + intros Hr2 Hr. destruct (isRunning p1) eqn:Er1.
      * rewrite (Hone Hr eq_refl). lia.
      * specialize (Hpos Hr2 eq_refl). lia.
Qed.

(** X18. Starting and stopping.  After any sequence of [start] and
    [stop] calls on a new poller, [isRunning] holds exactly when a cron
    job is set; each effective [start] checks the mailbox at once and then
    schedules the job; there are at most one more effective starts than
    [stop] calls, so no second job is scheduled while one is live; a
    running poller has been started; and a poller without credentials
    never checks and never runs. *)
Theorem X18_start_stop (credentials : bool) (cs : list Command) :
  let p := fst (commands (create credentials) cs) in
  isRunning p = cronJob p
  /\ auth p = credentials
  /\ exists k,
       snd (commands (create credentials) cs) = launches k
       /\ k <= 1 + stops cs
       /\ (isRunning p = true -> 1 <= k)
       /\ (credentials = false -> k = 0 /\ isRunning p = false).
Proof.
  cbv zeta.
  destruct (commands_from cs (create credentials) eq_refl)
    as (H1 & H2 & k & Hk & Hle & Hno & Hpos).
  cbn [create isRunning auth] in *.
  split; [exact H1|]. split; [exact H2|]. exists k.
  split; [exact Hk|]. split; [exact Hle|]. split; [intros H; exact (Hpos H eq_refl)|].
  intros Hc. split; [exact (Hno Hc)|].
  destruct (isRunning (fst (commands (create credentials) cs))) eqn:E; [|reflexivity].
  specialize (Hpos eq_refl eq_refl). specialize (Hno Hc). lia.
Qed.

Lemma X18_witness :
  let p := fst (commands (create true) [Start; Start; Stop; Start]) in
  isRunning p = cronJob p
  /\ auth p = true
  /\ exists k,
       snd (commands (create true) [Start; Start; Stop; Start]) = launches k
       /\ k <= 1 + stops [Start; Start; Stop; Start]
       /\ (isRunning p = true -> 1 <= k)
       /\ (true = false -> k = 0 /\ isRunning p = false).
Proof.
  exact (X18_start_stop true [Start; Start; Stop; Start]).
Defined.

End SchedulerLaws.

(* ===================================================================== *)
(** ** The seen-set of the stand-alone poller *)
(* ===================================================================== *)

Module StandaloneLaws.
Import Standalone.

Lemma scan_grows : forall messages st,
  seenEmailIds (fst (fst (scan st messages)))
  = seenEmailIds st ++ snd (fst (scan st messages))
  /\ saved (fst (fst (scan st messages))) = saved st.
Proof.
  induction messages as [|[id details] rest IH]; intros st.
  - cbn. rewrite app_nil_r. auto.
  - cbn [scan]. destruct (has st id); [apply IH|].
    destruct details as [subject|e]; [|cbn; rewrite app_nil_r; auto].
    destruct (IH (mkSeen (seenEmailIds st ++ [id]) (saved st))) as [H1 H2].
    destruct (scan (mkSeen (seenEmailIds st ++ [id]) (saved st)) rest) as [[st1 ann] err].
    cbn [fst snd seenEmailIds saved] in *. rewrite H1, <- app_assoc. auto.
Qed.

Lemma has_iff st id : has st id = true <-> In id (seenEmailIds st).
Proof.
  unfold has. rewrite existsb_exists. split.
  - intros (x & Hx & E). apply String.eqb_eq in E. subst. exact Hx.
  - intros H. exists id. split; [exact H|apply String.eqb_refl].
Qed.

Lemma scan_all_seen : forall messages st,
  (forall id, In id (map fst messages) -> has st id = true) ->
  scan st messages = (st, [], None).
Proof.
  induction messages as [|[id details] rest IH]; intros st H; [reflexivity|].
  cbn [scan]. rewrite (H id (or_introl eq_refl)). apply IH.
  intros x Hx. apply H. right. exact Hx.
Qed.

Lemma scan_covers : forall messages st,
  snd (scan st messages) = None ->
  forall id, In id (map fst messages) -> has (fst (fst (scan st messages))) id = true.
Proof.
  induction messages as [|[id details] rest IH]; intros st Herr x Hx; [destruct Hx|].
  cbn [scan] in *. destruct (has st id) eqn:Eh.
  - destruct Hx as [<-|Hx]; [|exact (IH st Herr x Hx)].
    cbn [fst]. apply has_iff. rewrite (proj1 (scan_grows rest st)).
    apply in_or_app. left. apply has_iff. exact Eh.
  - destruct details as [subject|e]; [|discriminate].
    pose proof (IH (mkSeen (seenEmailIds st ++ [id]) (saved st))) as IH'.
    pose proof (scan_grows rest (mkSeen (seenEmailIds st ++ [id]) (saved st))) as [Hg _].
    destruct (scan (mkSeen (seenEmailIds st ++ [id]) (saved st)) rest) as [[st1 ann] err].
    cbn [fst snd seenEmailIds] in *. subst err.
    destruct Hx as [<-|Hx]; [|exact (IH' eq_refl x Hx)].
    apply has_iff. rewrite Hg. apply in_or_app. left. apply in_or_app. right.
    left. reflexivity.
Qed.

(** X19. A tick of the stand-alone poller that fetched every new message
    leaves every listed id in the seen-set, on disk too when anything was
    new, so that running the same listing again announces nothing and
    changes nothing. *)
Theorem X19_seen_set_idempotent
  (st : Seen) (messages : list (string * Result string))
  (Hfetched : snd (scan st messages) = None) :
  let st1 := fst (checkGmail st (Ok messages)) in
  (forall id, In id (map fst messages) -> has st1 id = true)
  /\ seenEmailIds st1 = seenEmailIds st ++ snd (checkGmail st (Ok messages))
  /\ (snd (checkGmail st (Ok messages)) <> [] -> saved st1 = seenEmailIds st1)
  /\ checkGmail st1 (Ok messages) = (st1, []).
Proof.
  cbv zeta. cbn [checkGmail].
  pose proof (scan_covers messages st Hfetched) as Hc.
  pose proof (scan_grows messages st) as [Hg _].
  destruct (scan st messages) as [[st1 ann] err]. cbn [fst snd] in *. subst err.
  assert (Hall : forall s, seenEmailIds s = seenEmailIds st1 ->
                   forall id, In id (map fst messages) -> has s id = true).
  { intros s Hs id Hid. apply has_iff. rewrite Hs. apply has_iff. exact (Hc id Hid). }
  destruct ann as [|a ann]; cbn [fst snd seenEmailIds saved].
  - split; [exact Hc|]. split; [exact Hg|]. split; [intros H; congruence|].
    rewrite (scan_all_seen messages st1 (Hall st1 eq_refl)). reflexivity.
  - split; [exact (Hall (mkSeen (seenEmailIds st1) (seenEmailIds st1)) eq_refl)|].
    split; [exact Hg|]. split; [reflexivity|].
    rewrite (scan_all_seen messages _
               (Hall (mkSeen (seenEmailIds st1) (seenEmailIds st1)) eq_refl)).
    reflexivity.
Qed.

Lemma X19_witness :
  let st := mkSeen ["m0"] ["m0"] in
  let messages := [("m1", Ok "Booking Inquiry from Nancy E"); ("m0", Ok "Re: hello");
                   ("m1", Ok "Booking Inquiry from Nancy E")] in
  let st1 := fst (checkGmail st (Ok messages)) in
  (forall id, In id (map fst messages) -> has st1 id = true)
  /\ seenEmailIds st1 = seenEmailIds st ++ snd (checkGmail st (Ok messages))
  /\ (snd (checkGmail st (Ok messages)) <> [] -> saved st1 = seenEmailIds st1)
  /\ checkGmail st1 (Ok messages) = (st1, []).
Proof.
  intros st messages. exact (X19_seen_set_idempotent st messages eq_refl).
Defined.

(** X20. A tick of the stand-alone poller that fails to fetch a message
    does not write the seen-set to disk, although the ids announced
    before the failure are already in the set in memory: after a restart
    from a file that was in step with the set before the tick, the poller
    is back in the state before the tick and will announce them again. *)
Theorem X20_failed_tick_not_saved
  (st : Seen) (messages : list (string * Result string)) (e : Error)
  (Hfailed : snd (scan st messages) = Some e) :
  let st1 := fst (checkGmail st (Ok messages)) in
  saved st1 = saved st
  /\ seenEmailIds st1 = seenEmailIds st ++ snd (checkGmail st (Ok messages))
  /\ (saved st = seenEmailIds st -> loadSeenEmails st1 = st).
Proof.
  cbv zeta. cbn [checkGmail].
  pose proof (scan_grows messages st) as [Hg Hs].
  destruct (scan st messages) as [[st1 ann] err]. cbn [fst snd] in *. subst err.
  cbn [fst snd]. split; [exact Hs|]. split; [exact Hg|].
  intros Hsync. unfold loadSeenEmails. rewrite Hs. destruct st as [seen sv].
  cbn [saved seenEmailIds] in *. rewrite Hsync. reflexivity.
Qed.

Lemma X20_witness :
  let st := mkSeen ["m0"] ["m0"] in
  let messages := [("m1", Ok "Booking Inquiry from Nancy E");
                   ("m2", Throw (mkError "socket hang up"))] in
  let st1 := fst (checkGmail st (Ok messages)) in
  saved st1 = saved st
  /\ seenEmailIds st1 = seenEmailIds st ++ snd (checkGmail st (Ok messages))
  /\ (saved st = seenEmailIds st -> loadSeenEmails st1 = st).
Proof.
  intros st messages.
  exact (X20_failed_tick_not_saved st messages (mkError "socket hang up") eq_refl).
Defined.

End StandaloneLaws.

(* ===================================================================== *)
(** ** Laws of one run of [processMessage] *)
(* ===================================================================== *)

Module OrchestratorLaws.
Import Database Queue Config Pipeline.
Import DatabaseFacts QueueFacts PipelineFacts StringFacts.

Definition is_close (fx : Effect) : bool :=
  match fx with FxCloseBrowser => true | _ => false end.

Definition is_warning (fx : Effect) : bool :=
  match fx with FxNotify (MessageMismatch _ _) => true | _ => false end.

(** The notifications that [processMessage] itself asks for. *)
Definition is_report (fx : Effect) : bool :=
  match fx with
  | FxNotify (PlaywrightError _ _) | FxNotify (LLMError _ _) | FxNotify AuthExpired
  | FxNotify (Success _ _) => true
  | _ => false
  end.

Lemma listener_filtered (p : Effect -> bool) fx :
  (forall e, from_listener e -> p e = false) ->
  Forall from_listener fx -> filter p fx = [].
Proof.
  intros Hp. induction 1 as [|e l He _ IH]; [reflexivity|].
  cbn [filter]. rewrite (Hp e He). exact IH.
Qed.

Lemma listener_no_close e : from_listener e -> is_close e = false.
Proof. destruct e; try reflexivity; intros []. Qed.

Lemma listener_no_warning e : from_listener e -> is_warning e = false.
Proof. destruct e as [| | | | | | |n| | |]; try reflexivity. destruct n; auto; intros []. Qed.

Lemma listener_no_report e : from_listener e -> is_report e = false.
Proof. destruct e as [| | | | | | |n| | |]; try reflexivity. destruct n; auto; intros []. Qed.

(** The effects of a whole run, by parts. *)
Lemma processMessage_parts cfg now a message d q r aw :
  let s := summary cfg a message r in
  let g := gmailMessageId message in
  let out := processMessage cfg now a message (mkWorld d q r aw) in
  exists before fxl,
    Forall from_listener fxl
    /\ effects_of out
       = FxStatus g (statuses d g) Database.processing None
         :: s_before s
         ++ [FxStatus g before (s_status s) (s_err s)]
         ++ s_after s
         ++ [match s_signal s with Completes => FxProcessed g | Fails e => FxFailed g e end]
         ++ fxl
         ++ match s_signal s with Completes => [] | Fails e => [FxRethrow e] end
    /\ w_responder (world_of out) = s_responder s
    /\ result_of out
       = match s_signal s with Completes => Ok tt | Fails e => Throw e end.
Proof.
  cbv zeta. rewrite processMessage_run. cbv zeta. unfold assemble.
  cbn [w_db w_queue w_responder w_awaiting].
  match goal with |- context [on_queue now ?f ?w1] =>
    destruct (on_queue_keeps now f w1) as (_ & Hr & _ & Hl);
    set (o := on_queue now f w1) in * end.
  eexists. exists (effects_of o). split; [exact Hl|].
  unfold effects_of at 2, world_of at 1, result_of at 1. cbn [fst snd].
  split; [reflexivity|]. split; [exact Hr|reflexivity].
Qed.

Lemma filter_parts (p : Effect -> bool) e0 b e1 a e2 fxl tl :
  Forall from_listener fxl ->
  (forall e, from_listener e -> p e = false) ->
  p e0 = false -> p e1 = false -> p e2 = false -> filter p tl = [] ->
  filter p (e0 :: b ++ [e1] ++ a ++ [e2] ++ fxl ++ tl) = filter p b ++ filter p a.
Proof.
  intros Hl Hp H0 H1 H2 Ht. cbn [filter]. rewrite H0.
  rewrite !filter_app. cbn [filter]. rewrite H1, H2, Ht.
  rewrite (listener_filtered p fxl Hp Hl). rewrite !app_nil_r. reflexivity.
Qed.

Lemma closes_mismatch x message : filter is_close (mismatch x message) = [].
Proof. unfold mismatch. destruct (name_matches x message); reflexivity. Qed.

(** Whether the run reaches the [closeBrowser] call of the [try] block
    and that call rejects: extraction and generation succeeded, with
    auto-send on the reply was sent, and [browser.close()] rejects. *)
Definition close_rejects (cfg : SafetyConfig) (a : Answers) (r : PlaywrightResponder)
  : bool :=
  match extracted a r, generated a with
  | Ok _, Ok _ =>
      (if AUTO_SEND_ENABLED cfg
       then match typed a (launched a r) with Ok _ => true | Throw _ => false end
       else true)
      && match close_result (closing a) (launched a r) with
         | Ok _ => false
         | Throw _ => true
         end
  | _, _ => false
  end.

Lemma summary_closes cfg a message r :
  filter is_close (s_before (summary cfg a message r))
  = (if close_rejects cfg a r then [FxCloseBrowser; FxCloseBrowser] else [FxCloseBrowser])
  /\ filter is_close (s_after (summary cfg a message r)) = []
  /\ (close_rejects cfg a r = true ->
      exists e, close_result (closing a) (launched a r) = Throw e
                /\ s_signal (summary cfg a message r) = Fails e)
  /\ (s_signal (summary cfg a message r) = Completes ->
      browser (s_responder (summary cfg a message r)) = false)
  /\ (closing_in_catch a = Ok tt ->
      browser (s_responder (summary cfg a message r)) = false).
Proof.
  assert (Hcatch : forall r1, closing_in_catch a = Ok tt ->
                     browser (closed (closing_in_catch a) r1) = false).
  { intros r1 E. rewrite closed_browser. unfold close_result. rewrite E.
    destruct (browser r1); reflexivity. }
  unfold summary, close_rejects. cbv zeta.
  destruct (extracted a r) as [x|e];
    [|cbn; repeat split; auto; discriminate].
  destruct (generated a) as [text|e].
  - destruct (AUTO_SEND_ENABLED cfg).
    + destruct (typed a (launched a r)) as [[]|e].
      * pose proof (closed_browser (closing a) (launched a r)) as Hb.
        destruct (close_result (closing a) (launched a r)) as [[]|e];
          cbn [failure s_before s_after s_responder s_signal andb];
          rewrite !filter_app, closes_mismatch; cbn; repeat split; auto;
          try discriminate.
        intros _. exists e. auto.
      * cbn [failure s_before s_after s_responder s_signal andb].
        rewrite !filter_app, closes_mismatch; cbn; repeat split; auto; discriminate.
    + pose proof (closed_browser (closing a) (launched a r)) as Hb.
      destruct (close_result (closing a) (launched a r)) as [[]|e];
        cbn [failure s_before s_after s_responder s_signal andb];
        rewrite !filter_app, closes_mismatch; cbn; repeat split; auto;
        try discriminate.
      intros _. exists e. auto.
  - cbn [failure s_before s_after s_responder s_signal].
    rewrite !filter_app, closes_mismatch; cbn; repeat split; auto; discriminate.
Qed.

(** X21. Every run of [processMessage] calls [closeBrowser] once, or
    twice: twice exactly when the call in the [try] block is reached and
    [browser.close()] rejects there, which sends the run through the
    [catch] clause and its own [closeBrowser] call; the run then rejects
    with that error.  A run that resolves leaves the responder without a
    browser, and so does every run in which [browser.close()] does not
    reject in the [catch] clause. *)
Theorem X21_browser_closing
  (cfg : SafetyConfig) (now : Timestamp) (a : Answers) (message : QueuedMessage)
  (w : World) :
  let out := processMessage cfg now a message w in
  filter is_close (effects_of out)
  = (if close_rejects cfg a (w_responder w)
     then [FxCloseBrowser; FxCloseBrowser] else [FxCloseBrowser])
  /\ (close_rejects cfg a (w_responder w) = true ->
      exists e,
        result_of (closeBrowser (closing a) (world_of (extractLatestMessage a w))) = Throw e
        /\ result_of out = Throw e)
  /\ (closing a = Ok tt -> close_rejects cfg a (w_responder w) = false)
  /\ (result_of out = Ok tt -> browser (w_responder (world_of out)) = false)
  /\ (closing_in_catch a = Ok tt -> browser (w_responder (world_of out)) = false).
Proof.
  destruct w as [d q r aw]. cbv zeta. cbn [w_responder].
  destruct (processMessage_parts cfg now a message d q r aw)
    as (before & fxl & Hl & Hfx & Hr & Hres).
  destruct (summary_closes cfg a message r) as (H1 & H2 & H3 & H4 & H5).
  rewrite Hfx, Hr, Hres, result_of_close.
  split; [|split; [|split; [|split]]].
  - rewrite (filter_parts is_close); auto using listener_no_close.
    + rewrite H1, H2, app_nil_r. reflexivity.
    + destruct (s_signal _); reflexivity.
    + destruct (s_signal _); reflexivity.
  - intros Hc. destruct (H3 Hc) as (e & He & Hs). exists e. rewrite Hs. auto.
  - intros Hc. unfold close_rejects, close_result. rewrite Hc.
    destruct (extracted a r); [|reflexivity].
    destruct (generated a); [|reflexivity].
    destruct (browser (launched a r)); apply andb_false_r.
  - intros Hok. apply H4. destruct (s_signal _); [reflexivity|discriminate].
  - exact H5.
Qed.

Lemma X21_witness :
  let out := processMessage approval_config 20 close_fails nancy_item nancy_world in
  filter is_close (effects_of out) = [FxCloseBrowser; FxCloseBrowser]
  /\ result_of out = Throw (mkError "Target closed")
  /\ browser (w_responder (world_of out)) = false.
Proof.
  intros out.
  pose proof (X21_browser_closing approval_config 20 close_fails nancy_item nancy_world)
    as (H1 & H2 & _ & _ & H5).
  destruct (H2 eq_refl) as (e & He & Hout).
  injection He as <-.
  exact (conj H1 (conj Hout (H5 eq_refl))).
Defined.

Lemma reports_mismatch x message : filter is_report (mismatch x message) = [].
Proof. unfold mismatch. destruct (name_matches x message); reflexivity. Qed.

Lemma warnings_mismatch x message :
  filter is_warning (mismatch x message) = mismatch x message.
Proof. unfold mismatch. destruct (name_matches x message); reflexivity. Qed.

Lemma classify_report e message :
  is_report (FxNotify (classify e message)) = true
  /\ is_warning (FxNotify (classify e message)) = false.
Proof.
  unfold classify. destruct (includes (Js.message e) "LLM"); [split; reflexivity|].
  destruct (_ || _); split; reflexivity.
Qed.

Lemma summary_reports cfg a message r :
  filter is_report (s_before (summary cfg a message r)) = []
  /\ filter is_report (s_after (summary cfg a message r))
     = s_after (summary cfg a message r)
  /\ filter is_warning (s_after (summary cfg a message r)) = []
  /\ filter is_warning (s_before (summary cfg a message r))
     = match extracted a r with
       | Ok x => mismatch x message
       | Throw _ => []
       end.
Proof.
  assert (Hf : forall r1 before responses e,
             filter is_report before = [] ->
             filter is_report (s_before (failure a message r1 before responses e)) = []
             /\ filter is_report (s_after (failure a message r1 before responses e))
                = s_after (failure a message r1 before responses e)
             /\ filter is_warning (s_after (failure a message r1 before responses e)) = []
             /\ filter is_warning (s_before (failure a message r1 before responses e))
                = filter is_warning before).
  { intros r1 before responses e Hb. cbn [failure s_before s_after].
    rewrite !filter_app, Hb. cbn [filter app].
    rewrite (proj1 (classify_report e message)), (proj2 (classify_report e message)).
    cbn. rewrite app_nil_r. auto. }
  unfold summary. cbv zeta.
  destruct (extracted a r) as [x|e]; [|apply Hf; reflexivity].
  destruct (generated a) as [text|e];
    [destruct (AUTO_SEND_ENABLED cfg);
     [destruct (typed a (launched a r)) as [[]|e];
      [destruct (close_result (closing a) (launched a r)) as [[]|e]|]
     |destruct (close_result (closing a) (launched a r)) as [[]|e]]|];
    try (match goal with |- context [failure a message ?r1 ?b ?rs e] =>
           destruct (Hf r1 b rs e) as (A & B & C & D);
             [rewrite !filter_app, reports_mismatch; reflexivity|];
           rewrite A, B, C, D end);
    cbn [s_before s_after];
    rewrite ?filter_app, ?reports_mismatch, ?warnings_mismatch; cbn;
    rewrite ?app_nil_r; auto.
Qed.

Lemma run_reports cfg now a message d q r aw :
  filter is_report (effects_of (processMessage cfg now a message (mkWorld d q r aw)))
  = s_after (summary cfg a message r)
  /\ filter is_warning (effects_of (processMessage cfg now a message (mkWorld d q r aw)))
     = match extracted a r with
       | Ok x => mismatch x message
       | Throw _ => []
       end.
Proof.
  destruct (processMessage_parts cfg now a message d q r aw)
    as (before & fxl & Hl & Hfx & _ & _).
  destruct (summary_reports cfg a message r) as (H1 & H2 & H3 & H4).
  rewrite Hfx. split.
  - rewrite (filter_parts is_report); auto using listener_no_report.
    + rewrite H1, H2. reflexivity.
    + destruct (s_signal _); reflexivity.
    + destruct (s_signal _); reflexivity.
  - rewrite (filter_parts is_warning); auto using listener_no_warning.
    + rewrite H3, H4, app_nil_r. reflexivity.
    + destruct (s_signal _); reflexivity.
    + destruct (s_signal _); reflexivity.
Qed.

(** X22. The name check.  In a run whose extraction succeeds, the
    mismatch warning is sent exactly when neither of the two names, in
    lower case, includes the other, and then once, with the id and the
    name from the e-mail; names that are equal up to case never raise
    it.  The warning changes nothing else: the result of the run does not
    depend on the names. *)
Theorem X22_name_check
  (cfg : SafetyConfig) (now : Timestamp) (a : Answers) (message : QueuedMessage)
  (w : World) (x : Extracted)
  (Hextract : result_of (extractLatestMessage a w) = Ok x) :
  let out := processMessage cfg now a message w in
  filter is_warning (effects_of out)
  = (if includes (toLowerCase (ex_tenantName x)) (toLowerCase (tenantName message))
        || includes (toLowerCase (tenantName message)) (toLowerCase (ex_tenantName x))
     then []
     else [FxNotify (MessageMismatch (gmailMessageId message) (tenantName message))])
  /\ (toLowerCase (ex_tenantName x) = toLowerCase (tenantName message) ->
      filter is_warning (effects_of out) = [])
  /\ (forall name',
        result_of (processMessage cfg now a
                     (mkQueued (gmailMessageId message) name' (tenantEmail message)
                               (tenantMessage message) (retryCount message)
                               (addedAt message)) w)
        = result_of out).
Proof.
  destruct w as [d q r aw]. rewrite result_of_extract in Hextract. cbv zeta.
  destruct (run_reports cfg now a message d q r aw) as [_ Hw].
  rewrite Hextract in Hw. rewrite Hw. unfold mismatch, name_matches.
  split; [reflexivity|]. split.
  - intros E. rewrite E, includes_refl. reflexivity.
  - intros name'.
    destruct (processMessage_parts cfg now a message d q r aw)
      as (_ & _ & _ & _ & _ & ->).
    destruct (processMessage_parts cfg now a
                (mkQueued (gmailMessageId message) name' (tenantEmail message)
                          (tenantMessage message) (retryCount message)
                          (addedAt message)) d q r aw)
      as (_ & _ & _ & _ & _ & ->).
    unfold summary. cbv zeta. rewrite Hextract.
    destruct (generated a) as [text|e]; [|reflexivity].
    destruct (AUTO_SEND_ENABLED cfg);
      [destruct (typed a (launched a r)) as [[]|e]; [|reflexivity]|];
      destruct (close_result (closing a) (launched a r)) as [[]|e]; reflexivity.
Qed.

Lemma X22_witness :
  let message := mkQueued "m1" "NANCY E" None "Booking Inquiry from NANCY E" 0 10 in
  let out := processMessage approval_config 20 nancy_answers message
               (mkWorld fresh (mkQueue [message] true (of_nat 3)) (mkResponder false false) []) in
  filter is_warning (effects_of out) = [].
Proof.
  intros message.
  exact (proj1 (proj2 (X22_name_check approval_config 20 nancy_answers message
           (mkWorld fresh (mkQueue [message] true (of_nat 3)) (mkResponder false false) [])
           (mkExtracted "Nancy E" "Hi, is the place pet friendly?"
              "https://www.furnishedfinder.com/members/tenant-message/42")
           eq_refl)) eq_refl).
Defined.

(** X23. What is reported for the errors that the components raise
    themselves.  With the extraction done, a not-ok answer and an empty
    answer of the text-generation endpoint are both reported as LLM
    errors, under the tenant name of the e-mail; a failure of the request
    itself is reported as an LLM error only if its message happens to
    contain "LLM", and otherwise as an expired login or as a Playwright
    error; an extraction that finds no message text is reported as a
    Playwright error.  No other report is made in such a run. *)
Theorem X23_component_errors_reported
  (cfg : SafetyConfig) (now : Timestamp) (a : Answers) (message : QueuedMessage)
  (w : World) :
  let out := processMessage cfg now a message w in
  (forall x, result_of (extractLatestMessage a w) = Ok x ->
     (forall line, llm a = NotOk line ->
        filter is_report (effects_of out)
        = [FxNotify (LLMError (mkError ("LLM API error: " ++ line))
                              (tenantName message))])
     /\ (llm a = Reply EmptyString ->
         filter is_report (effects_of out)
         = [FxNotify (LLMError (mkError "LLM API returned empty response")
                               (tenantName message))])
     /\ (forall e, llm a = FetchThrows e -> includes (Js.message e) "LLM" = false ->
           filter is_report (effects_of out) = [FxNotify AuthExpired]
           \/ filter is_report (effects_of out)
              = [FxNotify (PlaywrightError e (gmailMessageId message))]))
  /\ (forall x, launch a = Launched -> scrape a = Ok x ->
        ex_tenantMessage x = EmptyString ->
        filter is_report (effects_of out)
        = [FxNotify (PlaywrightError
             (mkError "Could not extract tenant message - page structure may have changed")
             (gmailMessageId message))]).
Proof.
  destruct w as [d q r aw]. cbv zeta.
  destruct (run_reports cfg now a message d q r aw) as [-> _].
  split.
  - intros x Hx. rewrite result_of_extract in Hx. unfold summary. rewrite Hx.
    unfold generated. split; [|split].
    + intros line ->. cbn [failure s_after]. unfold classify. cbn [Js.message].
      assert (H : includes ("LLM API error: " ++ line) "LLM" = true)
        by exact (includes_middle "" "LLM" (" API error: " ++ line)).
      rewrite H. reflexivity.
    + intros ->. reflexivity.
    + intros e -> He. cbn [failure s_after]. unfold classify. rewrite He.
      destruct (_ || _); auto.
  - intros x Hl Hs Hm. unfold summary, extracted, scraped. rewrite Hl, Hs, Hm.
    cbn [truthy]. destruct (browser r && page r); reflexivity.
Qed.

Lemma X23_witness :
  let message := mkQueued "m1" "Nancy E" None "Booking Inquiry from Nancy E" 0 10 in
  let a := mkAnswers Launched
             (Ok (mkExtracted "Nancy E" "Hi" "https://www.furnishedfinder.com/x"))
             (NotOk "503 Service Unavailable") (Ok tt) (Ok tt) (Ok tt) in
  filter is_report
    (effects_of (processMessage approval_config 20 a message
                   (mkWorld fresh (mkQueue [message] true (of_nat 3))
                            (mkResponder false false) [])))
  = [FxNotify (LLMError (mkError "LLM API error: 503 Service Unavailable") "Nancy E")].
Proof.
  intros message a.
  exact (proj1 (proj1 (X23_component_errors_reported approval_config 20 a message
                  (mkWorld fresh (mkQueue [message] true (of_nat 3)) (mkResponder false false) []))
                  (mkExtracted "Nancy E" "Hi" "https://www.furnishedfinder.com/x") eq_refl)
               "503 Service Unavailable" eq_refl).
Defined.

(** The configuration with auto-send on. *)
Definition auto_send_config : SafetyConfig :=
  mkSafety true "Patrick M" true true.

(** The answers of the scenario, except that [browser.close()] rejects
    after the reply was sent. *)
Definition sent_then_close_fails : Answers :=
  mkAnswers Launched
    (Ok (mkExtracted "Nancy E" "Hi, is the place pet friendly?"
                     "https://www.furnishedfinder.com/members/tenant-message/42"))
    (Reply "Yes, we welcome well-behaved pets...")
    (Ok tt) (Throw (mkError "Target closed")) (Ok tt).

(** X24. The auto-send path.  With [AUTO_SEND_ENABLED] on, take a run
    whose extraction, generation and sending succeed.  If the
    [closeBrowser] call that follows resolves, the run resolves; it asks
    for no approval and sends one success notification with the extracted
    name and the generated text; it signals completion once; and with the
    item at the head of the queue and queued once, every record of the id
    ends as [sent] and the item leaves the queue.  If that [closeBrowser]
    call rejects, the reply has been sent all the same, but the run
    rejects with the error of the call, reports it as a failure, makes no
    success notification and signals [messageFailed], so that the item is
    tried again while it has retries left. *)
Theorem X24_auto_send_path
  (cfg : SafetyConfig) (now : Timestamp) (a : Answers) (message : QueuedMessage)
  (w : World) (x : Extracted) (text : string)
  (Hauto : AUTO_SEND_ENABLED cfg = true)
  (Hextract : result_of (extractLatestMessage a w) = Ok x)
  (Hgenerate : result_of (generateResponse a (ex_tenantName x) (ex_tenantMessage x)
                            (tenantEmail message) w) = Ok text)
  (Hsend : result_of (sendResponse a text (world_of (extractLatestMessage a w))) = Ok tt) :
  let out := processMessage cfg now a message w in
  (result_of (closeBrowser (closing a) (world_of (extractLatestMessage a w))) = Ok tt ->
   result_of out = Ok tt
   /\ approvals (effects_of out) = []
   /\ filter is_report (effects_of out) = [FxNotify (Success (ex_tenantName x) text)]
   /\ signals (effects_of out) = [FxProcessed (gmailMessageId message)]
   /\ (forall rest,
         queue (w_queue w) = message :: rest ->
         ~ In (gmailMessageId message) (ids rest) ->
         statuses (w_db (world_of out)) (gmailMessageId message)
         = map (fun _ => sent) (statuses (w_db w) (gmailMessageId message))
         /\ queue (w_queue (world_of out)) = rest))
  /\ (forall e,
        result_of (closeBrowser (closing a) (world_of (extractLatestMessage a w)))
        = Throw e ->
        result_of out = Throw e
        /\ approvals (effects_of out) = []
        /\ filter is_report (effects_of out) = [FxNotify (classify e message)]
        /\ signals (effects_of out) = [FxFailed (gmailMessageId message) e]
        /\ w_queue (world_of out)
           = fst (messageFailed (w_queue w) (gmailMessageId message) e)).
Proof.
  destruct w as [d q r aw].
  rewrite send_shape, extract_shape in Hsend.
  unfold result_of, world_of in Hsend. cbn [fst snd w_responder] in Hsend.
  rewrite result_of_close.
  rewrite result_of_extract in Hextract. rewrite result_of_generate in Hgenerate.
  intros out.
  destruct (run_reports cfg now a message d q r aw) as [Hrep _].
  destruct (processMessage_parts cfg now a message d q r aw)
    as (before & fxl & Hl & Hfx & _ & Hres).
  fold out in Hrep, Hfx, Hres.
  destruct (from_listener_quiet fxl Hl) as [Ha Hg].
  split.
  - intros Hclose.
    assert (Hs : summary cfg a message r
                 = mkSummary (closed (closing a) (launched a r))
                     ((mismatch x message
                       ++ [FxResponse (gmailMessageId message) (ex_tenantMessage x)])
                      ++ [FxResponse (gmailMessageId message) text] ++ [FxCloseBrowser])
                     [ex_tenantMessage x; text] sent None
                     [FxNotify (Success (ex_tenantName x) text)] Completes).
    { unfold summary. cbv zeta. rewrite Hextract, Hgenerate, Hauto, Hsend, Hclose.
      rewrite <- !app_assoc. reflexivity. }
    rewrite Hs in Hrep, Hfx, Hres.
    cbn [s_before s_after s_signal s_status s_err] in Hrep, Hfx, Hres.
    split; [exact Hres|]. split; [|split; [exact Hrep|split]].
    + rewrite Hfx. change (approvals (?e :: ?l)) with (approvals l).
      rewrite !approvals_app, approvals_mismatch, Ha. reflexivity.
    + rewrite Hfx. change (signals (?e :: ?l)) with (signals l).
      rewrite !signals_app, signals_mismatch, Hg. reflexivity.
    + intros rest Hq Hid. subst out. rewrite processMessage_run. cbv zeta.
      rewrite Hs. unfold assemble.
      cbn [s_texts s_status s_err s_signal s_responder s_before s_after
           w_db w_queue w_responder w_awaiting].
      set (d2 := updateStatus _ now (gmailMessageId message) sent None).
      assert (Hd2 : statuses d2 (gmailMessageId message)
                    = map (fun _ => sent) (statuses d (gmailMessageId message))).
      { subst d2. rewrite statuses_updateStatus, String.eqb_refl.
        rewrite statuses_write_all, statuses_updateStatus, String.eqb_refl.
        rewrite map_map. reflexivity. }
      destruct q as [l b n]. cbn [queue w_queue] in Hq. subst l.
      rewrite on_queue_processed by apply has_id_self.
      unfold world_of. cbn [fst snd].
      destruct rest as [|h rest']; cbn [hand_next fst w_db w_queue queue]; [auto|].
      split; [|reflexivity].
      rewrite statuses_updateStatus.
      destruct (String.eqb_spec (gmailMessageId h) (gmailMessageId message)) as [E|_];
        [|exact Hd2].
      exfalso. apply Hid. left. exact E.
  - intros e Hclose.
    assert (Hs : summary cfg a message r
                 = failure a message (closed (closing a) (launched a r))
                     ((mismatch x message
                       ++ [FxResponse (gmailMessageId message) (ex_tenantMessage x)])
                      ++ [FxResponse (gmailMessageId message) text] ++ [FxCloseBrowser])
                     [ex_tenantMessage x; text] e).
    { unfold summary. cbv zeta. rewrite Hextract, Hgenerate, Hauto, Hsend, Hclose.
      rewrite <- !app_assoc. reflexivity. }
    rewrite Hs in Hrep, Hfx, Hres.
    cbn [failure s_before s_after s_signal s_status s_err] in Hrep, Hfx, Hres.
    split; [exact Hres|]. split; [|split; [exact Hrep|split]].
    + rewrite Hfx. change (approvals (?e :: ?l)) with (approvals l).
      rewrite !approvals_app, approvals_mismatch, Ha. reflexivity.
    + rewrite Hfx. change (signals (?e :: ?l)) with (signals l).
      rewrite !signals_app, signals_mismatch, Hg. reflexivity.
    + subst out. rewrite processMessage_run. cbv zeta. rewrite Hs.
      unfold assemble, failure.
      cbn [s_texts s_status s_err s_signal s_responder s_before s_after
           w_db w_queue w_responder w_awaiting].
      unfold world_of at 1. cbn [fst].
      match goal with |- context [on_queue now ?f ?w2] =>
        destruct (on_queue_state now f w2) as (Hq & _) end.
      exact Hq.
Qed.

Lemma X24_witness :
  let out := processMessage auto_send_config 20 nancy_answers nancy_item nancy_world in
  let out' := processMessage auto_send_config 20 sent_then_close_fails nancy_item
                nancy_world in
  (result_of out = Ok tt
   /\ filter is_report (effects_of out)
      = [FxNotify (Success "Nancy E" "Yes, we welcome well-behaved pets...")]
   /\ signals (effects_of out) = [FxProcessed "m1"])
  /\ (result_of out' = Throw (mkError "Target closed")
      /\ filter is_report (effects_of out')
         = [FxNotify (PlaywrightError (mkError "Target closed") "m1")]
      /\ signals (effects_of out') = [FxFailed "m1" (mkError "Target closed")]
      /\ queue (w_queue (world_of out')) = [bump nancy_item]).
Proof.
  intros out out'.
  pose proof (proj1 (X24_auto_send_path auto_send_config 20 nancy_answers nancy_item
                       nancy_world
                       (mkExtracted "Nancy E" "Hi, is the place pet friendly?"
                          "https://www.furnishedfinder.com/members/tenant-message/42")
                       "Yes, we welcome well-behaved pets..."
                       eq_refl eq_refl eq_refl eq_refl) eq_refl)
    as (A1 & _ & A3 & A4 & _).
  pose proof (proj2 (X24_auto_send_path auto_send_config 20 sent_then_close_fails
                       nancy_item nancy_world
                       (mkExtracted "Nancy E" "Hi, is the place pet friendly?"
                          "https://www.furnishedfinder.com/members/tenant-message/42")
                       "Yes, we welcome well-behaved pets..."
                       eq_refl eq_refl eq_refl eq_refl)
                    (mkError "Target closed") eq_refl)
    as (B1 & _ & B3 & B4 & B5).
  split; [exact (conj A1 (conj A3 A4))|].
  split; [exact B1|]. split; [exact B3|]. split; [exact B4|].
  exact (eq_trans (f_equal queue B5) eq_refl).
Defined.

End OrchestratorLaws.

(* ===================================================================== *)
(** ** Laws of the process as a whole *)
(* ===================================================================== *)

Module SystemLaws.
Import Database Queue Config Pipeline Server.
Import DatabaseFacts QueueFacts PipelineFacts.

Lemma for_each_rel {A} (R : World -> World -> Prop) (body : A -> M unit) (l : list A) :
  (forall w, R w w) -> (forall w1 w2 w3, R w1 w2 -> R w2 w3 -> R w1 w3) ->
  (forall x w, R w (world_of (body x w))) ->
  forall w, R w (world_of (for_each l body w)).
Proof.
  intros Hrefl Htrans Hbody. induction l as [|x rest IH]; intros w; [apply Hrefl|].
  cbn [for_each]. rewrite bind_run.
  pose proof (Hbody x w) as H1.
  destruct (body x w) as [[w1 fx1] [[]|e]];
    unfold world_of in *; cbn [fst snd] in *; [|exact H1].
  pose proof (IH w1) as H2.
  destruct (for_each rest body w1) as [[w2 fx2] r2]. cbn [fst snd] in *.
  exact (Htrans _ _ _ H1 H2).
Qed.

(** The world after a whole [processMessage] call that was suspended. *)
Lemma resume_world cfg now a message w :
  world_of (try_catch (processMessage_resume cfg now a message) (fun _ => ret tt) w)
  = world_of (assemble now (gmailMessageId message)
                (summary cfg a message (w_responder w)) w).
Proof.
  rewrite try_run, resume_assemble.
  destruct (assemble now (gmailMessageId message) _ w) as [[w1 fx1] [[]|e]]; reflexivity.
Qed.

Lemma assemble_world now g s w :
  w_queue (world_of (assemble now g s w))
  = fst (call (w_queue w)
           (match s_signal s with
            | Completes => CallProcessed g
            | Fails e => CallFailed g e
            end))
  /\ texts (w_db (world_of (assemble now g s w))) = texts (w_db w).
Proof.
  unfold assemble. unfold world_of at 1 3. cbn [fst].
  match goal with |- context [on_queue now ?f ?w1] =>
    destruct (on_queue_keeps now f w1) as (_ & _ & Ht & _);
    pose proof (on_queue_queue now f w1) as Hq end.
  rewrite Hq, Ht. cbn [w_queue w_db].
  rewrite texts_updateStatus, texts_write_all.
  split; [destruct (s_signal s); reflexivity|reflexivity].
Qed.

Lemma calls_app q a : forall b,
  fst (calls q (a ++ b)) = fst (calls (fst (calls q a)) b).
Proof.
  revert q. induction a as [|c a IH]; intros q b; [reflexivity|].
  rewrite <- app_comm_cons, !calls_cons. cbn [fst]. apply IH.
Qed.

(** The queue after is the queue before after some calls of its methods. *)
Definition by_calls (w w' : World) : Prop :=
  exists cs, w_queue w' = fst (calls (w_queue w) cs).

Lemma by_calls_refl w : by_calls w w.
Proof. exists []. reflexivity. Qed.

Lemma by_calls_trans w1 w2 w3 : by_calls w1 w2 -> by_calls w2 w3 -> by_calls w1 w3.
Proof.
  intros [a Ha] [b Hb]. exists (a ++ b). rewrite calls_app, <- Ha. exact Hb.
Qed.

Lemma by_calls_one w w' c : w_queue w' = fst (call (w_queue w) c) -> by_calls w w'.
Proof. intros H. exists [c]. rewrite calls_cons. exact H. Qed.

Lemma poll_message_by_calls cfg now m w :
  by_calls w (world_of (poll_message cfg now m w)).
Proof.
  rewrite poll_message_cases.
  destruct (_ || _); [apply by_calls_refl|].
  destruct (verdict cfg m) as [|e|record item]; try apply by_calls_refl.
  rewrite store_and_queue_run.
  destruct (insertMessage (w_db w) now record) as [d1 [rowid|e]].
  - cbv zeta. unfold world_of at 1. cbn [fst].
    apply (by_calls_one _ _ (CallEnqueue now item)).
    rewrite on_queue_queue. reflexivity.
  - exists []. reflexivity.
Qed.

Lemma step_by_calls cfg s w : by_calls w (world_of (step cfg s w)).
Proof.
  destruct s as [now listing|now a]; cbn [step].
  - rewrite checkGmail_run. destruct listing as [messages|e]; [|apply by_calls_refl].
    cbv zeta. unfold world_of at 1. cbn [fst].
    apply for_each_rel; [apply by_calls_refl|apply by_calls_trans|].
    apply poll_message_by_calls.
  - destruct (w_awaiting w) as [|message rest]; [apply by_calls_refl|].
    rewrite resume_world.
    destruct (assemble_world now (gmailMessageId message)
                (summary cfg a message
                   (w_responder (mkWorld (w_db w) (w_queue w) (w_responder w) rest)))
                (mkWorld (w_db w) (w_queue w) (w_responder w) rest)) as [Hq _].
    eapply by_calls_one. exact Hq.
Qed.

Lemma run_by_calls cfg steps w : by_calls w (world_of (run cfg steps w)).
Proof.
  unfold run. apply for_each_rel; [apply by_calls_refl|apply by_calls_trans|].
  intros s w'. apply step_by_calls.
Qed.

(** X25. The process only ever changes the queue through [enqueue],
    [messageProcessed] and [messageFailed]; so, started with a retry bound
    of at least one, it never holds an item that has failed as often as
    the bound, whatever the mailbox and the collaborators answer. *)
Theorem X25_system_retry_bound
  (cfg : SafetyConfig) (d : MessageDatabase) (n : nat) (steps : list Step)
  (Hn : 1 <= n) :
  let w := world_of (run cfg steps (boot d (of_nat n))) in
  (exists cs, w_queue w = fst (calls (create (of_nat n)) cs))
  /\ maxRetries (w_queue w) = of_nat n
  /\ Forall (fun m => retryCount m < n) (queue (w_queue w)).
Proof.
  cbv zeta. destruct (run_by_calls cfg steps (boot d (of_nat n))) as [cs Hcs].
  cbn [boot w_queue] in Hcs. split; [exists cs; exact Hcs|].
  rewrite Hcs. split; [apply calls_maxRetries|].
  apply (calls_bounded n (create (of_nat n)) cs Hn eq_refl). constructor.
Qed.

Lemma X25_witness :
  let w := world_of (run approval_config
                       [Tick 10 (Ok [nancy_mail]); Resume 20 failing_answers]
                       (boot fresh (of_nat 3))) in
  (exists cs, w_queue w = fst (calls (create (of_nat 3)) cs))
  /\ maxRetries (w_queue w) = of_nat 3
  /\ Forall (fun m => retryCount m < 3) (queue (w_queue w)).
Proof.
  apply (X25_system_retry_bound approval_config fresh 3
           [Tick 10 (Ok [nancy_mail]); Resume 20 failing_answers]).
  lia.
Defined.

(** X26. Between two steps of the process, at most one [processMessage]
    call is suspended, and it is the call for the head of the queue; the
    queued ids are distinct; [processing] is set exactly when the queue is
    not empty; and the health endpoint reports the queue as idle exactly
    when no call is suspended. *)
Theorem X26_one_call_suspended
  (cfg : SafetyConfig) (d : MessageDatabase) (n : Number) (steps : list Step) :
  let w := world_of (run cfg steps (boot d n)) in
  w_awaiting w = firstn 1 (queue (w_queue w))
  /\ List.length (w_awaiting w) <= 1
  /\ NoDup (ids (queue (w_queue w)))
  /\ processing (w_queue w) = nonempty (queue (w_queue w))
  /\ (health_queue (w_queue w) = "idle" <-> w_awaiting w = []).
Proof.
  cbv zeta.
  destruct (run_inv cfg steps (boot d n) (Inv_boot d n)) as [[Haw Hb Hnd _ _] _].
  split; [exact Haw|]. split; [|split; [exact Hnd|split; [exact Hb|]]].
  - rewrite Haw. destruct (queue _); cbn; lia.
  - rewrite Haw. unfold health_queue, size. destruct (queue _); cbn.
    + split; reflexivity.
    + split; discriminate.
Qed.

(** Every queued item has a record. *)
Definition stored (w : World) : Prop :=
  forall x, In x (queue (w_queue w)) ->
    messageExists (w_db w) (gmailMessageId x) = true.

(** No record disappears, and queued items keep having one. *)
Definition keeps_records (w w' : World) : Prop :=
  (forall g, messageExists (w_db w) g = true -> messageExists (w_db w') g = true)
  /\ (stored w -> stored w').

Lemma keeps_records_refl w : keeps_records w w.
Proof. split; auto. Qed.

Lemma keeps_records_trans w1 w2 w3 :
  keeps_records w1 w2 -> keeps_records w2 w3 -> keeps_records w1 w3.
Proof. intros [A1 B1] [A2 B2]. split; auto. Qed.

Lemma signal_keeps_ids q c x :
  match c with CallEnqueue _ _ => False | _ => True end ->
  In x (queue (fst (call q c))) -> In (gmailMessageId x) (ids (queue q)).
Proof.
  intros Hc. destruct c as [now m|g|g e]; [destruct Hc| |]; cbn [call].
  - destruct (isInQueue q g) eqn:E.
    + destruct (isInQueue_split _ _ E) as (l1 & x0 & l2 & Hq & H1 & Hx).
      rewrite (messageProcessed_at q g l1 x0 l2 Hq H1 Hx). cbn [fst].
      rewrite processNext_queue. cbn [queue]. rewrite Hq. intros Hin.
      unfold ids. apply in_map. apply in_app_or in Hin.
      apply in_or_app. destruct Hin; [left|right; right]; assumption.
    + rewrite (messageProcessed_absent q g E). cbn [fst]. apply in_map.
  - destruct (isInQueue q g) eqn:E.
    + destruct (isInQueue_split _ _ E) as (l1 & x0 & l2 & Hq & H1 & Hx).
      rewrite (messageFailed_at q g e l1 x0 l2 Hq H1 Hx).
      destruct (at_least (S (retryCount x0)) (maxRetries q)); cbn [fst];
        rewrite processNext_queue; cbn [queue]; rewrite Hq; intros Hin.
      * unfold ids. apply in_map. apply in_app_or in Hin.
        apply in_or_app. destruct Hin; [left|right; right]; assumption.
      * apply in_app_or in Hin. destruct Hin as [Hin|[<-|[]]].
        -- unfold ids. apply in_map. apply in_app_or in Hin.
           apply in_or_app. destruct Hin; [left|right; right]; assumption.
        -- unfold ids. rewrite map_app. apply in_or_app. right. left. reflexivity.
    + rewrite (messageFailed_absent q g e E). cbn [fst]. apply in_map.
Qed.

Lemma poll_message_keeps_records cfg now m w :
  keeps_records w (world_of (poll_message cfg now m w)).
Proof.
  rewrite poll_message_cases.
  destruct (_ || _); [apply keeps_records_refl|].
  destruct (verdict cfg m) as [|e|record item] eqn:Ev; try apply keeps_records_refl.
  destruct (verdict_accept cfg m record item Ev) as (Hr & Hi & _).
  rewrite store_and_queue_run.
  destruct (insertMessage (w_db w) now record) as [d1 [rowid|e]] eqn:Ei.
  - cbv zeta.
    match goal with |- context [on_queue now ?f ?w1] =>
      destruct (on_queue_keeps now f w1) as (_ & _ & Ht & _);
      pose proof (on_queue_queue now f w1) as Hq;
      set (o := on_queue now f w1) in * end.
    rewrite PollerLaws.world_triple.
    cbn [w_db w_queue] in Ht, Hq.
    assert (Hmono : forall g, messageExists (w_db w) g = true ->
                              messageExists (w_db (world_of o)) g = true).
    { intros g Hg. rewrite (PollerLaws.messageExists_texts _ _ g Ht).
      replace d1 with (fst (insertMessage (w_db w) now record)) by (rewrite Ei; reflexivity).
      apply messageExists_insertMessage. exact Hg. }
    split; [exact Hmono|].
    intros Hst x Hx. rewrite Hq, enqueue_queue in Hx.
    apply in_app_or in Hx. destruct Hx as [Hx|[<-|[]]].
    + apply Hmono. apply Hst. exact Hx.
    + cbn [gmailMessageId]. rewrite (PollerLaws.messageExists_texts _ _ _ Ht), Hi, <- Hr.
      exact (PollerLaws.insertMessage_ok_exists _ _ _ _ _ Ei).
  - unfold world_of. cbn [fst].
    assert (Hmono : forall g, messageExists (w_db w) g = true ->
                              messageExists d1 g = true).
    { intros g Hg.
      replace d1 with (fst (insertMessage (w_db w) now record)) by (rewrite Ei; reflexivity).
      apply messageExists_insertMessage. exact Hg. }
    split; [exact Hmono|].
    intros Hst x Hx. cbn [w_queue w_db] in *. apply Hmono. apply Hst. exact Hx.
Qed.

Lemma step_keeps_records cfg s w : keeps_records w (world_of (step cfg s w)).
Proof.
  destruct s as [now listing|now a]; cbn [step].
  - rewrite checkGmail_run. destruct listing as [messages|e]; [|apply keeps_records_refl].
    cbv zeta. unfold world_of at 1. cbn [fst].
    apply for_each_rel; [apply keeps_records_refl|apply keeps_records_trans|].
    apply poll_message_keeps_records.
  - destruct (w_awaiting w) as [|message rest]; [apply keeps_records_refl|].
    rewrite resume_world.
    destruct (assemble_world now (gmailMessageId message)
                (summary cfg a message
                   (w_responder (mkWorld (w_db w) (w_queue w) (w_responder w) rest)))
                (mkWorld (w_db w) (w_queue w) (w_responder w) rest)) as [Hq Ht].
    cbn [w_db w_queue] in Hq, Ht.
    split.
    + intros g Hg. rewrite (PollerLaws.messageExists_texts _ _ g Ht). exact Hg.
    + intros Hst x Hx. rewrite (PollerLaws.messageExists_texts _ _ _ Ht).
      rewrite Hq in Hx. apply signal_keeps_ids in Hx;
        [|destruct (s_signal _); exact I].
      unfold ids in Hx. apply in_map_iff in Hx. destruct Hx as (y & Hy & Hin).
      rewrite <- Hy. apply Hst. exact Hin.
Qed.

(** X28. Records are never deleted, and the Queue never holds an item
    without one: in every state that the process reaches, each id that
    had a record at start-up still has one, and each queued item has a
    record in the Store. *)
Theorem X28_queued_items_are_stored
  (cfg : SafetyConfig) (d : MessageDatabase) (n : Number) (steps : list Step) :
  let w := world_of (run cfg steps (boot d n)) in
  (forall g, messageExists d g = true -> messageExists (w_db w) g = true)
  /\ (forall x, In x (queue (w_queue w)) ->
        messageExists (w_db w) (gmailMessageId x) = true).
Proof.
  cbv zeta.
  assert (H : keeps_records (boot d n) (world_of (run cfg steps (boot d n)))).
  { unfold run. apply for_each_rel; [apply keeps_records_refl|apply keeps_records_trans|].
    intros s w'. apply step_keeps_records. }
  destruct H as [H1 H2]. split; [exact H1|].
  apply H2. intros x [].
Qed.

Lemma X28_witness :
  let w := world_of (run approval_config [Tick 10 (Ok [nancy_mail])] (boot fresh (of_nat 3))) in
  messageExists (w_db w) "m1" = true.
Proof.
  intros w.
  exact (proj2 (X28_queued_items_are_stored approval_config fresh (of_nat 3)
                  [Tick 10 (Ok [nancy_mail])])
               (mkQueued "m1" "Nancy E" (Some "noreply@furnishedfinder.com")
                         "Booking Inquiry from Nancy E" 0 10)
               (or_introl eq_refl)).
Defined.

End SystemLaws.

(* ===================================================================== *)
(** ** The health URL of the LLM client *)
(* ===================================================================== *)

Module ServerLaws.
Import Server StringFacts.

Lemma prefix_nil (s : string) : String.prefix EmptyString s = true.
Proof. destruct s; reflexivity. Qed.

Lemma prefix_shorter : forall p s t,
  String.prefix p (s ++ t) = true -> String.length p <= String.length s ->
  String.prefix p s = true.
Proof.
  induction p as [|a p IH]; intros s t H Hlen; [apply prefix_nil|].
  destruct s as [|c s]; [cbn in Hlen; lia|].
  cbn [append String.prefix] in *.
  destruct (ascii_dec a c); [|discriminate].
  apply (IH s t H). cbn in Hlen. lia.
Qed.

Lemma length_append (a b : string) :
  String.length (a ++ b) = String.length a + String.length b.
Proof. induction a as [|c a IH]; [reflexivity|]. cbn. rewrite IH. reflexivity. Qed.

Lemma replace_eq s pattern replacement :
  replace s pattern replacement
  = if String.prefix pattern s
    then (replacement ++ drop (String.length pattern) s)%string
    else match s with
         | EmptyString => EmptyString
         | String c r => String c (replace r pattern replacement)
         end.
Proof. destruct s; reflexivity. Qed.

Lemma includes_eq s sub :
  includes s sub
  = if String.prefix sub s then true
    else match s with
         | EmptyString => false
         | String _ r => includes r sub
         end.
Proof. destruct s; reflexivity. Qed.

Lemma replace_absent pattern replacement : forall s,
  includes s pattern = false -> replace s pattern replacement = s.
Proof.
  induction s as [|c s IH]; intros H; rewrite includes_eq in H; rewrite replace_eq;
    destruct (String.prefix pattern _); try discriminate; [reflexivity|].
  rewrite (IH H). reflexivity.
Qed.

Lemma replace_first rest : forall base,
  includes (base ++ "/api/quer") "/api/query" = false ->
  replace (base ++ "/api/query" ++ rest) "/api/query" "/health"
  = (base ++ "/health" ++ rest)%string.
Proof.
  induction base as [|c base IH]; intros H.
  - rewrite replace_eq.
    change (EmptyString ++ "/api/query" ++ rest)%string with ("/api/query" ++ rest)%string.
    rewrite (proj2 (prefix_iff "/api/query" ("/api/query" ++ rest))) by (exists rest; reflexivity).
    reflexivity.
  - rewrite includes_eq in H.
    change ((String c base ++ "/api/quer")%string)
      with (String c (base ++ "/api/quer")) in H.
    destruct (String.prefix "/api/query" (String c (base ++ "/api/quer"))) eqn:E;
      [discriminate|].
    change ((String c base ++ "/api/query" ++ rest)%string)
      with (String c (base ++ "/api/query" ++ rest)).
    rewrite replace_eq.
    destruct (String.prefix "/api/query" (String c (base ++ "/api/query" ++ rest))) eqn:E2.
    + exfalso.
      assert (E3 : String.prefix "/api/query"
                     (String c (base ++ "/api/quer") ++ String "y" rest) = true).
      { change (String c (base ++ "/api/quer") ++ String "y" rest)%string
          with (String c ((base ++ "/api/quer") ++ String "y" rest)).
        rewrite append_assoc. exact E2. }
      apply prefix_shorter in E3.
      * rewrite E3 in E. discriminate.
      * cbn [String.length]. rewrite length_append. cbn. lia.
    + rewrite (IH H). reflexivity.
Qed.

(** X29. The health check asks the text-generation service at the API
    URL with its first "/api/query" replaced by "/health": what stands
    before and after that occurrence is kept, and a URL without
    "/api/query" is used as it is. *)
Theorem X29_health_url (apiUrl base rest : string) :
  (includes apiUrl "/api/query" = false -> healthUrl apiUrl = apiUrl)
  /\ (includes (base ++ "/api/quer") "/api/query" = false ->
      healthUrl (base ++ "/api/query" ++ rest) = (base ++ "/health" ++ rest)%string).
Proof.
  unfold healthUrl. split.
  - apply replace_absent.
  - apply replace_first.
Qed.

Lemma X29_witness :
  healthUrl "https://llmrouter-production.up.railway.app/api/query"
  = "https://llmrouter-production.up.railway.app/health".
Proof.
  exact (proj2 (X29_health_url "" "https://llmrouter-production.up.railway.app" "")
               eq_refl).
Defined.

End ServerLaws.

(* ===================================================================== *)
(** ** The process under every interleaving of its calls *)
(* ===================================================================== *)

Module InterleavingLaws.
Import Js Database Queue Config Pipeline Interleaving.
Import DatabaseFacts QueueFacts PipelineFacts.

(** *** One resumption of a [processMessage] call in normal form *)

(** What a resumption does apart from its call on the queue: it goes on
    to the next [await], or it ends with a signal to the queue. *)
Inductive Outcome :=
| Goes (stage : Stage) (d : MessageDatabase) (r : PlaywrightResponder) (fx : list Effect)
| Ends (d : MessageDatabase) (r : PlaywrightResponder) (fx : list Effect) (signal : Signal).

Definition outcome (cfg : SafetyConfig) (now : Timestamp) (a : Answers)
           (message : QueuedMessage) (stage : Stage)
           (d : MessageDatabase) (r : PlaywrightResponder) : Outcome :=
  let g := gmailMessageId message in
  match stage with
  | AtExtract =>
      match extracted a r with
      | Throw e => Goes (AtCatchClose e) d (launched a r) []
      | Ok x =>
          if name_matches x message
          then Goes (AtGenerate x) (updateResponse d g (ex_tenantMessage x))
                    (launched a r) [FxResponse g (ex_tenantMessage x)]
          else Goes (AtMismatch x) d (launched a r) []
      end
  | AtMismatch x =>
      Goes (AtGenerate x) (updateResponse d g (ex_tenantMessage x)) r
           [FxNotify (MessageMismatch g (tenantName message));
            FxResponse g (ex_tenantMessage x)]
  | AtGenerate x =>
      match generated a with
      | Throw e => Goes (AtCatchClose e) d r []
      | Ok text =>
          Goes (if AUTO_SEND_ENABLED cfg then AtSend x text else AtApproval x text)
               (updateResponse d g text) r [FxResponse g text]
      end
  | AtSend x text =>
      match typed a r with
      | Throw e => Goes (AtCatchClose e) d r []
      | Ok _ => Goes (AtCloseSent x text) d r []
      end
  | AtCloseSent x text =>
      match close_result (closing a) r with
      | Throw e => Goes (AtCatchClose e) d (closed (closing a) r) [FxCloseBrowser]
      | Ok _ =>
          Goes (AtSuccess x text) (updateStatus d now g sent None)
               (closed (closing a) r)
               [FxCloseBrowser; FxStatus g (statuses d g) sent None]
      end
  | AtSuccess x text => Ends d r [FxNotify (Success (ex_tenantName x) text)] Completes
  | AtApproval x text =>
      Goes (AtClosePending x text) d r
           [FxApproval (ex_tenantName x) (ex_tenantMessage x) text (ex_conversationUrl x)]
  | AtClosePending x text =>
      match close_result (closing a) r with
      | Throw e => Goes (AtCatchClose e) d (closed (closing a) r) [FxCloseBrowser]
      | Ok _ =>
          Ends (updateStatus d now g pending None) (closed (closing a) r)
               [FxCloseBrowser; FxStatus g (statuses d g) pending None] Completes
      end
  | AtCatchClose e =>
      Goes (AtCatchNotify e) (updateStatus d now g failed (Some (Js.message e)))
           (closed (closing_in_catch a) r)
           [FxCloseBrowser; FxStatus g (statuses d g) failed (Some (Js.message e))]
  | AtCatchNotify e => Ends d r [FxNotify (classify e message)] (Fails e)
  end.

Definition deliver (now : Timestamp) (g : string) (o : Outcome)
           (q : MessageQueue) (aw : list QueuedMessage)
  : World * list Effect * Result (option Stage) :=
  match o with
  | Goes stage d r fx => (mkWorld d q r aw, fx, Ok (Some stage))
  | Ends d r fx signal =>
      let out := on_queue now
                   (match signal with
                    | Completes => fun q => messageProcessed q g
                    | Fails e => fun q => messageFailed q g e
                    end) (mkWorld d q r aw) in
      (world_of out,
       fx
       ++ [match signal with Completes => FxProcessed g | Fails e => FxFailed g e end]
       ++ effects_of out
       ++ match signal with Completes => [] | Fails e => [FxRethrow e] end,
       Ok None)
  end.

Ltac finish_call oq Hoq :=
  repeat (first [ rewrite bind_run
                | progress unfold notify, log, db_updateStatus, throw, ret
                | progress cbn beta iota ]);
  cbn [w_db w_queue w_responder w_awaiting];
  run_queue oq Hoq;
  unfold world_of, effects_of; simpl; rewrite <- ?app_assoc; simpl;
  rewrite ?app_nil_r; reflexivity.

Lemma resume_call_deliver cfg now a message stage d q r aw :
  resume_call cfg now a message stage (mkWorld d q r aw)
  = deliver now (gmailMessageId message) (outcome cfg now a message stage d r) q aw.
Proof.
  pose proof (fun f w => proj1 (on_queue_keeps now f w)) as Hoq.
  revert Hoq. unfold mq_messageProcessed, mq_messageFailed in *.
  destruct stage as [|x|x|x text|x text|x text|x text|x text|e|e];
    unfold resume_call, in_try, in_catch, to_generate, outcome, deliver,
      mq_messageProcessed, mq_messageFailed;
    generalize (on_queue now); intros oq Hoq;
    rewrite ?try_run, ?bind_run.
  - rewrite extract_shape.
    change (includes (toLowerCase (ex_tenantName ?x)) (toLowerCase (tenantName message))
            || includes (toLowerCase (tenantName message)) (toLowerCase (ex_tenantName ?x)))
      with (name_matches x message).
    destruct (extracted a r) as [x|e]; [|reflexivity].
    destruct (name_matches x message); reflexivity.
  - reflexivity.
  - rewrite generate_shape. destruct (generated a) as [text|e]; [|reflexivity].
    rewrite bind_run. unfold db_updateResponse.
    destruct (AUTO_SEND_ENABLED cfg); reflexivity.
  - rewrite send_shape. cbn [w_responder].
    destruct (typed a r) as [[]|e]; reflexivity.
  - rewrite close_shape. destruct (close_result (closing a) r) as [[]|e]; reflexivity.
  - finish_call oq Hoq.
  - reflexivity.
  - rewrite close_shape. destruct (close_result (closing a) r) as [[]|e]; [|reflexivity].
    finish_call oq Hoq.
  - rewrite close_caught_shape. reflexivity.
  - finish_call oq Hoq.
Qed.


(** *** One resumption of a [checkGmail] call *)

Lemma next_new_keeps messages w : exists s, next_new messages w = (w, [], Ok s).
Proof.
  induction messages as [|m rest IH]; cbn [next_new]; [eexists; reflexivity|].
  destruct (messageExists (w_db w) (mail_id m)); [exact IH|].
  destruct (isInQueue (w_queue w) (mail_id m)); [exact IH|].
  eexists. reflexivity.
Qed.

Lemma after_get_cases cfg now m w :
  after_get cfg now m w
  = match verdict cfg m with
    | Skip => (w, [], Ok tt)
    | Abort e => (w, [], Throw e)
    | Accept record item => (db_insertMessage now record ;; mq_enqueue now item) w
    end.
Proof.
  unfold after_get, verdict. rewrite bind_run. unfold lift at 1.
  destruct (mail_headers m) as [headers|e]; [|reflexivity].
  destruct (Categorize.type _); try reflexivity.
  destruct (_ && _).
  - reflexivity.
  - destruct ((db_insertMessage now _ ;; mq_enqueue now _) w) as [[w2 fx2] r2].
    reflexivity.
Qed.

(** The loop body of [Pipeline.poll_message] is the two tests followed,
    without a pause, by what follows the [await]. *)
Lemma poll_message_after_get cfg now m w :
  poll_message cfg now m w
  = if messageExists (w_db w) (mail_id m) then ret tt w
    else if isInQueue (w_queue w) (mail_id m) then ret tt w
    else after_get cfg now m w.
Proof. reflexivity. Qed.

Lemma resume_poll_run cfg now listing stage w :
  exists r,
    resume_poll cfg now listing stage w
    = (match stage with
       | AtGet m _ => world_of (after_get cfg now m w)
       | _ => w
       end,
       match stage with
       | AtList => []
       | AtGet m _ => effects_of (after_get cfg now m w)
       | AtSystemError e =>
           [FxNotify (SystemError e "Failed to check Gmail for new messages")]
       end,
       Ok r).
Proof.
  destruct stage as [|m rest|e]; cbn [resume_poll].
  - rewrite try_run, bind_run. unfold lift. destruct listing as [messages|e].
    + destruct (next_new_keeps messages w) as [s ->]. eexists. reflexivity.
    + eexists. reflexivity.
  - rewrite try_run, bind_run.
    destruct (after_get cfg now m w) as [[w1 fx1] [[]|e]].
    + destruct (next_new_keeps rest w1) as [s ->]. eexists.
      unfold world_of, effects_of. cbn [fst snd]. rewrite app_nil_r. reflexivity.
    + eexists. unfold world_of, effects_of, ret. cbn [fst snd]. rewrite app_nil_r.
      reflexivity.
  - eexists. reflexivity.
Qed.

(** *** A step of [Pipeline.step] is a call that nothing interrupts *)

Lemma deliver_goes now g stage d r fx q aw :
  deliver now g (Goes stage d r fx) q aw = (mkWorld d q r aw, fx, Ok (Some stage)).
Proof. reflexivity. Qed.

Ltac go_on :=
  repeat first
    [ rewrite deliver_goes
    | progress (cbn [uninterrupted]; rewrite bind_run, resume_call_deliver;
                cbn [outcome]) ].

(** The rest of a [processMessage] call in [Pipeline.step] is the call
    going on from [extractLatestMessage] with nothing in between. *)
Lemma uninterrupted_is_resume cfg now a message w :
  uninterrupted 7 cfg now a message AtExtract w
  = try_catch (processMessage_resume cfg now a message) (fun _ => ret tt) w.
Proof.
  destruct w as [d q r aw].
  rewrite try_run, resume_assemble. cbn [w_responder].
  unfold summary, failure, mismatch. cbv zeta.
  pose proof (fun f w => proj1 (on_queue_keeps now f w)) as Hoq.
  cbn [uninterrupted]. rewrite bind_run, resume_call_deliver. cbn [outcome].
  destruct (extracted a r) as [x|e];
    [ destruct (name_matches x message);
      go_on;
      (destruct (generated a) as [text|e];
       [ destruct (AUTO_SEND_ENABLED cfg);
         [ go_on; destruct (typed a (launched a r)) as [[]|e];
           [ go_on; destruct (close_result (closing a) (launched a r)) as [[]|e] | ]
         | go_on; destruct (close_result (closing a) (launched a r)) as [[]|e] ]
       | ])
    | ];
    go_on; unfold assemble, deliver;
    cbn [s_texts s_status s_err s_signal s_responder s_before s_after
         w_db w_queue w_responder w_awaiting write_all fold_left];
    revert Hoq; generalize (on_queue now); intros oq Hoq;
    run_queue oq Hoq; unfold world_of, effects_of; simpl;
    rewrite <- ?app_assoc; simpl; rewrite ?app_nil_r; reflexivity.
Qed.

Lemma loop_uninterrupted cfg now listing messages : forall fuel w,
  List.length messages < fuel ->
  bind (next_new messages) (then_poll fuel cfg now listing) w
  = try_catch (for_each messages (poll_message cfg now))
              (fun error =>
                 notify (SystemError error "Failed to check Gmail for new messages")) w.
Proof.
  induction messages as [|m rest IH]; intros fuel w Hfuel.
  - reflexivity.
  - cbn [List.length] in Hfuel.
    set (lhs := bind (next_new (m :: rest)) (then_poll fuel cfg now listing) w).
    rewrite try_run. cbn [for_each]. rewrite bind_run, poll_message_after_get.
    subst lhs. rewrite bind_run. cbn [next_new].
    destruct (messageExists (w_db w) (mail_id m)) eqn:E1;
      [|destruct (isInQueue (w_queue w) (mail_id m)) eqn:E2].
    + specialize (IH fuel w ltac:(lia)). rewrite bind_run, try_run in IH.
      unfold ret.
      destruct (next_new rest w) as [[w1 fx1] r1].
      destruct (for_each rest (poll_message cfg now) w) as [[w2 fx2] r2].
      exact IH.
    + specialize (IH fuel w ltac:(lia)). rewrite bind_run, try_run in IH.
      unfold ret.
      destruct (next_new rest w) as [[w1 fx1] r1].
      destruct (for_each rest (poll_message cfg now) w) as [[w2 fx2] r2].
      exact IH.
    + unfold ret at 1. cbn beta iota.
      destruct fuel as [|fuel]; [lia|].
      cbn [then_poll uninterrupted_poll]. rewrite bind_run.
      cbn [resume_poll]. rewrite try_run, bind_run.
      destruct (after_get cfg now m w) as [[w1 fx1] [[]|e]].
      * specialize (IH fuel w1 ltac:(lia)). rewrite bind_run, try_run in IH.
        destruct (next_new_keeps rest w1) as [s Hs]. rewrite Hs in *.
        fold (then_poll fuel cfg now listing s).
        destruct (then_poll fuel cfg now listing s w1) as [[w3 fx3] r3].
        destruct (for_each rest (poll_message cfg now) w1) as [[w2 fx2] [[]|e2]].
        -- injection IH as -> -> ->. cbn. rewrite ?app_nil_r. reflexivity.
        -- destruct (notify _ w2) as [[w4 fx4] r4].
           injection IH as -> -> ->. cbn. rewrite ?app_nil_r, ?app_assoc. reflexivity.
      * unfold ret. cbn beta iota.
        destruct fuel as [|fuel]; [lia|].
        cbn [uninterrupted_poll]. rewrite bind_run. cbn [resume_poll].
        unfold notify, log, ret. rewrite bind_run. cbn. rewrite ?app_nil_r.
        reflexivity.
Qed.

Lemma uninterrupted_poll_S fuel cfg now listing stage :
  uninterrupted_poll (S fuel) cfg now listing stage
  = bind (resume_poll cfg now listing stage) (then_poll fuel cfg now listing).
Proof. reflexivity. Qed.

(** A poll tick of [Pipeline.step] is a [checkGmail] call that goes on
    without anything in between. *)
Lemma tick_uninterrupted cfg now listing w :
  uninterrupted_poll
    (2 + List.length (match listing with Ok messages => messages | Throw _ => [] end))
    cfg now listing AtList w
  = checkGmail cfg now listing w.
Proof.
  unfold checkGmail. change (2 + ?n) with (S (S n)).
  rewrite uninterrupted_poll_S, bind_run.
  cbn [resume_poll]. destruct listing as [messages|e].
  - pose proof (loop_uninterrupted cfg now (Ok messages) messages
                  (S (List.length messages)) w ltac:(lia)) as H.
    rewrite bind_run in H. rewrite !try_run, !bind_run. unfold lift.
    rewrite try_run in H.
    destruct (next_new_keeps messages w) as [s Hs]. rewrite Hs in *.
    destruct (then_poll (S (List.length messages)) cfg now (Ok messages) s w)
      as [[w3 fx3] r3].
    destruct (for_each messages (poll_message cfg now) w) as [[w2 fx2] [[]|e2]].
    + injection H as -> -> ->. reflexivity.
    + destruct (notify _ w2) as [[w4 fx4] r4].
      injection H as -> -> ->. reflexivity.
  - reflexivity.
Qed.

(** *** The invariant of the process between two moves *)

Definition have_records (d : MessageDatabase) (l : list QueuedMessage) : Prop :=
  forall x, In x l -> messageExists d (gmailMessageId x) = true.

(** No call started during the last move is left unsettled; the suspended
    calls are the call for the head of the queue, if there is one; the
    queued ids are distinct and have records; the records of the head
    have the status of the stage of its call, those of the other queued
    items are [pending] or [failed]. *)
Record Sound (p : Process) : Prop := mkSound {
  sound_settled : w_awaiting (p_world p) = [];
  sound_calls : map fst (p_calls p) = firstn 1 (queue (w_queue (p_world p)));
  sound_processing :
    processing (w_queue (p_world p)) = nonempty (queue (w_queue (p_world p)));
  sound_nodup : NoDup (ids (queue (w_queue (p_world p))));
  sound_stored : have_records (w_db (p_world p)) (queue (w_queue (p_world p)));
  sound_head : forall h stage, In (h, stage) (p_calls p) ->
    Forall (eq (status_at stage)) (statuses (w_db (p_world p)) (gmailMessageId h));
  sound_rest : forall h r x, queue (w_queue (p_world p)) = h :: r -> In x r ->
    Forall waiting (statuses (w_db (p_world p)) (gmailMessageId x))
}.

Lemma sound_initial d n : Sound (initial d n).
Proof.
  constructor; cbn; try reflexivity; try constructor; try (intros; discriminate).
  - intros x [].
  - intros h stage [].
Qed.

Lemma messageExists_statuses d g :
  messageExists d g = (0 <? List.length (statuses d g)).
Proof.
  rewrite messageExists_copies. unfold copies, statuses. rewrite length_map. reflexivity.
Qed.

Lemma have_records_same d d' l :
  (forall g, List.length (statuses d' g) = List.length (statuses d g)) ->
  have_records d l -> have_records d' l.
Proof.
  intros H Hs x Hx. rewrite messageExists_statuses, H, <- messageExists_statuses.
  apply Hs. exact Hx.
Qed.

Lemma length_statuses_updateStatus d now g st err g' :
  List.length (statuses (updateStatus d now g st err) g') = List.length (statuses d g').
Proof.
  rewrite statuses_updateStatus. destruct (g =? g')%string; [apply length_map|reflexivity].
Qed.

Lemma settle_quiet calls polls d q r :
  settle calls polls (mkWorld d q r []) = mkProcess (mkWorld d q r []) calls polls.
Proof. unfold settle. cbn. rewrite app_nil_r. reflexivity. Qed.

Lemma sound_of_inv w polls :
  Inv w -> have_records (w_db w) (queue (w_queue w)) -> Sound (settle [] polls w).
Proof.
  intros [Haw Hb Hnd Hh Hr] Hs.
  destruct w as [d q resp aw]. cbn [w_awaiting w_queue w_db] in *.
  constructor; cbn [settle p_world p_calls w_awaiting w_queue w_db app];
    try assumption; try reflexivity.
  - rewrite map_map. cbn [fst]. rewrite map_id. exact Haw.
  - intros h stage Hin. apply in_map_iff in Hin. destruct Hin as (m & Hm & Hin).
    injection Hm as <- <-. cbn [status_at]. rewrite Haw in Hin.
    destruct (queue q) as [|h r] eqn:E; [destruct Hin|].
    destruct Hin as [<-|[]]. apply (Hh h r eq_refl).
Qed.

(** Handing over the head of what a queue method left behind. *)
Lemma sound_handover now d l n resp polls fx :
  NoDup (ids l) ->
  (forall x, In x l -> Forall waiting (statuses d (gmailMessageId x))) ->
  have_records d l ->
  lawful fx ->
  Sound (settle [] polls (world_of (hand_next now d l n resp [] fx)))
  /\ lawful (effects_of (hand_next now d l n resp [] fx)).
Proof.
  intros Hnd Hw Hs Hfx.
  destruct (hand_next_inv now d l n resp fx Hnd Hw Hfx) as [HI Hl].
  split; [|exact Hl]. apply sound_of_inv; [exact HI|].
  unfold hand_next. destruct l as [|h r]; unfold world_of; cbn [fst w_db w_queue queue].
  - intros x [].
  - eapply have_records_same; [|exact Hs]. intros g. apply length_statuses_updateStatus.
Qed.

(** The end of the call for the head [h]. *)
Lemma ends_sound now d h r n resp polls signal :
  NoDup (ids (h :: r)) ->
  have_records d (h :: r) ->
  (forall x, In x r -> Forall waiting (statuses d (gmailMessageId x))) ->
  match signal with
  | Completes => True
  | Fails _ => Forall waiting (statuses d (gmailMessageId h))
  end ->
  let out := on_queue now
               (match signal with
                | Completes => fun q => messageProcessed q (gmailMessageId h)
                | Fails e => fun q => messageFailed q (gmailMessageId h) e
                end) (mkWorld d (mkQueue (h :: r) true n) resp []) in
  Sound (settle [] polls (world_of out)) /\ lawful (effects_of out).
Proof.
  intros Hnd Hs Hrest Hhead. cbv zeta.
  inversion Hnd as [|? ? Hnot Hnd']; subst.
  assert (Hsr : have_records d r) by (intros x Hx; apply Hs; right; exact Hx).
  destruct signal as [|e].
  - rewrite on_queue_processed by apply has_id_self.
    apply sound_handover; auto. apply lawful_quiet. reflexivity.
  - rewrite on_queue_failed by apply has_id_self.
    destruct (at_least (S (retryCount h)) n).
    + apply sound_handover; auto. apply lawful_quiet. reflexivity.
    + apply sound_handover.
      * rewrite ids_app. simpl. apply nodup_rotate. constructor; assumption.
      * intros x Hx. apply in_app_or in Hx. destruct Hx as [Hx|[<-|[]]]; auto.
      * intros x Hx. apply in_app_or in Hx. destruct Hx as [Hx|[<-|[]]]; auto.
        apply (Hs h). left. reflexivity.
      * apply lawful_nil.
Qed.


(** The call for the head goes on to its next [await], the statuses as
    they were. *)
Lemma goes_quiet d d' h r n resp resp' stage stage' polls :
  Sound (mkProcess (mkWorld d (mkQueue (h :: r) true n) resp []) [(h, stage)] polls) ->
  (forall g, statuses d' g = statuses d g) ->
  status_at stage' = status_at stage ->
  Sound (mkProcess (mkWorld d' (mkQueue (h :: r) true n) resp' []) [(h, stage')] polls).
Proof.
  intros [_ _ _ Hnd Hs Hh Hr] Hst Hat.
  cbn [p_world p_calls w_db w_queue w_awaiting queue processing] in *.
  constructor; cbn [p_world p_calls w_db w_queue w_awaiting queue processing];
    try reflexivity; try assumption.
  - eapply have_records_same; [|exact Hs]. intros g. rewrite Hst. reflexivity.
  - intros h' st' [E|[]]. injection E as <- <-. rewrite Hst, Hat.
    apply Hh. left. reflexivity.
  - intros h' r' x E Hx. rewrite Hst. apply (Hr h' r' x E Hx).
Qed.

(** The call for the head writes a status and goes on. *)
Lemma goes_marked d now st err h r n resp resp' stage stage' polls :
  Sound (mkProcess (mkWorld d (mkQueue (h :: r) true n) resp []) [(h, stage)] polls) ->
  status_at stage' = st ->
  Sound (mkProcess (mkWorld (updateStatus d now (gmailMessageId h) st err)
                            (mkQueue (h :: r) true n) resp' [])
                   [(h, stage')] polls).
Proof.
  intros [_ _ _ Hnd Hs Hh Hr] Hat.
  cbn [p_world p_calls w_db w_queue w_awaiting queue processing] in *.
  constructor; cbn [p_world p_calls w_db w_queue w_awaiting queue processing];
    try reflexivity; try assumption.
  - eapply have_records_same; [|exact Hs]. intros g. apply length_statuses_updateStatus.
  - intros h' st' [E|[]]. injection E as <- <-.
    rewrite statuses_updateStatus, String.eqb_refl, Hat.
    apply Forall_map. apply Forall_forall. reflexivity.
  - intros h' r' x E Hx. injection E as <- <-. rewrite statuses_updateStatus.
    destruct (String.eqb_spec (gmailMessageId h) (gmailMessageId x)) as [E|_].
    + exfalso. inversion Hnd as [|? ? Hnot _]; subst. apply Hnot.
      rewrite E. apply in_map. exact Hx.
    + apply (Hr h r x eq_refl Hx).
Qed.

Lemma lawful_from_processing g l st err :
  Forall (eq Database.processing) l ->
  st = sent \/ st = pending \/ st = failed ->
  lawful [FxStatus g l st err].
Proof.
  intros Hl Hst. apply lawful_status. eapply Forall_impl; [|exact Hl].
  intros old <-. destruct Hst as [-> | [-> | ->]]; simpl; auto 10.
Qed.

(** A suspended call for the head of the queue gets its answer. *)
Lemma proceed_sound cfg now a h stage d r n resp polls :
  Sound (mkProcess (mkWorld d (mkQueue (h :: r) true n) resp []) [(h, stage)] polls) ->
  let out := resume_call cfg now a h stage
               (mkWorld d (mkQueue (h :: r) true n) resp []) in
  Sound (settle (put 0 (option_map (pair h) (next (result_of out))) [(h, stage)])
                polls (world_of out))
  /\ lawful (effects_of out).
Proof.
  intros HS. cbv zeta. rewrite resume_call_deliver.
  pose proof HS as [_ _ _ Hnd Hs Hh Hr].
  cbn [p_world p_calls w_db w_queue w_awaiting queue processing] in Hnd, Hs, Hh, Hr.
  specialize (Hh h stage (or_introl eq_refl)).
  specialize (Hr h r).
  assert (Hrest : forall x, In x r -> Forall waiting (statuses d (gmailMessageId x)))
    by (intros x Hx; exact (Hr x eq_refl Hx)).
  assert (Hgo : forall stage' d' resp' fx,
            Sound (mkProcess (mkWorld d' (mkQueue (h :: r) true n) resp' [])
                             [(h, stage')] polls) ->
            lawful fx ->
            let out := deliver now (gmailMessageId h) (Goes stage' d' resp' fx)
                         (mkQueue (h :: r) true n) [] in
            Sound (settle (put 0 (option_map (pair h) (next (result_of out)))
                               [(h, stage)]) polls (world_of out))
            /\ lawful (effects_of out)).
  { intros stage' d' resp' fx HS' Hfx. cbv zeta. cbn [deliver].
    unfold result_of, world_of, effects_of. cbn [fst snd next option_map put firstn skipn app].
    rewrite settle_quiet. auto. }
  assert (Hend : forall d' resp' fx signal,
            (forall g, List.length (statuses d' g) = List.length (statuses d g)) ->
            (forall g, g <> gmailMessageId h -> statuses d' g = statuses d g) ->
            match signal with
            | Completes => True
            | Fails _ => Forall waiting (statuses d' (gmailMessageId h))
            end ->
            lawful fx ->
            let out := deliver now (gmailMessageId h) (Ends d' resp' fx signal)
                         (mkQueue (h :: r) true n) [] in
            Sound (settle (put 0 (option_map (pair h) (next (result_of out)))
                               [(h, stage)]) polls (world_of out))
            /\ lawful (effects_of out)).
  { intros d' resp' fx signal Hlen Hother Hw Hfx. cbv zeta. cbn [deliver].
    unfold result_of at 1, world_of at 1, effects_of at 1.
    cbn [fst snd next option_map put firstn skipn app].
    inversion Hnd as [|? ? Hnot Hnd']; subst.
    destruct (ends_sound now d' h r n resp' polls signal) as [H1 H2].
    - constructor; assumption.
    - eapply have_records_same; [exact Hlen|exact Hs].
    - intros x Hx. rewrite Hother; [apply Hrest; exact Hx|].
      intros E. apply Hnot. rewrite <- E. apply in_map. exact Hx.
    - exact Hw.
    - split; [exact H1|].
      apply lawful_app; [exact Hfx|].
      apply (lawful_app [_]); [destruct signal; apply lawful_quiet; reflexivity|].
      apply lawful_app; [exact H2|].
      destruct signal; apply lawful_quiet; reflexivity. }
  destruct stage as [|x|x|x text|x text|x text|x text|x text|e|e];
    cbn [outcome status_at] in *.
  - destruct (extracted a resp) as [x|e].
    + destruct (name_matches x h); apply Hgo;
        try (apply lawful_quiet; reflexivity).
      * eapply goes_quiet; [exact HS| |reflexivity].
        intros g. apply statuses_updateResponse.
      * eapply goes_quiet; [exact HS|reflexivity|reflexivity].
    + apply Hgo; [|apply lawful_nil].
      eapply goes_quiet; [exact HS|reflexivity|reflexivity].
  - apply Hgo; [|apply lawful_quiet; reflexivity].
    eapply goes_quiet; [exact HS| |reflexivity].
    intros g. apply statuses_updateResponse.
  - destruct (generated a) as [text|e].
    + apply Hgo; [|apply lawful_quiet; reflexivity].
      eapply goes_quiet; [exact HS|intros g; apply statuses_updateResponse|].
      destruct (AUTO_SEND_ENABLED cfg); reflexivity.
    + apply Hgo; [|apply lawful_nil].
      eapply goes_quiet; [exact HS|reflexivity|reflexivity].
  - destruct (typed a resp) as [[]|e]; (apply Hgo; [|apply lawful_nil]);
      (eapply goes_quiet; [exact HS|reflexivity|reflexivity]).
  - destruct (close_result (closing a) resp) as [[]|e]; apply Hgo.
    + eapply goes_marked; [exact HS|reflexivity].
    + change (lawful ([FxCloseBrowser]
                      ++ [FxStatus (gmailMessageId h) (statuses d (gmailMessageId h))
                                   sent None])).
      apply lawful_app; [apply lawful_quiet; reflexivity|].
      apply lawful_from_processing; auto.
    + eapply goes_quiet; [exact HS|reflexivity|reflexivity].
    + apply lawful_quiet. reflexivity.
  - apply Hend; auto. apply lawful_quiet. reflexivity.
  - apply Hgo; [|apply lawful_quiet; reflexivity].
    eapply goes_quiet; [exact HS|reflexivity|reflexivity].
  - destruct (close_result (closing a) resp) as [[]|e].
    + apply Hend.
      * intros g. apply length_statuses_updateStatus.
      * intros g Hg. rewrite statuses_updateStatus.
        destruct (String.eqb_spec (gmailMessageId h) g) as [E|_]; [|reflexivity].
        congruence.
      * exact I.
      * change (lawful ([FxCloseBrowser]
                        ++ [FxStatus (gmailMessageId h) (statuses d (gmailMessageId h))
                                     pending None])).
        apply lawful_app; [apply lawful_quiet; reflexivity|].
        apply lawful_from_processing; auto.
    + apply Hgo; [|apply lawful_quiet; reflexivity].
      eapply goes_quiet; [exact HS|reflexivity|reflexivity].
  - apply Hgo.
    + eapply goes_marked; [exact HS|reflexivity].
    + change (lawful ([FxCloseBrowser]
                      ++ [FxStatus (gmailMessageId h) (statuses d (gmailMessageId h))
                                   failed (Some (Js.message e))])).
      apply lawful_app; [apply lawful_quiet; reflexivity|].
      apply lawful_from_processing; auto.
  - apply Hend; auto.
    + eapply Forall_impl; [|exact Hh]. intros st <-. right. reflexivity.
    + apply lawful_quiet. reflexivity.
Qed.


Lemma sound_polls w calls polls polls' :
  Sound (mkProcess w calls polls) -> Sound (mkProcess w calls polls').
Proof. intros [H1 H2 H3 H4 H5 H6 H7]. constructor; assumption. Qed.

Lemma calls_of_head (calls : list (QueuedMessage * Stage)) h :
  map fst calls = [h] -> exists stage, calls = [(h, stage)].
Proof.
  destruct calls as [|[h' stage] [|c calls]]; try discriminate.
  intros E. injection E as <-. exists stage. reflexivity.
Qed.

(** The loop body of [checkGmail] after the details of [m] have arrived,
    whatever has happened since the two tests. *)
Lemma after_get_sound cfg now m d l b n resp calls polls polls' :
  Sound (mkProcess (mkWorld d (mkQueue l b n) resp []) calls polls) ->
  let out := after_get cfg now m (mkWorld d (mkQueue l b n) resp []) in
  Sound (settle calls polls' (world_of out)) /\ lawful (effects_of out).
Proof.
  intros HS. cbv zeta. rewrite after_get_cases.
  assert (Hsame : Sound (settle calls polls' (mkWorld d (mkQueue l b n) resp []))).
  { rewrite settle_quiet. eapply sound_polls. exact HS. }
  destruct (verdict cfg m) as [|e|record item] eqn:Ev;
    [split; [exact Hsame|apply lawful_nil]|split; [exact Hsame|apply lawful_nil]|].
  destruct (verdict_accept _ _ _ _ Ev) as (Hrec & Hitem & Hpending).
  rewrite store_and_queue_run. cbn [w_db w_queue w_responder w_awaiting].
  destruct (db d) as [t|] eqn:E;
    [|rewrite (insertMessage_closed d now record E);
      split; [exact Hsame|apply lawful_quiet; reflexivity]].
  destruct (messageExists d (gmail_message_id record)) eqn:Hnew;
    [rewrite (insertMessage_duplicate d now record Hnew);
     split; [exact Hsame|apply lawful_quiet; reflexivity]|].
  pose proof (statuses_insert_new d t now record) as Hst.
  specialize (fun g => Hst g E Hnew).
  rewrite (insertMessage_new d t now record E Hnew) in *. cbn [fst] in Hst.
  set (d1 := mkDb (Some (mkTable (rows t ++ [inserted_row (S (last_rowid t)) now record])
                                 (S (last_rowid t))))) in *.
  pose proof HS as [_ Hcalls Hb Hnd Hs Hh Hr].
  cbn [p_world p_calls w_db w_queue w_awaiting queue processing] in Hcalls, Hb, Hnd, Hs, Hh, Hr.
  subst b. cbv zeta. rewrite on_queue_enqueue.
  set (queued := mkQueued (new_gmailMessageId item) (new_tenantName item)
                          (new_tenantEmail item) (new_tenantMessage item) 0 now).
  assert (Hnq : ~ In (mail_id m) (ids l)).
  { intros Hin. apply in_map_iff in Hin. destruct Hin as (x & Hx & Hin).
    specialize (Hs x Hin). rewrite Hx, <- Hrec in Hs. congruence. }
  assert (Hother : forall x, In x l ->
            statuses d1 (gmailMessageId x) = statuses d (gmailMessageId x)).
  { intros x Hx. rewrite Hst, Hrec.
    destruct (String.eqb_spec (mail_id m) (gmailMessageId x)) as [Eq|_]; [|reflexivity].
    exfalso. apply Hnq. rewrite Eq. apply in_map. exact Hx. }
  assert (Hqueued : statuses d1 (gmailMessageId queued) = [pending]).
  { subst queued. cbn [gmailMessageId].
    rewrite Hst, Hitem, Hrec, String.eqb_refl, Hpending. reflexivity. }
  assert (Hs1 : have_records d1 (l ++ [queued])).
  { intros x Hx. rewrite messageExists_statuses.
    apply in_app_or in Hx. destruct Hx as [Hx|[<-|[]]].
    - rewrite Hother by exact Hx. rewrite <- messageExists_statuses. apply Hs. exact Hx.
    - rewrite Hqueued. reflexivity. }
  destruct l as [|h r].
  - destruct calls as [|c calls]; [|discriminate].
    destruct (sound_handover now d1 [queued] n resp polls'
                [FxEmit (EvMessageAdded queued)]) as [H1 H2].
    + repeat constructor. intros [].
    + intros x [<-|[]]. rewrite Hqueued. repeat constructor.
    + exact Hs1.
    + apply lawful_quiet. reflexivity.
    + unfold world_of at 1, effects_of at 1. cbn [fst snd]. split; [exact H1|].
      apply (lawful_app [_; _]); [apply lawful_quiet; reflexivity|exact H2].
  - cbn [firstn queue] in Hcalls. destruct (calls_of_head calls h Hcalls) as [stage ->].
    unfold world_of, effects_of. cbn [fst snd]. split; [|apply lawful_quiet; reflexivity].
    rewrite settle_quiet.
    constructor; cbn [p_world p_calls w_db w_queue w_awaiting queue processing
                      nonempty firstn map fst app]; try reflexivity.
    + change (NoDup (ids ((h :: r) ++ [queued]))).
      rewrite ids_app. cbn [ids map gmailMessageId queued]. rewrite Hitem.
      apply NoDup_app; [exact Hnd|repeat constructor; intros []|].
      intros x Hx [<-|[]]. contradiction.
    + exact Hs1.
    + intros h' st' [Eq|[]]. injection Eq as <- <-.
      rewrite Hother by (left; reflexivity). apply Hh. left. reflexivity.
    + intros h' r' x Eq Hx. injection Eq as <- <-.
      apply in_app_or in Hx. destruct Hx as [Hx|[<-|[]]].
      * rewrite Hother by (right; exact Hx). apply (Hr h r x eq_refl Hx).
      * rewrite Hqueued. repeat constructor.
Qed.

(** *** Every move keeps the invariant *)

Lemma move_sound cfg mv p :
  Sound p ->
  Sound (fst (move cfg mv p)) /\ lawful (snd (move cfg mv p)).
Proof.
  intros HS. destruct p as [[d [l b n] resp aw] calls polls].
  pose proof HS as [Haw Hcalls Hb _ _ _ _].
  cbn [p_world p_calls w_awaiting w_queue queue processing] in Haw, Hcalls, Hb.
  subst aw. destruct mv as [t| |i now listing|i now a];
    cbn [move p_world p_calls p_polls w_db w_queue w_responder w_awaiting].
  - destruct (db d) as [t0|] eqn:E; cbn [fst snd]; (split; [|apply lawful_nil]);
      [exact HS|].
    destruct HS as [_ _ _ _ Hs _ _].
    cbn [p_world w_db w_queue queue] in Hs.
    destruct l as [|h r].
    + destruct calls as [|c calls]; [|discriminate]. subst b.
      constructor; cbn; try reflexivity; try constructor; try (intros; discriminate).
      * intros x [].
      * intros h stage [].
    + specialize (Hs h (or_introl eq_refl)). unfold messageExists in Hs.
      rewrite E in Hs. discriminate.
  - cbn [fst snd]. split; [eapply sound_polls; exact HS|apply lawful_nil].
  - destruct (nth_error polls i) as [stage|]; [|split; [exact HS|apply lawful_nil]].
    destruct (resume_poll_run cfg now listing stage
                (mkWorld d (mkQueue l b n) resp [])) as [r ->].
    cbn [fst snd next].
    destruct stage as [|m rest|e].
    + rewrite settle_quiet. split; [eapply sound_polls; exact HS|apply lawful_nil].
    + eapply after_get_sound. exact HS.
    + rewrite settle_quiet.
      split; [eapply sound_polls; exact HS|apply lawful_quiet; reflexivity].
  - destruct l as [|h r].
    + destruct calls as [|c calls]; [|discriminate].
      destruct i; cbn [nth_error fst snd]; split; try exact HS; apply lawful_nil.
    + cbn [firstn] in Hcalls. destruct (calls_of_head calls h Hcalls) as [stage ->].
      destruct i as [|i];
        [|destruct i; cbn [nth_error fst snd]; split; try exact HS; apply lawful_nil].
      cbn [nth_error]. cbn [nonempty] in Hb. subst b.
      pose proof (proceed_sound cfg now a h stage d r n resp polls HS) as H.
      cbv zeta in H.
      destruct (resume_call cfg now a h stage _) as [[w fx] res].
      exact H.
Qed.

Lemma play_sound cfg moves : forall p,
  Sound p ->
  Sound (fst (play cfg moves p)) /\ lawful (snd (play cfg moves p)).
Proof.
  induction moves as [|mv rest IH]; intros p HS; cbn [play].
  - split; [exact HS|apply lawful_nil].
  - destruct (move_sound cfg mv p HS) as [H1 H2].
    destruct (move cfg mv p) as [p1 fx1]. cbn [fst snd] in H1, H2.
    destruct (IH p1 H1) as [H3 H4].
    destruct (play cfg rest p1) as [p2 fx2]. cbn [fst snd] in *.
    split; [exact H3|apply lawful_app; assumption].
Qed.


(** *** The queue only changes through its methods *)

Lemma deliver_by_calls now g o q aw w :
  w_queue w = q ->
  SystemLaws.by_calls w (world_of (deliver now g o q aw)).
Proof.
  intros Hq. destruct o as [stage d r fx|d r fx signal]; cbn [deliver].
  - exists []. unfold world_of. cbn. symmetry. exact Hq.
  - unfold world_of at 1. cbn [fst].
    apply (SystemLaws.by_calls_one _ _
             (match signal with
              | Completes => CallProcessed g
              | Fails e => CallFailed g e
              end)).
    rewrite on_queue_queue. cbn [w_queue]. rewrite Hq.
    destruct signal; reflexivity.
Qed.

Lemma after_get_by_calls cfg now m w :
  SystemLaws.by_calls w (world_of (after_get cfg now m w)).
Proof.
  rewrite after_get_cases.
  destruct (verdict cfg m) as [|e|record item]; try apply SystemLaws.by_calls_refl.
  rewrite store_and_queue_run.
  destruct (insertMessage (w_db w) now record) as [d1 [rowid|e]].
  - cbv zeta. unfold world_of at 1. cbn [fst].
    apply (SystemLaws.by_calls_one _ _ (CallEnqueue now item)).
    rewrite on_queue_queue. reflexivity.
  - exists []. reflexivity.
Qed.

Lemma settle_queue calls polls w : w_queue (p_world (settle calls polls w)) = w_queue w.
Proof. reflexivity. Qed.

Lemma move_by_calls cfg mv p :
  SystemLaws.by_calls (p_world p) (p_world (fst (move cfg mv p))).
Proof.
  destruct p as [w calls polls].
  destruct mv as [t| |i now listing|i now a]; cbn [move p_world p_calls p_polls].
  - destruct (db (w_db w)); exists []; reflexivity.
  - apply SystemLaws.by_calls_refl.
  - destruct (nth_error polls i) as [stage|]; [|apply SystemLaws.by_calls_refl].
    destruct (resume_poll_run cfg now listing stage w) as [r ->]. cbn [fst].
    destruct stage as [|m rest|e]; try (exists []; reflexivity).
    destruct (after_get_by_calls cfg now m w) as [cs Hcs].
    exists cs. rewrite settle_queue. exact Hcs.
  - destruct (nth_error calls i) as [[message stage]|]; [|apply SystemLaws.by_calls_refl].
    destruct w as [d q r aw]. rewrite resume_call_deliver.
    destruct (deliver_by_calls now (gmailMessageId message)
                (outcome cfg now a message stage d r) q aw (mkWorld d q r aw) eq_refl)
      as [cs Hcs].
    destruct (deliver _ _ _ _ _) as [[w1 fx1] r1]. cbn [fst].
    exists cs. rewrite settle_queue. exact Hcs.
Qed.

Lemma play_by_calls cfg moves : forall p,
  SystemLaws.by_calls (p_world p) (p_world (fst (play cfg moves p))).
Proof.
  induction moves as [|mv rest IH]; intros p; cbn [play].
  - apply SystemLaws.by_calls_refl.
  - pose proof (move_by_calls cfg mv p) as H1.
    destruct (move cfg mv p) as [p1 fx1]. cbn [fst] in H1.
    pose proof (IH p1) as H2.
    destruct (play cfg rest p1) as [p2 fx2]. cbn [fst] in *.
    exact (SystemLaws.by_calls_trans _ _ _ H1 H2).
Qed.

(** The inquiry of the scenario arrives, is have_records and queued, and its
    call runs up to the [await] of [stage]: [calls] answers have arrived. *)
Definition nancy_moves (calls : nat) : list Move :=
  [Fire; Advance 0 10 (Ok [nancy_mail]); Advance 0 10 (Ok [])]
  ++ repeat (Proceed 0 20 nancy_answers) calls.

(** Auto-send on, test mode off. *)
Definition live_config : SafetyConfig := mkSafety false "Patrick M" true true.

Definition nancy_queued : QueuedMessage :=
  mkQueued "m1" "Nancy E" (Some "noreply@furnishedfinder.com")
           "Booking Inquiry from Nancy E" 0 10.

(** With auto-send on, the call for the scenario's inquiry waits for the
    success notification: the record is already [sent], the item still at
    the head of the queue. *)
Example sent_at_the_head :
  let p := fst (play live_config (nancy_moves 4)
                  (initial fresh (of_nat 3))) in
  queue (w_queue (p_world p)) = [nancy_queued]
  /\ p_calls p = [(nancy_queued,
                   AtSuccess (mkExtracted "Nancy E" "Hi, is the place pet friendly?"
                                "https://www.furnishedfinder.com/members/tenant-message/42")
                             "Yes, we welcome well-behaved pets...")]
  /\ statuses (w_db (p_world p)) "m1" = [sent].
Proof. repeat split; reflexivity. Qed.

(** When generation fails, the call waits for the error notification:
    the record is already [failed], the item still at the head. *)
Example failed_at_the_head :
  let p := fst (play approval_config
                  [Fire; Advance 0 10 (Ok [nancy_mail]); Advance 0 10 (Ok []);
                   Proceed 0 20 failing_answers; Proceed 0 20 failing_answers;
                   Proceed 0 20 failing_answers]
                  (initial fresh (of_nat 3))) in
  queue (w_queue (p_world p)) = [nancy_queued]
  /\ map snd (p_calls p)
     = [AtCatchNotify (mkError "LLM API error: 500 Internal Server Error")]
  /\ statuses (w_db (p_world p)) "m1" = [failed].
Proof. repeat split; reflexivity. Qed.

(** A second [checkGmail] call that passed the dedup tests before the
    first one have_records the message fails at the INSERT and queues nothing. *)
Example overlapping_ticks :
  let out := play approval_config
               [Fire; Fire; Advance 0 10 (Ok [nancy_mail]); Advance 1 11 (Ok [nancy_mail]);
                Advance 0 12 (Ok []); Advance 0 13 (Ok [])]
               (initial fresh (of_nat 3)) in
  queue (w_queue (p_world (fst out))) = [mkQueued "m1" "Nancy E"
                                           (Some "noreply@furnishedfinder.com")
                                           "Booking Inquiry from Nancy E" 0 12]
  /\ copies (w_db (p_world (fst out))) "m1" = 1
  /\ p_polls (fst out)
     = [AtSystemError (mkError "UNIQUE constraint failed: messages.gmail_message_id")].
Proof. repeat split; reflexivity. Qed.

(** X27. Let the database open at any moment, poll ticks start at any
    moment, and every suspended [checkGmail] and [processMessage] call
    go on, one [await] at a time, in any order and with any answers.
    Between two moves, when the queue is not empty, exactly one
    [processMessage] call is suspended, the call for the item at the head
    of the queue; every record of that item has status [processing],
    except that it is [sent] while the call waits for the success
    notification and [failed] while the call waits for the error
    notification of its [catch] clause; and every record of an item
    waiting behind the head has status [pending] or [failed]. *)
Theorem X27_statuses_under_interleaving
  (cfg : SafetyConfig) (d : MessageDatabase) (n : Number) (moves : list Move) :
  let p := fst (play cfg moves (initial d n)) in
  forall h r, queue (w_queue (p_world p)) = h :: r ->
    exists stage,
      p_calls p = [(h, stage)]
      /\ Forall (eq (match stage with
                     | AtSuccess _ _ => sent
                     | AtCatchNotify _ => failed
                     | _ => Database.processing
                     end))
                (statuses (w_db (p_world p)) (gmailMessageId h))
      /\ (forall x, In x r ->
            Forall (fun st => st = pending \/ st = failed)
                   (statuses (w_db (p_world p)) (gmailMessageId x))).
Proof.
  cbv zeta. intros h r Hq.
  destruct (play_sound cfg moves (initial d n) (sound_initial d n))
    as [[_ Hcalls _ _ _ Hh Hr] _].
  rewrite Hq in Hcalls. cbn [firstn] in Hcalls.
  destruct (calls_of_head _ h Hcalls) as [stage Hc].
  exists stage. split; [exact Hc|]. split.
  - apply (Hh h stage). rewrite Hc. left. reflexivity.
  - intros x Hx. exact (Hr h r x Hq Hx).
Qed.

Lemma X27_witness :
  let p := fst (play live_config (nancy_moves 4) (initial fresh (of_nat 3))) in
  queue (w_queue (p_world p)) = [nancy_queued]
  /\ p_calls p
     = [(nancy_queued,
         AtSuccess (mkExtracted "Nancy E" "Hi, is the place pet friendly?"
                      "https://www.furnishedfinder.com/members/tenant-message/42")
                   "Yes, we welcome well-behaved pets...")]
  /\ Forall (eq sent) (statuses (w_db (p_world p)) "m1")
  /\ (forall x, In x [] ->
        Forall (fun st => st = pending \/ st = failed)
               (statuses (w_db (p_world p)) (gmailMessageId x))).
Proof.
  intros p.
  destruct (X27_statuses_under_interleaving live_config fresh (of_nat 3)
              (nancy_moves 4) nancy_queued [] eq_refl) as (stage & Hc & Hst & Hrest).
  assert (E : p_calls p
              = [(nancy_queued,
                  AtSuccess (mkExtracted "Nancy E" "Hi, is the place pet friendly?"
                               "https://www.furnishedfinder.com/members/tenant-message/42")
                            "Yes, we welcome well-behaved pets...")])
    by reflexivity.
  split; [reflexivity|]. split; [exact E|].
  fold p in Hc. rewrite E in Hc. injection Hc as <-.
  split; [exact Hst|exact Hrest].
Defined.

(** X30. Under the same interleavings: the suspended [processMessage]
    calls are the call for the head of the queue, if there is one; the
    queued ids are distinct; [processing] is set exactly when the queue
    is not empty; every queued item has a record; every status change
    that an [updateStatus] call makes to a record is one of pending ->
    processing, processing -> sent, processing -> pending, processing ->
    failed, failed -> processing; the queue is what calls of [enqueue],
    [messageProcessed] and [messageFailed] make of the empty one; and,
    started with an integer retry bound of at least one, it holds no item
    that has failed as often as the bound. *)
Theorem X30_interleaved_process
  (cfg : SafetyConfig) (d : MessageDatabase) (n : Number) (moves : list Move) :
  let out := play cfg moves (initial d n) in
  let w := p_world (fst out) in
  map fst (p_calls (fst out)) = firstn 1 (queue (w_queue w))
  /\ NoDup (ids (queue (w_queue w)))
  /\ processing (w_queue w) = nonempty (queue (w_queue w))
  /\ (forall x, In x (queue (w_queue w)) ->
        messageExists (w_db w) (gmailMessageId x) = true)
  /\ Forall (fun t => In t [(pending, Database.processing);
                            (Database.processing, sent);
                            (Database.processing, pending);
                            (Database.processing, failed);
                            (failed, Database.processing)])
            (transitions (snd out))
  /\ (exists cs, w_queue w = fst (calls (create n) cs))
  /\ (forall k, n = of_nat k -> 1 <= k ->
        Forall (fun m => retryCount m < k) (queue (w_queue w))).
Proof.
  cbv zeta.
  destruct (play_sound cfg moves (initial d n) (sound_initial d n))
    as [[_ Hcalls Hb Hnd Hs _ _] Hl].
  destruct (play_by_calls cfg moves (initial d n)) as [cs Hcs].
  cbn [initial p_world boot w_queue] in Hcs.
  split; [exact Hcalls|]. split; [exact Hnd|]. split; [exact Hb|].
  split; [exact Hs|]. split; [exact Hl|]. split; [exists cs; exact Hcs|].
  intros k -> Hk. rewrite Hcs.
  apply (calls_bounded k (create (of_nat k)) cs Hk eq_refl). constructor.
Qed.

Lemma X30_witness :
  let out := play approval_config
               [Fire; Advance 0 10 (Ok [nancy_mail]); Advance 0 10 (Ok []);
                Proceed 0 20 failing_answers; Proceed 0 20 failing_answers;
                Proceed 0 20 failing_answers; Proceed 0 20 failing_answers]
               (initial fresh (of_nat 3)) in
  queue (w_queue (p_world (fst out))) = [bump nancy_queued]
  /\ p_calls (fst out) = [(bump nancy_queued, AtExtract)]
  /\ transitions (snd out)
     = [(pending, Database.processing); (Database.processing, failed);
        (failed, Database.processing)]
  /\ messageExists (w_db (p_world (fst out))) "m1" = true
  /\ Forall (fun m => retryCount m < 3) (queue (w_queue (p_world (fst out)))).
Proof.
  intros out.
  pose proof (X30_interleaved_process approval_config fresh (of_nat 3)
                [Fire; Advance 0 10 (Ok [nancy_mail]); Advance 0 10 (Ok []);
                 Proceed 0 20 failing_answers; Proceed 0 20 failing_answers;
                 Proceed 0 20 failing_answers; Proceed 0 20 failing_answers])
    as (_ & _ & _ & Hs & _ & _ & Hk).
  split; [reflexivity|]. split; [reflexivity|]. split; [reflexivity|].
  split.
  - exact (Hs (bump nancy_queued) (or_introl eq_refl)).
  - exact (Hk 3 eq_refl (le_S _ _ (le_S _ _ (le_n 1)))).
Defined.

End InterleavingLaws.
